(** * OpenNN numerical core: perceptron layer, tensor utilities, quasi-Newton guard

    A shallow embedding of [opennn/perceptron_layer.cpp],
    [opennn/tensor_utilities.cpp] and of the inverse-Hessian guard of the
    quasi-Newton optimiser, with the properties of the design document,
    and further properties read off the sources, stated and proved over it.

    Conventions.
    - OpenNN's scalar [type] is a typedef of [config.h]; the development is
      generic in it (class [Scalar]) and is instantiated with IEEE-754
      binary32 ([IEEE32.binary32], built on the Standard Library's
      [SpecFloat]) wherever a concrete evaluation is wanted.
    - An Eigen tensor is a shape together with its storage, a flat list in
      column-major order (Eigen's default layout): entry [(i, j)] of a
      [d0 x d1] tensor is cell [i + d0 * j].
    - [Index] values that denote sizes and positions are natural numbers.
    - A C++ call either completes, throws [logic_error], or leaves defined
      behaviour behind (a read or write outside a buffer, an Eigen shape
      precondition that does not hold): type [outcome]. *)

From Stdlib Require Import List Arith Lia Bool ZArith QArith.
From Stdlib Require Import String DecimalString.
From Stdlib Require Import Floats.SpecFloat.
Import ListNotations.

Local Open Scope nat_scope.
Local Open Scope list_scope.
Local Abbreviation length := List.length.

(* ====================================================================== *)
(** * Scalars *)
(* ====================================================================== *)

(** The operations the sources apply to values of [type].  [feqb] and
    [fltb] are the C++ comparisons [==] and [<]; [literal] converts a
    decimal literal ([type(0.2)]); [NUMERIC_LIMITS_MIN] is the macro of
    [config.h]. *)
Class Scalar (type : Type) : Type := {
  fzero : type;
  fone : type;
  fadd : type -> type -> type;
  fsub : type -> type -> type;
  fmul : type -> type -> type;
  fdiv : type -> type -> type;
  fsqrt : type -> type;
  fabs : type -> type;
  feqb : type -> type -> bool;
  fltb : type -> type -> bool;
  fisnan : type -> bool;
  literal : Q -> type;
  NUMERIC_LIMITS_MIN : type
}.

(** C++ [a != b] and [a > b]. *)
Definition fneqb {type} `{Scalar type} (a b : type) : bool := negb (feqb a b).
Definition fgtb {type} `{Scalar type} (a b : type) : bool := fltb b a.

(** IEEE-754 binary32, the [float] that [type] is by default. *)
Module IEEE32.

Definition prec : Z := 24%Z.
Definition emax : Z := 128%Z.

Definition of_Z (z : Z) : spec_float := binary_normalize prec emax z 0%Z false.

Definition of_Q (q : Q) : spec_float :=
  SFdiv prec emax (of_Z (Qnum q)) (of_Z (Zpos (Qden q))).

Definition is_nan (x : spec_float) : bool :=
  match x with S754_nan => true | _ => false end.

Definition infinity : spec_float := S754_infinity false.
Definition nan : spec_float := S754_nan.

Definition binary32 : Scalar spec_float := {|
  fzero := S754_zero false;
  fone := of_Z 1;
  fadd := SFadd prec emax;
  fsub := SFsub prec emax;
  fmul := SFmul prec emax;
  fdiv := SFdiv prec emax;
  fsqrt := SFsqrt prec emax;
  fabs := SFabs;
  feqb := SFeqb;
  fltb := SFltb;
  fisnan := is_nan;
  literal := of_Q;
  NUMERIC_LIMITS_MIN := of_Q (1 # 1000000)
|}.

End IEEE32.

(* ====================================================================== *)
(** * Outcomes of a call *)
(* ====================================================================== *)

Inductive outcome (A : Type) : Type :=
| Done (a : A)
| Throw (what : string)
| Undefined.

Arguments Done {A} a.
Arguments Throw {A} what.
Arguments Undefined {A}.

Definition bind {A B : Type} (m : outcome A) (k : A -> outcome B) : outcome B :=
match m with
| Done a => k a
| Throw w => Throw w
| Undefined => Undefined
end.

Declare Scope outcome_scope.
Delimit Scope outcome_scope with outcome.
Notation "x <- m ;; k" := (bind m (fun x => k))
(at level 61, m at next level, right associativity) : outcome_scope.
Notation "m ;;; k" := (bind m (fun _ => k))
(at level 61, right associativity) : outcome_scope.

(** [require b] is the library precondition [b]: nothing is defined when
  it fails. *)
Definition require (b : bool) : outcome unit :=
if b then Done tt else Undefined.

Definition throws {A : Type} (m : outcome A) : Prop :=
exists what, m = Throw what.

(* ====================================================================== *)
(** * Buffers and tensors *)
(* ====================================================================== *)

Section OpenNN.

Context {type : Type} `{Scalar type}.

(** Cell [i] of a buffer.  Every use below is within the buffer or
    guarded by [require]. *)
Definition cell (buf : list type) (i : nat) : type := nth i buf fzero.

(** [std::fill_n(buf + pos, n, v)]. *)
Definition fill_n (buf : list type) (pos n : nat) (v : type) : list type :=
  firstn pos buf ++ repeat v n ++ skipn (pos + n) buf.

(** [memcpy(dst + dpos, src + spos, n * sizeof(type))]. *)
Definition memcpy (dst : list type) (dpos : nat) (src : list type) (spos n : nat)
  : outcome (list type) :=
  if (dpos + n <=? length dst) && (spos + n <=? length src)
  then Done (firstn dpos dst ++ firstn n (skipn spos src) ++ skipn (dpos + n) dst)
  else Undefined.

(** [Tensor<type, 2>]: [dimension(0)], [dimension(1)] and [data()]. *)
Record Tensor2 : Type := mkTensor2 {
  dim0 : nat;
  dim1 : nat;
  data2 : list type
}.

(** [Tensor<type, 3>]. *)
Record Tensor3 : Type := mkTensor3 {
  dim3_0 : nat;
  dim3_1 : nat;
  dim3_2 : nat;
  data3 : list type
}.

Definition size2 (t : Tensor2) : nat := dim0 t * dim1 t.
Definition size3 (t : Tensor3) : nat := dim3_0 t * dim3_1 t * dim3_2 t.

(** The storage of a tensor has exactly [size()] cells. *)
Definition wf2 (t : Tensor2) : Prop := length (data2 t) = size2 t.
Definition wf3 (t : Tensor3) : Prop := length (data3 t) = size3 t.

(** [t(i)] and [t(i, j)]. *)
Definition lin2 (t : Tensor2) (i : nat) : type := cell (data2 t) i.
Definition at2 (t : Tensor2) (i j : nat) : type := cell (data2 t) (i + dim0 t * j).

Definition same_shape (a b : Tensor2) : bool :=
  (dim0 a =? dim0 b) && (dim1 a =? dim1 b).

(** Column-major storage of the [d0 x d1] tensor with entries [f i j]. *)
Definition tabulate2 (d0 d1 : nat) (f : nat -> nat -> type) : Tensor2 :=
  mkTensor2 d0 d1
    (flat_map (fun j => map (fun i => f i j) (seq 0 d0)) (seq 0 d1)).

(** The storage a [resize] allocates is not initialised; [indeterminate]
    stands for what it holds. *)
Variable indeterminate : type.

(** [t.resize(d0, d1)]: Eigen keeps the storage when the size is
    unchanged and allocates otherwise. *)
Definition resize (t : Tensor2) (d0 d1 : nat) : Tensor2 :=
  if size2 t =? d0 * d1
  then mkTensor2 d0 d1 (data2 t)
  else mkTensor2 d0 d1 (repeat indeterminate (d0 * d1)).

Definition setConstant (t : Tensor2) (v : type) : Tensor2 :=
  mkTensor2 (dim0 t) (dim1 t) (map (fun _ => v) (data2 t)).

Definition setZero (t : Tensor2) : Tensor2 := setConstant t fzero.

Definition setZero1 (v : list type) : list type := map (fun _ => fzero) v.

(** Sum of [f 0 .. f (n-1)], accumulated from zero in index order. *)
Definition sum_n (n : nat) (f : nat -> type) : type :=
  fold_left (fun acc k => fadd acc (f k)) (seq 0 n) fzero.


(* ====================================================================== *)
(** * Eigen tensor expressions *)
(* ====================================================================== *)

(** [dimension(axis)] of a rank-2 tensor. *)
Definition dimension (t : Tensor2) (axis : nat) : nat :=
  match axis with
  | 0 => dim0 t
  | _ => dim1 t
  end.

(** The entry of [t] with index [k] on [axis] and [i] on the other axis. *)
Definition along (t : Tensor2) (axis k i : nat) : type :=
  match axis with
  | 0 => at2 t k i
  | _ => at2 t i k
  end.

Definition other_axis (axis : nat) : nat :=
  match axis with
  | 0 => 1
  | _ => 0
  end.

(** [a.contract(b, {IndexPair(la, ra)})]: the axes [la] of [a] and [ra] of
    [b] are summed over and must have one size; the result has the free
    axis of [a], then the free axis of [b].  Eigen leaves the order of the
    additions open; they are done here in index order, from zero. *)
Definition contract (a b : Tensor2) (axes : nat * nat) : outcome Tensor2 :=
  let (la, ra) := axes in
  (require (dimension a la =? dimension b ra) ;;;
   Done (tabulate2 (dimension a (other_axis la)) (dimension b (other_axis ra))
           (fun i j =>
              sum_n (dimension a la)
                (fun k => fmul (along a la k i) (along b ra k j)))))%outcome.

(** The same contraction with a rank-1 left operand: axis 0 of [v] against
    axis [ra] of [b]. *)
Definition contract1 (v : list type) (b : Tensor2) (axes : nat * nat)
  : outcome (list type) :=
  let (_, ra) := axes in
  (require (length v =? dimension b ra) ;;;
   Done (map (fun j => sum_n (length v) (fun k => fmul (cell v k) (along b ra k j)))
           (seq 0 (dimension b (other_axis ra)))))%outcome.

(** Modelled from the spec: the index pairs [A_B], [A_BT] and [AT_B] of
    [config.h], which is not among the sources.  The design document
    writes the three contractions as [inputs . weights], [. nextWeights^T]
    and [inputs^T .]: the second axis of the left operand against the first
    of the right one, second against second, first against first. *)
Definition A_B : nat * nat := (1, 0).
Definition A_BT : nat * nat := (1, 1).
Definition AT_B : nat * nat := (0, 0).

(** [a * b], coefficient by coefficient, on operands of one shape. *)
Definition cwise_mul (a b : Tensor2) : outcome Tensor2 :=
  (require (same_shape a b) ;;;
   Done (mkTensor2 (dim0 a) (dim1 a)
           (map (fun i => fmul (lin2 a i) (lin2 b i)) (seq 0 (size2 a)))))%outcome.

(** [t / c]. *)
Definition cwise_div_scalar (t : Tensor2) (c : type) : Tensor2 :=
  mkTensor2 (dim0 t) (dim1 t) (map (fun x => fdiv x c) (data2 t)).

(** [t.sum(Eigen::array<Index, 1>({0}))]: the sum down each column. *)
Definition sum_axis0 (t : Tensor2) : list type :=
  map (fun j => sum_n (dim0 t) (fun s => at2 t s j)) (seq 0 (dim1 t)).

(** [t.chip(i, 0)] read: row [i]. *)
Definition chip0 (t : Tensor2) (i : nat) : outcome (list type) :=
  (require (i <? dim0 t) ;;;
   Done (map (fun j => at2 t i j) (seq 0 (dim1 t))))%outcome.

(** [t.chip(i, 0) = row]: row [i] is overwritten. *)
Definition chip0_assign (t : Tensor2) (i : nat) (row : list type) : outcome Tensor2 :=
  (require ((i <? dim0 t) && (length row =? dim1 t)) ;;;
   Done (tabulate2 (dim0 t) (dim1 t)
           (fun r j => if r =? i then cell row j else at2 t r j)))%outcome.

(** [dst.device(...) = value]: evaluated into the storage of [dst], which
    is not resized. *)
Definition assign (dst value : Tensor2) : outcome Tensor2 :=
  (require (same_shape dst value) ;;; Done value)%outcome.

Definition assign1 (dst value : list type) : outcome (list type) :=
  (require (length dst =? length value) ;;; Done value)%outcome.

(** [dst.device(...) += value]. *)
Definition add_assign (dst value : Tensor2) : outcome Tensor2 :=
  (require (same_shape dst value) ;;;
   Done (mkTensor2 (dim0 dst) (dim1 dst)
           (map (fun i => fadd (lin2 dst i) (lin2 value i)) (seq 0 (size2 dst)))))%outcome.

(** [TensorMap<Tensor<type, 2>>(data + offset, d0, d1)]. *)
Definition tensor_map2 (data : list type) (offset d0 d1 : nat) : outcome Tensor2 :=
  (require (offset + d0 * d1 <=? length data) ;;;
   Done (mkTensor2 d0 d1 (firstn (d0 * d1) (skipn offset data))))%outcome.

(** [t.reshape({d0, d1})] of a tensor with storage [data]. *)
Definition reshape2 (data : list type) (d0 d1 : nat) : outcome Tensor2 :=
  (require (length data =? d0 * d1) ;;; Done (mkTensor2 d0 d1 data))%outcome.

(** A [for] loop over [0 .. n-1] whose body may fail. *)
Definition for_loop {S : Type} (n : nat) (body : nat -> S -> outcome S) (s : S)
  : outcome S :=
  fold_left (fun acc i => bind acc (body i)) (seq 0 n) (Done s).

(* ====================================================================== *)
(** * tensor_utilities.cpp *)
(* ====================================================================== *)

(** [buffer << n]. *)
Definition show (n : nat) : string := NilEmpty.string_of_uint (Nat.to_uint n).

(** [is_zero(tensor)]: no entry exceeds [NUMERIC_LIMITS_MIN] in absolute
    value. *)
Definition is_zero (tensor : list type) : bool :=
  let size := length tensor in
  forallb (fun i => negb (fgtb (fabs (cell tensor i)) NUMERIC_LIMITS_MIN))
    (seq 0 size).

(** [is_constant(vector)]: the two nested loops leave with [false] at the
    first pair whose difference is [!= type(0)]. *)
Definition is_constant (vector : list type) : bool :=
  let size := length vector in
  forallb
    (fun i =>
       forallb
         (fun j => negb (fneqb (fsub (cell vector i) (cell vector j)) fzero))
         (seq 0 size))
    (seq 0 size).

(** [kronecker_product(vector, other_vector)]. *)
Definition kronecker_product (vector other_vector : list type) : Tensor2 :=
  let size := length vector in
  tabulate2 size size (fun i j => fmul (cell vector i) (cell other_vector j)).

(** [l2_norm]: [vector.square().sum().sqrt()]. *)
Definition l2_norm (vector : list type) : type :=
  fsqrt (sum_n (length vector) (fun i => fmul (cell vector i) (cell vector i))).

Definition l2_norm_gradient (vector gradient : list type) : outcome (list type) :=
  let norm := l2_norm vector in
  if fltb norm NUMERIC_LIMITS_MIN
  then Done (setZero1 gradient)
  else assign1 gradient (map (fun x => fdiv x norm) vector).

Definition l2_norm_hessian (vector : list type) (hessian : Tensor2) : outcome Tensor2 :=
  let norm := l2_norm vector in
  if fltb norm NUMERIC_LIMITS_MIN
  then Done (setZero hessian)
  else assign hessian
         (cwise_div_scalar (kronecker_product vector vector)
            (fmul (fmul norm norm) norm)).

Definition check_size (vector : list type) (size : nat) (log : string) : outcome unit :=
  if negb (length vector =? size)
  then Throw ("OpenNN Exception: " ++ log ++ "Size of vector is "
              ++ show (length vector) ++ ", but must be " ++ show size ++ ".")%string
  else Done tt.

Definition check_dimensions (matrix : Tensor2) (rows_number columns_number : nat)
    (log : string) : outcome unit :=
  if negb (dim0 matrix =? rows_number)
  then Throw ("OpenNN Exception: " ++ log ++ "Number of rows in matrix is "
              ++ show (dim0 matrix) ++ ", but must be " ++ show rows_number ++ ".")%string
  else if negb (dim1 matrix =? columns_number)
  then Throw ("OpenNN Exception: " ++ log ++ "Number of columns in matrix is "
              ++ show (dim0 matrix) ++ ", but must be " ++ show columns_number ++ ".")%string
  else Done tt.

Definition check_columns_number (matrix : Tensor2) (columns_number : nat)
    (log : string) : outcome unit :=
  if negb (dim1 matrix =? columns_number)
  then Throw ("OpenNN Exception: " ++ log ++ "Number of columns in matrix is "
              ++ show (dim0 matrix) ++ ", but must be " ++ show columns_number ++ ".")%string
  else Done tt.

(* ====================================================================== *)
(** * perceptron_layer.cpp: the layer and its parameters *)
(* ====================================================================== *)

Inductive ActivationFunction : Type :=
| Threshold | SymmetricThreshold | Logistic | HyperbolicTangent | Linear
| RectifiedLinear | ExponentialLinear | ScaledExponentialLinear
| SoftPlus | SoftSign | HardSigmoid.

(** [Layer::Type], as far as the sources tell the kinds apart. *)
Inductive LayerType : Type :=
| Perceptron | Probabilistic | OtherLayerType.

Record PerceptronLayer : Type := mkPerceptronLayer {
  biases : Tensor2;
  synaptic_weights : Tensor2;
  activation_function : ActivationFunction;
  layer_name : string;
  display : bool;
  layer_type : LayerType
}.

Definition get_inputs_number (l : PerceptronLayer) : nat := dim0 (synaptic_weights l).
Definition get_neurons_number (l : PerceptronLayer) : nat := size2 (biases l).
Definition get_biases_number (l : PerceptronLayer) : nat := size2 (biases l).
Definition get_synaptic_weights_number (l : PerceptronLayer) : nat :=
  size2 (synaptic_weights l).
Definition get_parameters_number (l : PerceptronLayer) : nat :=
  size2 (biases l) + size2 (synaptic_weights l).

Definition with_parameters (l : PerceptronLayer) (b w : Tensor2) : PerceptronLayer :=
  mkPerceptronLayer b w (activation_function l) (layer_name l) (display l) (layer_type l).

(** [get_parameters()]: a fresh vector, then one [fill_n] per bias and one
    per synaptic weight. *)
Definition get_parameters (l : PerceptronLayer) : list type :=
  let parameters :=
    repeat indeterminate (size2 (synaptic_weights l) + size2 (biases l)) in
  let parameters :=
    fold_left (fun p i => fill_n p i 1 (lin2 (biases l) i))
      (seq 0 (size2 (biases l))) parameters in
  fold_left
    (fun p i => fill_n p (size2 (biases l) + i) 1 (lin2 (synaptic_weights l) i))
    (seq 0 (size2 (synaptic_weights l))) parameters.

Definition set_default (l : PerceptronLayer) : PerceptronLayer :=
  mkPerceptronLayer (biases l) (synaptic_weights l) (activation_function l)
    "perceptron_layer" true Perceptron.

(** The C library's [rand()] is a stream: [uniform k] is the value of
    [static_cast<type>(rand()/(RAND_MAX+1.0))] at the [k]-th call, and the
    number of calls made so far is threaded through. *)
Variable uniform : nat -> type.

Definition set_parameters_random (l : PerceptronLayer) (calls : nat)
  : PerceptronLayer * nat :=
  let minimum := literal (- (2 # 10)) in
  let maximum := literal (2 # 10) in
  let draw k := fadd minimum (fmul (fsub maximum minimum) (uniform k)) in
  let nb := size2 (biases l) in
  let nw := size2 (synaptic_weights l) in
  let b := mkTensor2 (dim0 (biases l)) (dim1 (biases l))
             (map (fun i => draw (calls + i)) (seq 0 nb)) in
  let w := mkTensor2 (dim0 (synaptic_weights l)) (dim1 (synaptic_weights l))
             (map (fun i => draw (calls + nb + i)) (seq 0 nw)) in
  (with_parameters l b w, calls + nb + nw).

(** [set()]. *)
Definition set_empty (l : PerceptronLayer) : PerceptronLayer :=
  set_default (with_parameters l (resize (biases l) 0 0) (resize (synaptic_weights l) 0 0)).

(** [set(new_inputs_number, new_neurons_number, new_activation_function)]. *)
Definition set (l : PerceptronLayer) (new_inputs_number new_neurons_number : nat)
    (new_activation_function : ActivationFunction) (calls : nat)
  : PerceptronLayer * nat :=
  let l1 := with_parameters l
              (resize (biases l) 1 new_neurons_number)
              (resize (synaptic_weights l) new_inputs_number new_neurons_number) in
  let (l2, calls') := set_parameters_random l1 calls in
  let l3 := mkPerceptronLayer (biases l2) (synaptic_weights l2) new_activation_function
              (layer_name l2) (display l2) (layer_type l2) in
  (set_default l3, calls').

Definition set_inputs_number (l : PerceptronLayer) (new_inputs_number : nat)
  : PerceptronLayer :=
  let neurons_number := get_neurons_number l in
  with_parameters l
    (resize (biases l) 1 neurons_number)
    (resize (synaptic_weights l) new_inputs_number neurons_number).

Definition set_neurons_number (l : PerceptronLayer) (new_neurons_number : nat)
  : PerceptronLayer :=
  let inputs_number := get_inputs_number l in
  with_parameters l
    (resize (biases l) 1 new_neurons_number)
    (resize (synaptic_weights l) inputs_number new_neurons_number).

(** [set_parameters(new_parameters, index)]: two [memcpy] into the storage
    of the biases and of the synaptic weights. *)
Definition set_parameters (new_parameters : list type) (index : nat)
    (l : PerceptronLayer) : outcome PerceptronLayer :=
  let biases_number := get_biases_number l in
  let synaptic_weights_number := get_synaptic_weights_number l in
  (b <- memcpy (data2 (biases l)) 0 new_parameters index biases_number ;;
   w <- memcpy (data2 (synaptic_weights l)) 0 new_parameters (biases_number + index)
          synaptic_weights_number ;;
   Done (with_parameters l
           (mkTensor2 (dim0 (biases l)) (dim1 (biases l)) b)
           (mkTensor2 (dim0 (synaptic_weights l)) (dim1 (synaptic_weights l)) w)))%outcome.


(* ====================================================================== *)
(** * perceptron_layer.cpp: forward propagation *)
(* ====================================================================== *)

(** [OPENNN_DEBUG] is a compile-time switch: the shape checks at the head
    of the methods are compiled in only when it is defined.  [LOG] is the
    text the checks prepend to their message. *)
Variable OPENNN_DEBUG : bool.
Variable LOG : string.

Definition debug_only (check : outcome unit) : outcome unit :=
  if OPENNN_DEBUG then check else Done tt.

(** The activation functions of the base class [Layer] are not among the
    sources; the layer only selects one of them.  An activation takes the
    combinations and the tensor it writes to; a derivative variant writes
    the activations and their derivatives. *)
Record LayerActivations : Type := mkLayerActivations {
  linear : Tensor2 -> Tensor2 -> outcome Tensor2;
  logistic : Tensor2 -> Tensor2 -> outcome Tensor2;
  hyperbolic_tangent : Tensor2 -> Tensor2 -> outcome Tensor2;
  threshold : Tensor2 -> Tensor2 -> outcome Tensor2;
  symmetric_threshold : Tensor2 -> Tensor2 -> outcome Tensor2;
  rectified_linear : Tensor2 -> Tensor2 -> outcome Tensor2;
  scaled_exponential_linear : Tensor2 -> Tensor2 -> outcome Tensor2;
  soft_plus : Tensor2 -> Tensor2 -> outcome Tensor2;
  soft_sign : Tensor2 -> Tensor2 -> outcome Tensor2;
  hard_sigmoid : Tensor2 -> Tensor2 -> outcome Tensor2;
  exponential_linear : Tensor2 -> Tensor2 -> outcome Tensor2;
  linear_derivatives : Tensor2 -> Tensor2 -> Tensor2 -> outcome (Tensor2 * Tensor2);
  logistic_derivatives : Tensor2 -> Tensor2 -> Tensor2 -> outcome (Tensor2 * Tensor2);
  hyperbolic_tangent_derivatives :
    Tensor2 -> Tensor2 -> Tensor2 -> outcome (Tensor2 * Tensor2);
  threshold_derivatives : Tensor2 -> Tensor2 -> Tensor2 -> outcome (Tensor2 * Tensor2);
  symmetric_threshold_derivatives :
    Tensor2 -> Tensor2 -> Tensor2 -> outcome (Tensor2 * Tensor2);
  rectified_linear_derivatives :
    Tensor2 -> Tensor2 -> Tensor2 -> outcome (Tensor2 * Tensor2);
  scaled_exponential_linear_derivatives :
    Tensor2 -> Tensor2 -> Tensor2 -> outcome (Tensor2 * Tensor2);
  soft_plus_derivatives : Tensor2 -> Tensor2 -> Tensor2 -> outcome (Tensor2 * Tensor2);
  soft_sign_derivatives : Tensor2 -> Tensor2 -> Tensor2 -> outcome (Tensor2 * Tensor2);
  hard_sigmoid_derivatives : Tensor2 -> Tensor2 -> Tensor2 -> outcome (Tensor2 * Tensor2);
  exponential_linear_derivatives :
    Tensor2 -> Tensor2 -> Tensor2 -> outcome (Tensor2 * Tensor2)
}.

Variable layer_base : LayerActivations.

(** [calculate_combinations(inputs, biases, synaptic_weights, combinations)].
    The two tensor parameters hide the members of the same name; the
    number of biases is the layer's own.  The loop reads [biases(i)] for
    every [i] below that number, which is inside the storage of the biases
    argument when it has that many entries, and writes [biases_number]
    columns of [batch_samples_number] cells into the combinations. *)
Definition calculate_combinations (l : PerceptronLayer)
    (inputs biases_arg synaptic_weights_arg combinations_arg : Tensor2)
  : outcome Tensor2 :=
  (debug_only
     (check_columns_number inputs (get_inputs_number l) LOG ;;;
      check_dimensions synaptic_weights_arg (get_inputs_number l) (get_neurons_number l) LOG ;;;
      check_dimensions combinations_arg (dim0 inputs) (get_neurons_number l) LOG) ;;;
   let batch_samples_number := dim0 inputs in
   let biases_number := get_biases_number l in
   require (biases_number <=? length (data2 biases_arg)) ;;;
   require (biases_number * batch_samples_number <=? length (data2 combinations_arg)) ;;;
   let filled :=
     fold_left
       (fun d i => fill_n d (i * batch_samples_number) batch_samples_number
                     (lin2 biases_arg i))
       (seq 0 biases_number) (data2 combinations_arg) in
   product <- contract inputs synaptic_weights_arg A_B ;;
   add_assign (mkTensor2 (dim0 combinations_arg) (dim1 combinations_arg) filled) product)%outcome.

Definition calculate_activations (l : PerceptronLayer)
    (combinations_arg activations_arg : Tensor2) : outcome Tensor2 :=
  (debug_only
     (check_columns_number combinations_arg (get_neurons_number l) LOG ;;;
      check_dimensions activations_arg (dim0 combinations_arg) (get_neurons_number l) LOG) ;;;
   match activation_function l with
   | Linear => linear layer_base combinations_arg activations_arg
   | Logistic => logistic layer_base combinations_arg activations_arg
   | HyperbolicTangent => hyperbolic_tangent layer_base combinations_arg activations_arg
   | Threshold => threshold layer_base combinations_arg activations_arg
   | SymmetricThreshold => symmetric_threshold layer_base combinations_arg activations_arg
   | RectifiedLinear => rectified_linear layer_base combinations_arg activations_arg
   | ScaledExponentialLinear =>
       scaled_exponential_linear layer_base combinations_arg activations_arg
   | SoftPlus => soft_plus layer_base combinations_arg activations_arg
   | SoftSign => soft_sign layer_base combinations_arg activations_arg
   | HardSigmoid => hard_sigmoid layer_base combinations_arg activations_arg
   | ExponentialLinear => exponential_linear layer_base combinations_arg activations_arg
   end)%outcome.

Definition calculate_activations_derivatives (l : PerceptronLayer)
    (combinations_arg activations_arg derivatives_arg : Tensor2)
  : outcome (Tensor2 * Tensor2) :=
  (debug_only
     (check_columns_number combinations_arg (get_neurons_number l) LOG ;;;
      check_dimensions activations_arg (dim0 combinations_arg) (get_neurons_number l) LOG ;;;
      check_dimensions derivatives_arg (dim0 combinations_arg) (get_neurons_number l) LOG) ;;;
   match activation_function l with
   | Linear => linear_derivatives layer_base combinations_arg activations_arg derivatives_arg
   | Logistic =>
       logistic_derivatives layer_base combinations_arg activations_arg derivatives_arg
   | HyperbolicTangent =>
       hyperbolic_tangent_derivatives layer_base combinations_arg activations_arg
         derivatives_arg
   | Threshold =>
       threshold_derivatives layer_base combinations_arg activations_arg derivatives_arg
   | SymmetricThreshold =>
       symmetric_threshold_derivatives layer_base combinations_arg activations_arg
         derivatives_arg
   | RectifiedLinear =>
       rectified_linear_derivatives layer_base combinations_arg activations_arg
         derivatives_arg
   | ScaledExponentialLinear =>
       scaled_exponential_linear_derivatives layer_base combinations_arg activations_arg
         derivatives_arg
   | SoftPlus =>
       soft_plus_derivatives layer_base combinations_arg activations_arg derivatives_arg
   | SoftSign =>
       soft_sign_derivatives layer_base combinations_arg activations_arg derivatives_arg
   | HardSigmoid =>
       hard_sigmoid_derivatives layer_base combinations_arg activations_arg derivatives_arg
   | ExponentialLinear =>
       exponential_linear_derivatives layer_base combinations_arg activations_arg
         derivatives_arg
   end)%outcome.

Definition calculate_outputs (l : PerceptronLayer) (inputs : Tensor2) : outcome Tensor2 :=
  (debug_only (check_columns_number inputs (get_inputs_number l) LOG) ;;;
   let batch_size := dim0 inputs in
   let outputs_number := get_neurons_number l in
   let outputs :=
     mkTensor2 batch_size outputs_number
       (repeat indeterminate (batch_size * outputs_number)) in
   outputs <- calculate_combinations l inputs (biases l) (synaptic_weights l) outputs ;;
   calculate_activations l outputs outputs)%outcome.

Record PerceptronLayerForwardPropagation : Type := mkPerceptronLayerForwardPropagation {
  combinations : Tensor2;
  activations : Tensor2;
  activations_derivatives : Tensor2
}.

(** [forward_propagate(inputs, forward_propagation)]. *)
Definition forward_propagate (l : PerceptronLayer) (inputs : Tensor2)
    (forward_propagation : PerceptronLayerForwardPropagation)
  : outcome PerceptronLayerForwardPropagation :=
  (debug_only (check_columns_number inputs (get_inputs_number l) LOG) ;;;
   c <- calculate_combinations l inputs (biases l) (synaptic_weights l)
          (combinations forward_propagation) ;;
   ad <- calculate_activations_derivatives l c (activations forward_propagation)
           (activations_derivatives forward_propagation) ;;
   Done (mkPerceptronLayerForwardPropagation c (fst ad) (snd ad)))%outcome.

(** [forward_propagate(inputs, potential_parameters, forward_propagation)]:
    the candidate vector is read through two [TensorMap]s. *)
Definition forward_propagate_parameters (l : PerceptronLayer) (inputs : Tensor2)
    (potential_parameters : list type)
    (forward_propagation : PerceptronLayerForwardPropagation)
  : outcome PerceptronLayerForwardPropagation :=
  (debug_only
     (check_columns_number inputs (get_inputs_number l) LOG ;;;
      check_size potential_parameters (get_parameters_number l) LOG) ;;;
   let neurons_number := get_neurons_number l in
   let inputs_number := get_inputs_number l in
   potential_biases <- tensor_map2 potential_parameters 0 neurons_number 1 ;;
   potential_synaptic_weights <-
     tensor_map2 potential_parameters neurons_number inputs_number neurons_number ;;
   c <- calculate_combinations l inputs potential_biases potential_synaptic_weights
          (combinations forward_propagation) ;;
   ad <- calculate_activations_derivatives l c (activations forward_propagation)
           (activations_derivatives forward_propagation) ;;
   Done (mkPerceptronLayerForwardPropagation c (fst ad) (snd ad)))%outcome.


(* ====================================================================== *)
(** * perceptron_layer.cpp: back-propagation *)
(* ====================================================================== *)

Record PerceptronLayerBackPropagation : Type := mkPerceptronLayerBackPropagation {
  batch_samples_number : nat;
  delta : Tensor2;
  biases_derivatives : list type;
  synaptic_weights_derivatives : Tensor2
}.

Definition with_delta (bp : PerceptronLayerBackPropagation) (d : Tensor2)
  : PerceptronLayerBackPropagation :=
  mkPerceptronLayerBackPropagation (batch_samples_number bp) d
    (biases_derivatives bp) (synaptic_weights_derivatives bp).

Inductive ProbabilisticActivationFunction : Type :=
| Softmax | OtherProbabilisticActivation.

(** What this file asks of a [ProbabilisticLayer], whose class is not
    among the sources: the values of [get_neurons_number()],
    [get_biases_number()], [get_activation_function()] and
    [get_synaptic_weights()]. *)
Record ProbabilisticLayer : Type := mkProbabilisticLayer {
  probabilistic_neurons_number : nat;
  probabilistic_biases_number : nat;
  probabilistic_activation_function : ProbabilisticActivationFunction;
  probabilistic_synaptic_weights : Tensor2
}.

Record ProbabilisticLayerForwardPropagation : Type :=
  mkProbabilisticLayerForwardPropagation {
  probabilistic_activations_derivatives : Tensor3
}.

Record ProbabilisticLayerBackPropagation : Type := mkProbabilisticLayerBackPropagation {
  probabilistic_delta : Tensor2;
  delta_row : list type;
  error_combinations_derivatives : Tensor2
}.

(** [LayerForwardPropagation*] and [LayerBackPropagation*]: the propagation
    data of one of the layer kinds; the back-propagation data carry their
    [layer_pointer]. *)
Inductive LayerForwardPropagation : Type :=
| PerceptronForward (fp : PerceptronLayerForwardPropagation)
| ProbabilisticForward (fp : ProbabilisticLayerForwardPropagation).

Inductive LayerBackPropagation : Type :=
| PerceptronBack (layer_pointer : PerceptronLayer) (bp : PerceptronLayerBackPropagation)
| ProbabilisticBack (layer_pointer : ProbabilisticLayer)
    (bp : ProbabilisticLayerBackPropagation)
| OtherBack.

Definition newline : string := String (Ascii.ascii_of_nat 10) EmptyString.

Definition hidden_delta_probabilistic_where : string :=
  ("OpenNN Exception: ProbabilisticLayer class." ++ newline
   ++ "void calculate_hidden_delta_probabilistic(ProbabilisticLayerForwardPropagation*,"
   ++ "ProbabilisticLayerBackPropagation*,PerceptronLayerBackPropagation*"
   ++ ") const." ++ newline)%string.

Definition calculate_hidden_delta_perceptron
    (next_forward_propagation : PerceptronLayerForwardPropagation)
    (next_layer : PerceptronLayer)
    (next_back_propagation : PerceptronLayerBackPropagation)
    (back_propagation : PerceptronLayerBackPropagation)
  : outcome PerceptronLayerBackPropagation :=
  let next_synaptic_weights := synaptic_weights next_layer in
  (product <- cwise_mul (delta next_back_propagation)
                (activations_derivatives next_forward_propagation) ;;
   value <- contract product next_synaptic_weights A_BT ;;
   d <- assign (delta back_propagation) value ;;
   Done (with_delta back_propagation d))%outcome.

(** One turn of the loop over the samples in the softmax branch. *)
Definition softmax_sample_step
    (next_forward_propagation : ProbabilisticLayerForwardPropagation)
    (next_layer_neurons_number step : nat) (i : nat)
    (next : ProbabilisticLayerBackPropagation)
  : outcome ProbabilisticLayerBackPropagation :=
  (row <- chip0 (probabilistic_delta next) i ;;
   activations_derivatives_matrix <-
     tensor_map2 (data3 (probabilistic_activations_derivatives next_forward_propagation))
       (i * step) next_layer_neurons_number next_layer_neurons_number ;;
   combination <- contract1 row activations_derivatives_matrix AT_B ;;
   ecd <- chip0_assign (error_combinations_derivatives next) i combination ;;
   Done (mkProbabilisticLayerBackPropagation (probabilistic_delta next) row ecd))%outcome.

Definition calculate_hidden_delta_probabilistic
    (next_forward_propagation : ProbabilisticLayerForwardPropagation)
    (probabilistic_layer : ProbabilisticLayer)
    (next_back_propagation : ProbabilisticLayerBackPropagation)
    (back_propagation : PerceptronLayerBackPropagation)
  : outcome (ProbabilisticLayerBackPropagation * PerceptronLayerBackPropagation) :=
  let next_synaptic_weights := probabilistic_synaptic_weights probabilistic_layer in
  let batch := batch_samples_number back_propagation in
  let next_neurons_number := probabilistic_biases_number probabilistic_layer in
  let derivatives := probabilistic_activations_derivatives next_forward_propagation in
  if probabilistic_neurons_number probabilistic_layer =? 1
  then
    (activations_derivatives_2d <-
       tensor_map2 (data3 derivatives) 0 batch next_neurons_number ;;
     reshaped <- reshape2 (data2 activations_derivatives_2d)
                   (dim0 activations_derivatives_2d) 1 ;;
     product <- cwise_mul (probabilistic_delta next_back_propagation) reshaped ;;
     value <- contract product next_synaptic_weights A_BT ;;
     d <- assign (delta back_propagation) value ;;
     Done (next_back_propagation, with_delta back_propagation d))%outcome
  else
    match probabilistic_activation_function probabilistic_layer with
    | OtherProbabilisticActivation =>
      (reshaped <- reshape2 (data3 derivatives) (dim3_0 derivatives) 1 ;;
       product <- cwise_mul (probabilistic_delta next_back_propagation) reshaped ;;
       value <- contract product next_synaptic_weights A_BT ;;
       d <- assign (delta back_propagation) value ;;
       Done (next_back_propagation, with_delta back_propagation d))%outcome
    | Softmax =>
      let samples_number := dim0 (probabilistic_delta next_back_propagation) in
      let outputs_number := dim1 (probabilistic_delta next_back_propagation) in
      let next_layer_neurons_number := probabilistic_neurons_number probabilistic_layer in
      if negb (outputs_number =? next_layer_neurons_number)
      then Throw (hidden_delta_probabilistic_where
                  ++ "Number of columns in delta (" ++ show outputs_number
                  ++ ") must be equal to number of neurons in probabilistic layer ("
                  ++ show next_layer_neurons_number ++ ")." ++ newline)%string
      else if negb (dim3_1 derivatives =? next_layer_neurons_number)
      then Throw (hidden_delta_probabilistic_where
                  ++ "Dimension 1 of activations derivatives (" ++ show outputs_number
                  ++ ") must be equal to number of neurons in probabilistic layer ("
                  ++ show next_layer_neurons_number ++ ")." ++ newline)%string
      else if negb (dim3_2 derivatives =? next_layer_neurons_number)
      then Throw (hidden_delta_probabilistic_where
                  ++ "Dimension 2 of activations derivatives (" ++ show outputs_number
                  ++ ") must be equal to number of neurons in probabilistic layer ("
                  ++ show next_layer_neurons_number ++ ")." ++ newline)%string
      else
        let step := next_layer_neurons_number * next_layer_neurons_number in
        (next <- for_loop samples_number
                   (softmax_sample_step next_forward_propagation
                      next_layer_neurons_number step)
                   next_back_propagation ;;
         value <- contract (error_combinations_derivatives next)
                    next_synaptic_weights A_BT ;;
         d <- assign (delta back_propagation) value ;;
         Done (next, with_delta back_propagation d))%outcome
    end.

(** [calculate_hidden_delta]: the kind of the next layer selects the
    formula; the pointers are cast to that kind. *)
Definition calculate_hidden_delta
    (next_layer_forward_propagation : LayerForwardPropagation)
    (next_layer_back_propagation : LayerBackPropagation)
    (layer_back_propagation : PerceptronLayerBackPropagation)
  : outcome (LayerBackPropagation * PerceptronLayerBackPropagation) :=
  match next_layer_back_propagation with
  | PerceptronBack next_layer next_bp =>
    match next_layer_forward_propagation with
    | PerceptronForward next_fp =>
      (bp <- calculate_hidden_delta_perceptron next_fp next_layer next_bp
               layer_back_propagation ;;
       Done (next_layer_back_propagation, bp))%outcome
    | ProbabilisticForward _ => Undefined
    end
  | ProbabilisticBack next_layer next_bp =>
    match next_layer_forward_propagation with
    | ProbabilisticForward next_fp =>
      (r <- calculate_hidden_delta_probabilistic next_fp next_layer next_bp
              layer_back_propagation ;;
       Done (ProbabilisticBack next_layer (fst r), snd r))%outcome
    | PerceptronForward _ => Undefined
    end
  | OtherBack => Done (next_layer_back_propagation, layer_back_propagation)
  end.

(** [calculate_error_gradient(inputs, forward_propagation, back_propagation)]. *)
Definition calculate_error_gradient (inputs : Tensor2)
    (forward_propagation : PerceptronLayerForwardPropagation)
    (back_propagation : PerceptronLayerBackPropagation)
  : outcome PerceptronLayerBackPropagation :=
  (product <- cwise_mul (delta back_propagation)
                (activations_derivatives forward_propagation) ;;
   bd <- assign1 (biases_derivatives back_propagation) (sum_axis0 product) ;;
   gradient <- contract inputs product AT_B ;;
   wd <- assign (synaptic_weights_derivatives back_propagation) gradient ;;
   Done (mkPerceptronLayerBackPropagation (batch_samples_number back_propagation)
           (delta back_propagation) bd wd))%outcome.

(** [insert_gradient(back_propagation, index, gradient)]. *)
Definition insert_gradient (l : PerceptronLayer)
    (back_propagation : PerceptronLayerBackPropagation) (index : nat)
    (gradient : list type) : outcome (list type) :=
  let biases_number := get_biases_number l in
  let synaptic_weights_number := get_synaptic_weights_number l in
  (g <- memcpy gradient index (biases_derivatives back_propagation) 0 biases_number ;;
   memcpy g (index + biases_number)
     (data2 (synaptic_weights_derivatives back_propagation)) 0
     synaptic_weights_number)%outcome.

(* ====================================================================== *)
(** * quasi_newton_method: the guarded inverse-Hessian update *)
(* ====================================================================== *)

Inductive InverseHessianApproximationMethod : Type := DFP | BFGS.

(** The fields of [QuasiNewtonMehtodData] that the update reads and
    writes. *)
Record QuasiNewtonMehtodData : Type := mkQuasiNewtonMehtodData {
  parameters_difference : list type;
  gradient_difference : list type;
  old_inverse_hessian : Tensor2;
  inverse_hessian : Tensor2
}.

Definition dot (a b : list type) : type :=
  sum_n (length a) (fun i => fmul (cell a i) (cell b i)).

(** [H . v]. *)
Definition matrix_vector (h : Tensor2) (v : list type) : list type :=
  map (fun i => sum_n (dim1 h) (fun k => fmul (at2 h i k) (cell v k))) (seq 0 (dim0 h)).

Definition identity (n : nat) : Tensor2 :=
  tabulate2 n n (fun i j => if i =? j then fone else fzero).

Definition entrywise (f : type -> type -> type) (a b : Tensor2) : Tensor2 :=
  mkTensor2 (dim0 a) (dim1 a)
    (map (fun i => f (lin2 a i) (lin2 b i)) (seq 0 (size2 a))).

Definition scale (c : type) (a : Tensor2) : Tensor2 :=
  mkTensor2 (dim0 a) (dim1 a) (map (fun x => fmul c x) (data2 a)).

(** Modelled from the spec: [quasi_newton_method.cpp], the file that
    defines [calculate_DFP_inverse_hessian], is not among the sources.
    DFP update: [H' = H + (dp (x) dp)/(dp . dg) - (H dg) (x) (H dg)/(dg . H dg)]. *)
Definition calculate_DFP_inverse_hessian (d : QuasiNewtonMehtodData) : Tensor2 :=
  let dp := parameters_difference d in
  let dg := gradient_difference d in
  let h := old_inverse_hessian d in
  let hdg := matrix_vector h dg in
  entrywise fsub
    (entrywise fadd h (cwise_div_scalar (kronecker_product dp dp) (dot dp dg)))
    (cwise_div_scalar (kronecker_product hdg hdg) (dot dg hdg)).

(** Modelled from the spec: [calculate_BFGS_inverse_hessian], absent with
    the same file.  BFGS update:
    [H' = H + (1 + (dg . H dg)/(dp . dg)) (dp (x) dp)/(dp . dg)
            - (H dg (x) dp + dp (x) H dg)/(dp . dg)]. *)
Definition calculate_BFGS_inverse_hessian (d : QuasiNewtonMehtodData) : Tensor2 :=
  let dp := parameters_difference d in
  let dg := gradient_difference d in
  let h := old_inverse_hessian d in
  let hdg := matrix_vector h dg in
  let pg := dot dp dg in
  entrywise fsub
    (entrywise fadd h
       (scale (fadd fone (fdiv (dot dg hdg) pg))
          (cwise_div_scalar (kronecker_product dp dp) pg)))
    (cwise_div_scalar
       (entrywise fadd (kronecker_product hdg dp) (kronecker_product dp hdg)) pg).

(** Modelled from the spec: the guard of the update.  A scalar is
    numerically zero as the entries of a vector are for [is_zero]: its
    absolute value does not exceed [NUMERIC_LIMITS_MIN]. *)
Definition degenerate_update (d : QuasiNewtonMehtodData) : bool :=
  negb (fgtb (fabs (dot (parameters_difference d) (gradient_difference d)))
          NUMERIC_LIMITS_MIN)
  || is_zero (parameters_difference d)
  || is_zero (gradient_difference d).

(** Modelled from the spec: [calculate_inverse_hessian_approximation],
    absent with the same file.  On a degenerate pair of differences the
    approximation is reset to the identity matrix; otherwise the update of
    the configured method is applied. *)
Definition calculate_inverse_hessian_approximation
    (method : InverseHessianApproximationMethod) (d : QuasiNewtonMehtodData)
  : QuasiNewtonMehtodData :=
  let h :=
    if degenerate_update d
    then identity (dim0 (old_inverse_hessian d))
    else match method with
         | DFP => calculate_DFP_inverse_hessian d
         | BFGS => calculate_BFGS_inverse_hessian d
         end in
  mkQuasiNewtonMehtodData (parameters_difference d) (gradient_difference d)
    (old_inverse_hessian d) h.


(* ====================================================================== *)
(** * The parameter layout of the design document *)
(* ====================================================================== *)

(** Position, in the flattened parameter vector of a layer, of the bias of
    neuron [j]: the biases come first. *)
Definition bias_position (j : nat) : nat := j.

(** Position of the weight from input [i] to neuron [n]: after the
    [neurons_number] biases, column by column, the input index running
    fastest within the column of a neuron. *)
Definition weight_position (inputs_number neurons_number i n : nat) : nat :=
  neurons_number + (i + inputs_number * n).

(** The shape invariant of a layer: both tensors own their storage, and the
    weight matrix has one column per bias. *)
Definition layer_shaped (l : PerceptronLayer) : Prop :=
  wf2 (biases l) /\ wf2 (synaptic_weights l)
  /\ dim1 (synaptic_weights l) = size2 (biases l).

(* ====================================================================== *)
(** * The formulas of the design document *)
(* ====================================================================== *)

(** The design document states the results of the layer with sums, dot
    products and coefficient-wise products.  They are written here from
    its words, apart from the code: [sum_n] above is the reduction the
    contractions of the code run. *)

(** [f 0 + f 1 + ... + f (n-1)], the terms added one after the other. *)
Fixpoint series (n : nat) (f : nat -> type) : type :=
  match n with
  | 0 => fzero
  | S m => fadd (series m f) (f m)
  end.

(** The dot product of two vectors of [n] entries. *)
Definition dot_product (n : nat) (u v : nat -> type) : type :=
  series n (fun k => fmul (u k) (v k)).

(** Row [s] and column [j] of a matrix, as vectors. *)
Definition row (t : Tensor2) (s : nat) : nat -> type := fun k => at2 t s k.
Definition column (t : Tensor2) (j : nat) : nat -> type := fun k => at2 t k j.

(** Entry [(s, j)] of the coefficient-wise product [a (.) b]. *)
Definition hadamard (a b : Tensor2) (s j : nat) : type :=
  fmul (at2 a s j) (at2 b s j).

(* ====================================================================== *)
(** * Sample data *)
(* ====================================================================== *)

(** The scalar of an integer literal. *)
Definition num (z : Z) : type := literal (inject_Z z).

(** A layer with three inputs and two neurons. *)
Definition sample_layer : PerceptronLayer :=
  mkPerceptronLayer
    (mkTensor2 1 2 [num 7; num 8])
    (mkTensor2 3 2 [num 1; num 2; num 3; num 4; num 5; num 6])
    Linear "perceptron_layer" true Perceptron.

(** A batch of two samples for it, and a combinations buffer. *)
Definition sample_inputs : Tensor2 :=
  mkTensor2 2 3 [num 1; num 0; num 0; num 1; num 2; num 2].

Definition sample_combinations : Tensor2 :=
  mkTensor2 2 2 [num 0; num 0; num 0; num 0].

(** A batch whose column count is not the layer's input count. *)
Definition narrow_inputs : Tensor2 := mkTensor2 2 2 [num 1; num 0; num 0; num 1].

(** Activations that copy the combinations. *)
Definition copy_activation (c _ : Tensor2) : outcome Tensor2 := Done c.
Definition copy_derivatives (c _ d : Tensor2) : outcome (Tensor2 * Tensor2) :=
  Done (c, d).

Definition sample_layer_base : LayerActivations :=
  mkLayerActivations
    copy_activation copy_activation copy_activation copy_activation copy_activation
    copy_activation copy_activation copy_activation copy_activation copy_activation
    copy_activation
    copy_derivatives copy_derivatives copy_derivatives copy_derivatives
    copy_derivatives copy_derivatives copy_derivatives copy_derivatives
    copy_derivatives copy_derivatives copy_derivatives.

Definition sample_forward : PerceptronLayerForwardPropagation :=
  mkPerceptronLayerForwardPropagation sample_combinations sample_combinations
    (mkTensor2 2 2 [num 1; num 1; num 1; num 1]).

Definition sample_back : PerceptronLayerBackPropagation :=
  mkPerceptronLayerBackPropagation 2
    (mkTensor2 2 2 [num 1; num 2; num 3; num 4])
    [num 0; num 0]
    (mkTensor2 3 2 [num 0; num 0; num 0; num 0; num 0; num 0]).

(** The back-propagation data of the layer before [sample_layer]: its delta
    has one column per input of [sample_layer]. *)
Definition previous_back : PerceptronLayerBackPropagation :=
  mkPerceptronLayerBackPropagation 2
    (mkTensor2 2 3 [num 0; num 0; num 0; num 0; num 0; num 0])
    [] (mkTensor2 0 3 []).

(** A softmax layer with two neurons and three inputs, and its data for a
    batch of two samples. *)
Definition softmax_layer : ProbabilisticLayer :=
  mkProbabilisticLayer 2 2 Softmax
    (mkTensor2 3 2 [num 1; num 2; num 3; num 4; num 5; num 6]).

Definition softmax_forward : ProbabilisticLayerForwardPropagation :=
  mkProbabilisticLayerForwardPropagation
    (mkTensor3 2 2 2 [num 1; num 0; num 0; num 1; num 2; num 0; num 0; num 2]).

Definition softmax_back : ProbabilisticLayerBackPropagation :=
  mkProbabilisticLayerBackPropagation
    (mkTensor2 2 2 [num 1; num 2; num 3; num 4])
    []
    (mkTensor2 2 2 [num 0; num 0; num 0; num 0]).

Definition degenerate_data : QuasiNewtonMehtodData :=
  mkQuasiNewtonMehtodData
    [fzero; fzero] [num 1; num 2]
    (mkTensor2 2 2 [num 3; num 1; num 1; num 3])
    (mkTensor2 2 2 [num 3; num 1; num 1; num 3]).

(* ====================================================================== *)
(** * Reads and writes of single cells *)
(* ====================================================================== *)

(** [buf[i]] read and [buf[i] = v]: defined inside the storage only. *)
Definition load (buf : list type) (i : nat) : outcome type :=
  (require (i <? length buf) ;;; Done (cell buf i))%outcome.

Definition store (buf : list type) (i : nat) (v : type) : outcome (list type) :=
  (require (i <? length buf) ;;; Done (fill_n buf i 1 v))%outcome.

(** [t(i, j)] read and [t(i, j) = v]: Eigen computes the column-major
    position and does not compare [i] and [j] with the shape. *)
Definition load2 (t : Tensor2) (i j : nat) : outcome type :=
  load (data2 t) (i + dim0 t * j).

Definition store2 (t : Tensor2) (i j : nat) (v : type) : outcome Tensor2 :=
  (d <- store (data2 t) (i + dim0 t * j) v ;;
   Done (mkTensor2 (dim0 t) (dim1 t) d))%outcome.

(** A loop over the elements of a list whose body may fail. *)
Definition for_each {X S : Type} (xs : list X) (body : X -> S -> outcome S) (s : S)
  : outcome S :=
  fold_left (fun acc x => bind acc (body x)) xs (Done s).

(* ====================================================================== *)
(** * tensor_utilities.cpp: the other utilities *)
(* ====================================================================== *)

(** [multiply_rows(matrix, vector)]: [matrix(i,j) *= vector(j)], row after
    row. *)
Definition multiply_rows (matrix : Tensor2) (vector : list type) : outcome Tensor2 :=
  let columns_number := dim1 matrix in
  let rows_number := dim0 matrix in
  for_loop rows_number
    (fun i m =>
       for_loop columns_number
         (fun j m =>
            (x <- load2 m i j ;;
             v <- load vector j ;;
             store2 m i j (fmul x v))%outcome)
         m)
    matrix.

(** [divide_columns(matrix, vector)]:
    [matrix(i,j) /= vector(i) == type(0) ? type(1) : vector(i)], column
    after column. *)
Definition divide_columns (matrix : Tensor2) (vector : list type) : outcome Tensor2 :=
  let columns_number := dim1 matrix in
  let rows_number := dim0 matrix in
  for_loop columns_number
    (fun j m =>
       for_loop rows_number
         (fun i m =>
            (x <- load2 m i j ;;
             v <- load vector i ;;
             store2 m i j (fdiv x (if feqb v fzero then fone else v)))%outcome)
         m)
    matrix.

(** The loop of [are_equal]: it leaves with [false] at the first position
    where the two operands differ by more than the tolerance; the second
    operand is read at the positions of the first. *)
Fixpoint are_equal_loop (positions : list nat) (a b : list type) (tolerance : type)
  : outcome bool :=
  match positions with
  | [] => Done true
  | i :: rest =>
    (x <- load a i ;;
     y <- load b i ;;
     if fgtb (fabs (fsub x y)) tolerance
     then Done false
     else are_equal_loop rest a b tolerance)%outcome
  end.

(** [are_equal(vector_1, vector_2, tolerance)]. *)
Definition are_equal (vector_1 vector_2 : list type) (tolerance : type) : outcome bool :=
  let size := length vector_1 in
  are_equal_loop (seq 0 size) vector_1 vector_2 tolerance.

(** [are_equal(matrix_1, matrix_2, tolerance)]. *)
Definition are_equal_matrices (matrix_1 matrix_2 : Tensor2) (tolerance : type)
  : outcome bool :=
  let size := size2 matrix_1 in
  are_equal_loop (seq 0 size) (data2 matrix_1) (data2 matrix_2) tolerance.

(** [scrub_missing_values(matrix, value)]: [std::replace_if] over the
    storage, with [isnan] as the test. *)
Definition scrub_missing_values (matrix : Tensor2) (value : type) : Tensor2 :=
  mkTensor2 (dim0 matrix) (dim1 matrix)
    (map (fun x => if fisnan x then value else x) (data2 matrix)).

(** [count_NAN(x)]. *)
Definition count_NAN (x : list type) : nat :=
  fold_left (fun NAN_number i => if fisnan (cell x i) then S NAN_number else NAN_number)
    (seq 0 (length x)) 0.

(** [sum_diagonal(matrix, value)]: [matrix(i,i) += value] for every row
    index.  The iterations of the parallel loop touch distinct cells; they
    are run in index order. *)
Definition sum_diagonal (matrix : Tensor2) (value : type) : outcome Tensor2 :=
  let rows_number := dim0 matrix in
  for_loop rows_number
    (fun i m => (x <- load2 m i i ;; store2 m i i (fadd x value))%outcome)
    matrix.

(** [fill_submatrix(matrix, rows_indices, columns_indices, submatrix_pointer)]:
    the submatrix is written through a raw pointer, column after column.
    The iterations of the parallel loop over the columns write distinct
    cells; they are run in index order. *)
Definition fill_submatrix (matrix : Tensor2) (rows_indices columns_indices : list nat)
    (submatrix : list type) : outcome (list type) :=
  let rows_number := length rows_indices in
  let columns_number := length columns_indices in
  for_loop columns_number
    (fun j sub =>
       let matrix_column := dim0 matrix * nth j columns_indices 0 in
       let submatrix_column := rows_number * j in
       for_loop rows_number
         (fun i sub =>
            (x <- load (data2 matrix) (matrix_column + nth i rows_indices 0) ;;
             store sub (submatrix_column + i) x)%outcome)
         sub)
    submatrix.

(** [Tensor<type, 2> data(rows_number, columns_number)]. *)
Definition fresh2 (rows_number columns_number : nat) : Tensor2 :=
  mkTensor2 rows_number columns_number
    (repeat indeterminate (rows_number * columns_number)).

(** [assemble_matrix_vector(x, y)]: the row count is taken from
    [x.size()]. *)
Definition assemble_matrix_vector (x : Tensor2) (y : list type) : outcome Tensor2 :=
  let rows_number := size2 x in
  let columns_number := dim1 x + 1 in
  for_loop rows_number
    (fun i data =>
       (data <- for_loop (dim1 x)
                  (fun j data => (a <- load2 x i j ;; store2 data i j a)%outcome)
                  data ;;
        b <- load y i ;;
        store2 data i (columns_number - 1) b)%outcome)
    (fresh2 rows_number columns_number).

(** [assemble_matrix_matrix(x, y)]. *)
Definition assemble_matrix_matrix (x y : Tensor2) : outcome Tensor2 :=
  let rows_number := dim0 x in
  let columns_number := dim1 x + dim1 y in
  for_loop rows_number
    (fun i data =>
       (data <- for_loop (dim1 x)
                  (fun j data => (a <- load2 x i j ;; store2 data i j a)%outcome)
                  data ;;
        for_loop (dim1 y)
          (fun j data => (b <- load2 y i j ;; store2 data i (dim1 x + j) b)%outcome)
          data)%outcome)
    (fresh2 rows_number columns_number).

(* ====================================================================== *)
(** * perceptron_layer.cpp: the other members *)
(* ====================================================================== *)

(** [parameters.slice({start}, {n})]. *)
Definition slice (v : list type) (start n : nat) : outcome (list type) :=
  (require (start + n <=? length v) ;;; Done (firstn n (skipn start v)))%outcome.

(** [get_synaptic_weights(parameters)]: the last [synaptic_weights_number]
    entries of the vector, reshaped.  The offset
    [parameters_size - synaptic_weights_number] must not be negative. *)
Definition get_synaptic_weights (l : PerceptronLayer) (parameters : list type)
  : outcome Tensor2 :=
  let inputs_number := get_inputs_number l in
  let neurons_number := get_neurons_number l in
  let synaptic_weights_number := get_synaptic_weights_number l in
  let parameters_size := length parameters in
  (require (synaptic_weights_number <=? parameters_size) ;;;
   let start_synaptic_weights_number := parameters_size - synaptic_weights_number in
   new_synaptic_weights <-
     slice parameters start_synaptic_weights_number synaptic_weights_number ;;
   reshape2 new_synaptic_weights inputs_number neurons_number)%outcome.

(** [get_biases(parameters)]: the first [biases.size()] entries, reshaped to
    one row of [biases.dimension(1)] columns. *)
Definition get_biases (l : PerceptronLayer) (parameters : list type) : outcome Tensor2 :=
  let biases_number := size2 (biases l) in
  (new_biases <- slice parameters 0 biases_number ;;
   reshape2 new_biases 1 (dim1 (biases l)))%outcome.

(** [write_activation_function()]. *)
Definition write_activation_function (l : PerceptronLayer) : string :=
  match activation_function l with
  | Logistic => "Logistic"
  | HyperbolicTangent => "HyperbolicTangent"
  | Threshold => "Threshold"
  | SymmetricThreshold => "SymmetricThreshold"
  | Linear => "Linear"
  | RectifiedLinear => "RectifiedLinear"
  | ScaledExponentialLinear => "ScaledExponentialLinear"
  | SoftPlus => "SoftPlus"
  | SoftSign => "SoftSign"
  | HardSigmoid => "HardSigmoid"
  | ExponentialLinear => "ExponentialLinear"
  end.

(** [set_activation_function(const ActivationFunction&)]. *)
Definition set_activation_function (new_activation_function : ActivationFunction)
    (l : PerceptronLayer) : PerceptronLayer :=
  mkPerceptronLayer (biases l) (synaptic_weights l) new_activation_function
    (layer_name l) (display l) (layer_type l).

(** [set_activation_function(const string&)]: the name selects the
    function; an unknown name throws. *)
Definition set_activation_function_name (new_activation_function_name : string)
    (l : PerceptronLayer) : outcome PerceptronLayer :=
  let name := new_activation_function_name in
  if (name =? "Logistic")%string then Done (set_activation_function Logistic l)
  else if (name =? "HyperbolicTangent")%string
  then Done (set_activation_function HyperbolicTangent l)
  else if (name =? "Threshold")%string then Done (set_activation_function Threshold l)
  else if (name =? "SymmetricThreshold")%string
  then Done (set_activation_function SymmetricThreshold l)
  else if (name =? "Linear")%string then Done (set_activation_function Linear l)
  else if (name =? "RectifiedLinear")%string
  then Done (set_activation_function RectifiedLinear l)
  else if (name =? "ScaledExponentialLinear")%string
  then Done (set_activation_function ScaledExponentialLinear l)
  else if (name =? "SoftPlus")%string then Done (set_activation_function SoftPlus l)
  else if (name =? "SoftSign")%string then Done (set_activation_function SoftSign l)
  else if (name =? "HardSigmoid")%string
  then Done (set_activation_function HardSigmoid l)
  else if (name =? "ExponentialLinear")%string
  then Done (set_activation_function ExponentialLinear l)
  else Throw ("OpenNN Exception: PerceptronLayer class." ++ newline
              ++ "void set_activation_function(const string&) method." ++ newline
              ++ "Unknown activation function: " ++ name ++ "." ++ newline)%string.

Definition set_biases_constant (l : PerceptronLayer) (value : type) : PerceptronLayer :=
  with_parameters l (setConstant (biases l) value) (synaptic_weights l).

Definition set_synaptic_weights_constant (l : PerceptronLayer) (value : type)
  : PerceptronLayer :=
  with_parameters l (biases l) (setConstant (synaptic_weights l) value).

Definition set_parameters_constant (l : PerceptronLayer) (value : type)
  : PerceptronLayer :=
  with_parameters l (setConstant (biases l) value)
    (setConstant (synaptic_weights l) value).

(** The fields of [PerceptronLayerBackPropagationLM] that the layer reads
    and writes. *)
Record PerceptronLayerBackPropagationLM : Type := mkPerceptronLayerBackPropagationLM {
  delta_lm : Tensor2;
  squared_errors_Jacobian : Tensor2
}.

(** [calculate_squared_errors_Jacobian_lm]: for every sample the running
    [parameter_index] starts again at zero; the state of the loops is the
    Jacobian together with that index. *)
Definition calculate_squared_errors_Jacobian_lm (l : PerceptronLayer)
    (inputs : Tensor2) (forward_propagation : PerceptronLayerForwardPropagation)
    (back_propagation : PerceptronLayerBackPropagationLM)
  : outcome PerceptronLayerBackPropagationLM :=
  let samples_number := dim0 inputs in
  let inputs_number := get_inputs_number l in
  let neurons_number := get_neurons_number l in
  let d := delta_lm back_propagation in
  let ad := activations_derivatives forward_propagation in
  (r <- for_loop samples_number
          (fun sample st =>
             for_loop neurons_number
               (fun neuron st =>
                  (st <- for_loop inputs_number
                           (fun input st =>
                              (a <- load2 d sample neuron ;;
                               b <- load2 ad sample neuron ;;
                               x <- load2 inputs sample input ;;
                               J <- store2 (fst st) sample (neurons_number + snd st)
                                      (fmul (fmul a b) x) ;;
                               Done (J, S (snd st)))%outcome)
                           st ;;
                   a <- load2 d sample neuron ;;
                   b <- load2 ad sample neuron ;;
                   J <- store2 (fst st) sample neuron (fmul a b) ;;
                   Done (J, snd st))%outcome)
               (fst st, 0))
          (squared_errors_Jacobian back_propagation, 0) ;;
   Done (mkPerceptronLayerBackPropagationLM d (fst r)))%outcome.

(** [insert_squared_errors_Jacobian_lm(back_propagation, index,
    squared_errors_Jacobian)]. *)
Definition insert_squared_errors_Jacobian_lm (l : PerceptronLayer)
    (back_propagation : PerceptronLayerBackPropagationLM) (index : nat)
    (squared_errors_Jacobian_arg : Tensor2) : outcome Tensor2 :=
  let batch_samples_number := dim0 (squared_errors_Jacobian back_propagation) in
  let layer_parameters_number := get_parameters_number l in
  (d <- memcpy (data2 squared_errors_Jacobian_arg) index
          (data2 (squared_errors_Jacobian back_propagation)) 0
          (layer_parameters_number * batch_samples_number) ;;
   Done (mkTensor2 (dim0 squared_errors_Jacobian_arg) (dim1 squared_errors_Jacobian_arg)
           d))%outcome.

(** [calculate_hidden_delta_perceptron_lm]: the derivatives of the next
    layer are reshaped to one column before the product with its delta. *)
Definition calculate_hidden_delta_perceptron_lm
    (next_forward_propagation : PerceptronLayerForwardPropagation)
    (next_layer : PerceptronLayer)
    (next_back_propagation : PerceptronLayerBackPropagationLM)
    (back_propagation : PerceptronLayerBackPropagationLM)
  : outcome PerceptronLayerBackPropagationLM :=
  let next_synaptic_weights := synaptic_weights next_layer in
  let derivatives := activations_derivatives next_forward_propagation in
  (reshaped <- reshape2 (data2 derivatives) (dim0 derivatives) 1 ;;
   product <- cwise_mul (delta_lm next_back_propagation) reshaped ;;
   value <- contract product next_synaptic_weights A_BT ;;
   d <- assign (delta_lm back_propagation) value ;;
   Done (mkPerceptronLayerBackPropagationLM d
           (squared_errors_Jacobian back_propagation)))%outcome.

(* ====================================================================== *)
(** * Sample data for the other utilities and members *)
(* ====================================================================== *)

(** A matrix of one column. *)
Definition single_column : Tensor2 := mkTensor2 2 1 [num 5; num 6].

(** A probabilistic layer with one neuron and three inputs, and its data
    for a batch of two samples. *)
Definition binary_layer : ProbabilisticLayer :=
  mkProbabilisticLayer 1 1 OtherProbabilisticActivation
    (mkTensor2 3 1 [num 1; num 2; num 3]).

Definition binary_forward : ProbabilisticLayerForwardPropagation :=
  mkProbabilisticLayerForwardPropagation (mkTensor3 2 1 1 [num 1; num 2]).

Definition binary_back : ProbabilisticLayerBackPropagation :=
  mkProbabilisticLayerBackPropagation
    (mkTensor2 2 1 [num 1; num 2]) [] (mkTensor2 2 1 [num 0; num 0]).

(** The Levenberg-Marquardt data of [sample_layer] for a batch of two
    samples, and the Jacobian of a network of ten parameters. *)
Definition sample_back_lm : PerceptronLayerBackPropagationLM :=
  mkPerceptronLayerBackPropagationLM
    (mkTensor2 2 2 [num 1; num 2; num 3; num 4])
    (mkTensor2 2 8 (repeat (num 0) 16)).

Definition network_Jacobian : Tensor2 := mkTensor2 2 10 (repeat (num 0) 20).

(** A next layer with one neuron and three inputs, its data for a batch of
    two samples, and the Levenberg-Marquardt data of the layer before it. *)
Definition single_neuron_layer : PerceptronLayer :=
  mkPerceptronLayer
    (mkTensor2 1 1 [num 7]) (mkTensor2 3 1 [num 1; num 2; num 3])
    Linear "perceptron_layer" true Perceptron.

Definition single_neuron_forward : PerceptronLayerForwardPropagation :=
  mkPerceptronLayerForwardPropagation
    (mkTensor2 2 1 [num 0; num 0]) (mkTensor2 2 1 [num 0; num 0])
    (mkTensor2 2 1 [num 1; num 1]).

Definition single_neuron_back_lm : PerceptronLayerBackPropagationLM :=
  mkPerceptronLayerBackPropagationLM
    (mkTensor2 2 1 [num 1; num 2]) (mkTensor2 2 4 (repeat (num 0) 8)).

Definition previous_back_lm : PerceptronLayerBackPropagationLM :=
  mkPerceptronLayerBackPropagationLM
    (mkTensor2 2 3 (repeat (num 0) 6)) (mkTensor2 2 0 []).

(* ====================================================================== *)
(** * Facts about buffers and tensors *)
(* ====================================================================== *)

Lemma bind_Done {A B : Type} (a : A) (k : A -> outcome B) : bind (Done a) k = k a.
Proof. reflexivity. Qed.

Lemma require_true (b : bool) : b = true -> require b = Done tt.
Proof. intros ->. reflexivity. Qed.

Lemma nth_flat_map_rows {A : Type} (g : nat -> list A) (d0 : nat) (def : A) :
  (forall j, length (g j) = d0) ->
  forall d1 a i j, i < d0 -> j < d1 ->
    nth (i + d0 * j) (flat_map g (seq a d1)) def = nth i (g (a + j)) def.
Proof.
  intros Hlen d1. induction d1 as [|d1 IH]; intros a i j Hi Hj; [lia|].
  simpl. destruct j as [|j].
  - rewrite Nat.mul_0_r, !Nat.add_0_r. apply app_nth1. rewrite Hlen. exact Hi.
  - rewrite app_nth2 by (rewrite Hlen; nia).
    rewrite Hlen. replace (i + d0 * S j - d0) with (i + d0 * j) by nia.
    rewrite IH by lia. f_equal. f_equal. lia.
Qed.

Lemma length_flat_map_rows {A : Type} (g : nat -> list A) (d0 : nat) :
  (forall j, length (g j) = d0) ->
  forall d1 a, length (flat_map g (seq a d1)) = d0 * d1.
Proof.
  intros Hlen d1. induction d1 as [|d1 IH]; intros a; simpl; [lia|].
  rewrite length_app, Hlen, IH. nia.
Qed.

Lemma nth_map_seq {A : Type} (f : nat -> A) (n i : nat) (def : A) :
  i < n -> nth i (map f (seq 0 n)) def = f i.
Proof.
  intros Hi. rewrite (nth_indep _ def (f 0)) by (rewrite length_map, length_seq; exact Hi).
  rewrite (map_nth f (seq 0 n) 0 i), seq_nth by exact Hi. reflexivity.
Qed.

Lemma wf2_tabulate2 (d0 d1 : nat) (f : nat -> nat -> type) : wf2 (tabulate2 d0 d1 f).
Proof.
  unfold wf2, size2, tabulate2; simpl.
  apply length_flat_map_rows. intros j. rewrite length_map, length_seq. reflexivity.
Qed.

Lemma at2_tabulate2 (d0 d1 : nat) (f : nat -> nat -> type) (i j : nat) :
  i < d0 -> j < d1 -> at2 (tabulate2 d0 d1 f) i j = f i j.
Proof.
  intros Hi Hj. unfold at2, cell, tabulate2; simpl.
  rewrite (nth_flat_map_rows (fun j => map (fun i => f i j) (seq 0 d0)) d0)
    by (try (intros; rewrite length_map, length_seq; reflexivity); assumption).
  simpl. apply (nth_map_seq (fun i0 => f i0 j)). exact Hi.
Qed.

Lemma cell_setZero1 (v : list type) (i : nat) : cell (setZero1 v) i = fzero.
Proof.
  unfold cell, setZero1. revert i. induction v as [|x v IH]; intros [|i]; simpl; auto.
Qed.

Lemma at2_setZero (t : Tensor2) (i j : nat) : at2 (setZero t) i j = fzero.
Proof. unfold at2, setZero, setConstant; simpl. apply cell_setZero1. Qed.

Lemma sum_n_zero (n : nat) (f : nat -> type) :
  fadd fzero fzero = fzero -> (forall i, i < n -> f i = fzero) -> sum_n n f = fzero.
Proof.
  intros Hadd. unfold sum_n. induction n as [|n IH]; intros Hf; [reflexivity|].
  rewrite seq_S, fold_left_app; simpl.
  rewrite IH by (intros; apply Hf; lia). rewrite Hf by lia. exact Hadd.
Qed.

(** The reduction of the code's contractions adds the terms as the sum of
    the design document does. *)
Lemma sum_n_series (n : nat) (f : nat -> type) : sum_n n f = series n f.
Proof.
  unfold sum_n. induction n as [|n IH]; [reflexivity|].
  rewrite seq_S, fold_left_app. simpl. rewrite IH. reflexivity.
Qed.

Lemma cell_repeat (x : type) (n i : nat) : x = fzero -> cell (repeat x n) i = fzero.
Proof.
  intros ->. unfold cell. revert i. induction n as [|n IH]; intros [|i]; simpl; auto.
Qed.

(* ====================================================================== *)
(** * Properties of tensor_utilities.cpp *)
(* ====================================================================== *)

(** C10 (as amended).  [is_constant(v)] returns true exactly when, for every
    ordered pair of positions of [v], the difference of the two elements
    compares equal to zero, with no tolerance.  It returns true for the
    empty vector.  For a vector of length one it returns what [x - x == 0]
    returns for its element [x]. *)
Theorem is_constant_exact_differences :
  (forall v : list type,
      is_constant v = true <->
      (forall i j, i < length v -> j < length v ->
                   feqb (fsub (cell v i) (cell v j)) fzero = true))
  /\ is_constant [] = true
  /\ (forall x : type, is_constant [x] = feqb (fsub x x) fzero).
Proof.
  split; [|split].
  - intros v. unfold is_constant, fneqb. rewrite forallb_forall. split.
    + intros Hall i j Hi Hj.
      specialize (Hall i (proj2 (in_seq _ _ _) (conj (Nat.le_0_l i) Hi))).
      rewrite forallb_forall in Hall.
      specialize (Hall j (proj2 (in_seq _ _ _) (conj (Nat.le_0_l j) Hj))).
      rewrite negb_involutive in Hall. exact Hall.
    + intros Hall i Hi. apply in_seq in Hi. rewrite forallb_forall. intros j Hj.
      apply in_seq in Hj. rewrite negb_involutive. apply Hall; lia.
  - reflexivity.
  - intros x. unfold is_constant, fneqb; simpl.
    rewrite negb_involutive, !andb_true_r. reflexivity.
Qed.

(** C9.  When the L2 norm of the input is below [NUMERIC_LIMITS_MIN],
    [l2_norm_gradient] completes with the gradient set to zero at every
    position and [l2_norm_hessian] completes with the Hessian set to zero at
    every entry; neither throws.  A vector of zeros, of any length, is such
    an input, on scalars where [0 * 0], [0 + 0] and [sqrt 0] are [0] and
    [0 < NUMERIC_LIMITS_MIN]. *)
Theorem l2_norm_derivatives_guard
    (Hmul : fmul fzero fzero = fzero) (Hadd : fadd fzero fzero = fzero)
    (Hsqrt : fsqrt fzero = fzero) (Hmin : fltb fzero NUMERIC_LIMITS_MIN = true) :
  (forall (v gradient : list type) (hessian : Tensor2),
      fltb (l2_norm v) NUMERIC_LIMITS_MIN = true ->
      l2_norm_gradient v gradient = Done (setZero1 gradient)
      /\ l2_norm_hessian v hessian = Done (setZero hessian))
  /\ (forall (n : nat) (gradient : list type) (hessian : Tensor2),
         l2_norm_gradient (repeat fzero n) gradient = Done (setZero1 gradient)
         /\ l2_norm_hessian (repeat fzero n) hessian = Done (setZero hessian))
  /\ (forall (gradient : list type) (hessian : Tensor2) (i j : nat),
         length (setZero1 gradient) = length gradient
         /\ cell (setZero1 gradient) i = fzero
         /\ dim0 (setZero hessian) = dim0 hessian
         /\ dim1 (setZero hessian) = dim1 hessian
         /\ at2 (setZero hessian) i j = fzero).
Proof.
  assert (Hguard : forall (v gradient : list type) (hessian : Tensor2),
             fltb (l2_norm v) NUMERIC_LIMITS_MIN = true ->
             l2_norm_gradient v gradient = Done (setZero1 gradient)
             /\ l2_norm_hessian v hessian = Done (setZero hessian)).
  { intros v gradient hessian Hlt. unfold l2_norm_gradient, l2_norm_hessian.
    rewrite Hlt. split; reflexivity. }
  split; [exact Hguard|split].
  - intros n gradient hessian. apply Hguard.
    unfold l2_norm. rewrite sum_n_zero, Hsqrt; auto.
    intros i _. rewrite cell_repeat by reflexivity. exact Hmul.
  - intros gradient hessian i j. repeat split.
    + unfold setZero1. apply length_map.
    + apply cell_setZero1.
    + apply at2_setZero.
Qed.

(* ====================================================================== *)
(** * Properties of the quasi-Newton guard *)
(* ====================================================================== *)

Lemma is_zero_all_zero (v : list type) :
  fltb NUMERIC_LIMITS_MIN (fabs fzero) = false ->
  (forall i, i < length v -> cell v i = fzero) -> is_zero v = true.
Proof.
  intros Hz Hv. unfold is_zero, fgtb. apply forallb_forall. intros i Hi.
  apply in_seq in Hi. rewrite Hv by lia. rewrite Hz. reflexivity.
Qed.

Lemma identity_no_nan (n : nat) :
  fisnan fzero = false -> fisnan fone = false ->
  forallb (fun x => negb (fisnan x)) (data2 (identity n)) = true.
Proof.
  intros H0 H1. unfold identity, tabulate2; simpl.
  apply forallb_forall. intros x Hx.
  apply in_flat_map in Hx. destruct Hx as [j [_ Hx]].
  apply in_map_iff in Hx. destruct Hx as [i [<- _]].
  destruct (i =? j); [rewrite H1|rewrite H0]; reflexivity.
Qed.

(** C6.  For the DFP and for the BFGS update alike: when the inner product
    of the parameters difference and the gradient difference is numerically
    zero, or one of the two differences is a zero vector (every entry zero,
    or [is_zero]), the resulting inverse-Hessian approximation is the
    identity matrix of the order of the previous one, and none of its
    entries is NaN. *)
Theorem degenerate_update_resets_to_identity
    (Hnan0 : fisnan fzero = false) (Hnan1 : fisnan fone = false)
    (Hzero : fltb NUMERIC_LIMITS_MIN (fabs fzero) = false)
    (method : InverseHessianApproximationMethod) (d : QuasiNewtonMehtodData) :
  fgtb (fabs (dot (parameters_difference d) (gradient_difference d)))
    NUMERIC_LIMITS_MIN = false
  \/ is_zero (parameters_difference d) = true
  \/ is_zero (gradient_difference d) = true
  \/ (forall i, i < length (parameters_difference d) ->
                cell (parameters_difference d) i = fzero)
  \/ (forall i, i < length (gradient_difference d) ->
                cell (gradient_difference d) i = fzero) ->
  let n := dim0 (old_inverse_hessian d) in
  let h := inverse_hessian (calculate_inverse_hessian_approximation method d) in
  h = identity n
  /\ dim0 h = n /\ dim1 h = n
  /\ (forall i j, i < n -> j < n -> at2 h i j = if i =? j then fone else fzero)
  /\ forallb (fun x => negb (fisnan x)) (data2 h) = true.
Proof.
  intros Hcase n h.
  assert (Hdeg : degenerate_update d = true).
  { unfold degenerate_update.
    destruct Hcase as [Hd|[Hp|[Hg|[Hp|Hg]]]].
    - rewrite Hd. reflexivity.
    - rewrite Hp. apply orb_true_iff. left. apply orb_true_r.
    - rewrite Hg. apply orb_true_r.
    - rewrite (is_zero_all_zero _ Hzero Hp). apply orb_true_iff. left. apply orb_true_r.
    - rewrite (is_zero_all_zero _ Hzero Hg). apply orb_true_r. }
  assert (Hh : h = identity n).
  { subst h. unfold calculate_inverse_hessian_approximation; simpl.
    rewrite Hdeg. reflexivity. }
  rewrite Hh. split; [reflexivity|]. split; [reflexivity|]. split; [reflexivity|].
  split.
  - intros i j Hi Hj. unfold identity. apply at2_tabulate2; assumption.
  - apply identity_no_nan; assumption.
Qed.


(* ====================================================================== *)
(** * Properties of the parameter vector *)
(* ====================================================================== *)

Lemma firstn_exact {A : Type} (a b : list A) (n : nat) :
  length a = n -> firstn n (a ++ b) = a.
Proof.
  intros <-. rewrite firstn_app, Nat.sub_diag, firstn_all. simpl. apply app_nil_r.
Qed.

Lemma skipn_exact {A : Type} (a b : list A) (n : nat) :
  length a = n -> skipn n (a ++ b) = b.
Proof.
  intros <-. rewrite skipn_app, Nat.sub_diag, skipn_all. reflexivity.
Qed.

Lemma map_cell_seq (buf : list type) (n : nat) :
  length buf = n -> map (cell buf) (seq 0 n) = buf.
Proof.
  intros Hn. apply (nth_ext _ _ fzero fzero).
  - rewrite length_map, length_seq. symmetry. exact Hn.
  - intros i Hi. rewrite length_map, length_seq in Hi.
    rewrite nth_map_seq by exact Hi. reflexivity.
Qed.

(** A loop of single-cell [fill_n] over a window of a buffer rewrites that
    window and nothing else. *)
Lemma fold_fill_n (f : nat -> type) (off n : nat) (buf : list type) :
  off + n <= length buf ->
  fold_left (fun p i => fill_n p (off + i) 1 (f i)) (seq 0 n) buf
  = firstn off buf ++ map f (seq 0 n) ++ skipn (off + n) buf.
Proof.
  induction n as [|n IH]; intros Hlen.
  - simpl. rewrite Nat.add_0_r. symmetry. apply firstn_skipn.
  - rewrite seq_S, fold_left_app, map_app. simpl fold_left. rewrite IH by lia.
    unfold fill_n. simpl map. simpl repeat.
    assert (Ha : length (firstn off buf) = off) by (rewrite length_firstn; lia).
    assert (Hb : length (map f (seq 0 n)) = n) by (rewrite length_map, length_seq; reflexivity).
    rewrite (app_assoc (firstn off buf)).
    rewrite firstn_exact by (rewrite length_app; lia).
    replace (off + n + 1) with (1 + (off + n)) by lia.
    rewrite <- skipn_skipn.
    rewrite skipn_exact by (rewrite length_app; lia).
    rewrite skipn_skipn. replace (1 + (off + n)) with (off + S n) by lia.
    rewrite <- !app_assoc. reflexivity.
Qed.

(** The vector of [get_parameters] is the storage of the biases followed by
    the storage of the synaptic weights. *)
Lemma get_parameters_flat (l : PerceptronLayer) :
  wf2 (biases l) -> wf2 (synaptic_weights l) ->
  get_parameters l = data2 (biases l) ++ data2 (synaptic_weights l).
Proof.
  intros Hb Hw. unfold get_parameters, wf2 in *.
  set (nb := size2 (biases l)) in *. set (nw := size2 (synaptic_weights l)) in *.
  change (fun p i => fill_n p i 1 (lin2 (biases l) i))
    with (fun p i => fill_n p (0 + i) 1 (lin2 (biases l) i)).
  rewrite (fold_fill_n (lin2 (biases l)) 0) by (rewrite repeat_length; lia).
  rewrite (fold_fill_n (lin2 (synaptic_weights l)) nb)
    by (rewrite !length_app, length_map, length_seq, length_skipn, repeat_length;
        simpl; lia).
  simpl firstn. simpl app.
  rewrite firstn_exact by (rewrite length_map, length_seq; reflexivity).
  rewrite skipn_all2
    by (rewrite length_app, length_map, length_seq, length_skipn, repeat_length;
        simpl; lia).
  rewrite app_nil_r. unfold lin2.
  rewrite (map_cell_seq (data2 (biases l))) by exact Hb.
  rewrite (map_cell_seq (data2 (synaptic_weights l))) by exact Hw.
  reflexivity.
Qed.

Lemma memcpy_Done (dst : list type) (dpos : nat) (src : list type) (spos n : nat) :
  dpos + n <= length dst -> spos + n <= length src ->
  memcpy dst dpos src spos n
  = Done (firstn dpos dst ++ firstn n (skipn spos src) ++ skipn (dpos + n) dst).
Proof.
  intros Hd Hs. unfold memcpy.
  rewrite (proj2 (Nat.leb_le _ _) Hd), (proj2 (Nat.leb_le _ _) Hs). reflexivity.
Qed.

(** Overwriting a whole buffer. *)
Lemma memcpy_whole (dst src : list type) (spos : nat) :
  spos + length dst <= length src ->
  memcpy dst 0 src spos (length dst) = Done (firstn (length dst) (skipn spos src)).
Proof.
  intros Hs. rewrite memcpy_Done by (simpl; lia). simpl.
  rewrite skipn_all. rewrite app_nil_r. reflexivity.
Qed.

Lemma cell_app_l (a b : list type) (i : nat) :
  i < length a -> cell (a ++ b) i = cell a i.
Proof. intros Hi. unfold cell. apply app_nth1. exact Hi. Qed.

Lemma cell_app_r (a b : list type) (i : nat) :
  cell (a ++ b) (length a + i) = cell b i.
Proof.
  unfold cell. rewrite app_nth2 by lia. f_equal. lia.
Qed.

Lemma cell_app_at (a b : list type) (n i : nat) :
  length a = n -> cell (a ++ b) (n + i) = cell b i.
Proof. intros <-. apply cell_app_r. Qed.

Lemma cell_firstn_skipn (src : list type) (spos n i : nat) :
  i < n -> cell (firstn n (skipn spos src)) i = cell src (spos + i).
Proof.
  intros Hi. unfold cell. rewrite nth_firstn.
  rewrite (proj2 (Nat.ltb_lt _ _) Hi). rewrite nth_skipn. reflexivity.
Qed.

(** C1.  [get_parameters()] followed by [set_parameters()] on the returned
    vector, at index 0, completes and leaves the layer as it was: the
    biases and the synaptic weights have the shapes and, cell by cell, the
    values they had before the two calls. *)
Theorem get_then_set_parameters_round_trip (l : PerceptronLayer)
    (Hb : wf2 (biases l)) (Hw : wf2 (synaptic_weights l)) :
  set_parameters (get_parameters l) 0 l = Done l
  /\ (forall l', set_parameters (get_parameters l) 0 l = Done l' ->
        biases l' = biases l /\ synaptic_weights l' = synaptic_weights l
        /\ (forall i, lin2 (biases l') i = lin2 (biases l) i)
        /\ (forall i, lin2 (synaptic_weights l') i = lin2 (synaptic_weights l) i)).
Proof.
  assert (Hset : set_parameters (get_parameters l) 0 l = Done l).
  { rewrite get_parameters_flat by assumption.
    unfold set_parameters, get_biases_number, get_synaptic_weights_number.
    unfold wf2 in Hb, Hw. rewrite <- Hb, <- Hw.
    rewrite memcpy_whole by (rewrite length_app; lia).
    rewrite bind_Done.
    rewrite memcpy_whole by (rewrite length_app; lia).
    rewrite bind_Done. simpl skipn.
    rewrite firstn_exact by reflexivity.
    rewrite Nat.add_0_r, skipn_exact by reflexivity.
    rewrite firstn_all.
    destruct l as [[b0 b1 bd] [w0 w1 wd] af name disp ty]. reflexivity. }
  split; [exact Hset|].
  intros l' Hl'. rewrite Hset in Hl'. injection Hl' as <-. auto.
Qed.


(* ====================================================================== *)
(** * Properties of the combinations *)
(* ====================================================================== *)

Lemma map_const_seq {A : Type} (v : A) (a n : nat) :
  map (fun _ => v) (seq a n) = repeat v n.
Proof.
  revert a. induction n as [|n IH]; intros a; simpl; [reflexivity|].
  rewrite IH. reflexivity.
Qed.

(** The loop that spreads the biases over the columns of the combinations
    writes, column after column, [batch] copies of the bias of the column. *)
Lemma fold_fill_columns (b : nat -> type) (batch n : nat) (buf : list type) :
  n * batch <= length buf ->
  fold_left (fun d i => fill_n d (i * batch) batch (b i)) (seq 0 n) buf
  = flat_map (fun j => map (fun _ => b j) (seq 0 batch)) (seq 0 n)
    ++ skipn (n * batch) buf.
Proof.
  induction n as [|n IH]; intros Hlen.
  - reflexivity.
  - rewrite seq_S, fold_left_app, flat_map_app. simpl fold_left.
    rewrite IH by lia. simpl flat_map. rewrite app_nil_r.
    unfold fill_n.
    assert (Ha : length (flat_map (fun j => map (fun _ => b j) (seq 0 batch)) (seq 0 n))
                 = n * batch).
    { rewrite (length_flat_map_rows _ batch)
        by (intros; rewrite length_map, length_seq; reflexivity).
      lia. }
    rewrite firstn_exact by exact Ha.
    replace (n * batch + batch) with (batch + n * batch) by lia.
    rewrite <- skipn_skipn, skipn_exact by exact Ha.
    rewrite skipn_skipn. replace (batch + n * batch) with (S n * batch) by lia.
    rewrite map_const_seq, <- app_assoc. reflexivity.
Qed.

Lemma contract_A_B (a b : Tensor2) :
  dim1 a = dim0 b ->
  contract a b A_B
  = Done (tabulate2 (dim0 a) (dim1 b)
            (fun i j => sum_n (dim1 a) (fun k => fmul (at2 a i k) (at2 b k j)))).
Proof.
  intros Hd. unfold contract, A_B; simpl. rewrite Hd, Nat.eqb_refl. reflexivity.
Qed.

Lemma contract_A_BT (a b : Tensor2) :
  dim1 a = dim1 b ->
  contract a b A_BT
  = Done (tabulate2 (dim0 a) (dim0 b)
            (fun i j => sum_n (dim1 a) (fun k => fmul (at2 a i k) (at2 b j k)))).
Proof.
  intros Hd. unfold contract, A_BT; simpl. rewrite Hd, Nat.eqb_refl. reflexivity.
Qed.

Lemma contract_AT_B (a b : Tensor2) :
  dim0 a = dim0 b ->
  contract a b AT_B
  = Done (tabulate2 (dim1 a) (dim1 b)
            (fun i j => sum_n (dim0 a) (fun k => fmul (at2 a k i) (at2 b k j)))).
Proof.
  intros Hd. unfold contract, AT_B; simpl. rewrite Hd, Nat.eqb_refl. reflexivity.
Qed.

Lemma same_shape_true (a b : Tensor2) :
  dim0 a = dim0 b -> dim1 a = dim1 b -> same_shape a b = true.
Proof. intros H0 H1. unfold same_shape. rewrite H0, H1, !Nat.eqb_refl. reflexivity. Qed.

Lemma check_columns_number_Done (m : Tensor2) (n : nat) (log : string) :
  dim1 m = n -> check_columns_number m n log = Done tt.
Proof. intros <-. unfold check_columns_number. rewrite Nat.eqb_refl. reflexivity. Qed.

Lemma check_dimensions_Done (m : Tensor2) (r c : nat) (log : string) :
  dim0 m = r -> dim1 m = c -> check_dimensions m r c log = Done tt.
Proof.
  intros <- <-. unfold check_dimensions. rewrite !Nat.eqb_refl. reflexivity.
Qed.

Lemma check_columns_number_throws (m : Tensor2) (n : nat) (log : string) :
  dim1 m <> n -> throws (check_columns_number m n log).
Proof.
  intros Hne. unfold check_columns_number.
  rewrite (proj2 (Nat.eqb_neq _ _) Hne). simpl. eexists. reflexivity.
Qed.

Lemma linear_index_bound (i j d0 d1 : nat) : i < d0 -> j < d1 -> i + d0 * j < d0 * d1.
Proof. intros Hi Hj. nia. Qed.

Lemma add_assign_entries (a b : Tensor2) :
  dim0 a = dim0 b -> dim1 a = dim1 b ->
  exists r,
    add_assign a b = Done r
    /\ dim0 r = dim0 a /\ dim1 r = dim1 a /\ wf2 r
    /\ forall i j, i < dim0 a -> j < dim1 a ->
         at2 r i j = fadd (at2 a i j) (at2 b i j).
Proof.
  intros H0 H1. unfold add_assign.
  rewrite require_true by (apply same_shape_true; assumption).
  rewrite bind_Done. eexists. split; [reflexivity|].
  split; [reflexivity|]. split; [reflexivity|]. split.
  - unfold wf2; simpl. rewrite length_map, length_seq. reflexivity.
  - intros i j Hi Hj. unfold at2 at 1. simpl data2. simpl dim0. unfold cell at 1.
    rewrite nth_map_seq by (apply linear_index_bound; assumption).
    unfold lin2, at2. rewrite <- H0. reflexivity.
Qed.

(** The value of the combinations, for any biases and weights handed to
    [calculate_combinations] whose shapes agree with the layer's sizes: the
    biases spread over the columns, plus the product of the inputs and the
    weights.  It does not depend on what the buffer held. *)
Lemma calculate_combinations_value (l : PerceptronLayer)
    (inputs b w c : Tensor2) :
  dim1 inputs = get_inputs_number l ->
  get_neurons_number l <= length (data2 b) ->
  dim0 w = get_inputs_number l -> dim1 w = get_neurons_number l ->
  dim0 c = dim0 inputs -> dim1 c = get_neurons_number l -> wf2 c ->
  calculate_combinations l inputs b w c
  = add_assign
      (tabulate2 (dim0 inputs) (get_neurons_number l) (fun _ j => lin2 b j))
      (tabulate2 (dim0 inputs) (get_neurons_number l)
         (fun i j => sum_n (dim1 inputs) (fun k => fmul (at2 inputs i k) (at2 w k j)))).
Proof.
  intros Hin Hbiases Hw0 Hw1 Hc0 Hc1 Hwf.
  unfold calculate_combinations, debug_only, get_biases_number.
  unfold get_neurons_number in *.
  set (nb := size2 (biases l)) in *. set (batch := dim0 inputs) in *.
  assert (Hchecks :
            (if OPENNN_DEBUG
             then (check_columns_number inputs (get_inputs_number l) LOG ;;;
                   check_dimensions w (get_inputs_number l) nb LOG ;;;
                   check_dimensions c batch nb LOG)%outcome
             else Done tt) = Done tt).
  { destruct OPENNN_DEBUG; [|reflexivity].
    rewrite check_columns_number_Done by exact Hin. rewrite bind_Done.
    rewrite check_dimensions_Done by assumption. rewrite bind_Done.
    apply check_dimensions_Done; assumption. }
  rewrite Hchecks, bind_Done.
  assert (Hlen : length (data2 c) = batch * nb).
  { unfold wf2, size2 in Hwf. rewrite Hwf, Hc0, Hc1. reflexivity. }
  rewrite require_true by (apply Nat.leb_le; exact Hbiases). rewrite bind_Done.
  rewrite require_true by (apply Nat.leb_le; lia). rewrite bind_Done.
  rewrite contract_A_B by congruence. rewrite bind_Done.
  rewrite fold_fill_columns by lia.
  rewrite skipn_all2 by lia. rewrite app_nil_r.
  rewrite Hc0, Hc1, Hw1. reflexivity.
Qed.

Lemma calculate_combinations_entries (l : PerceptronLayer) (inputs b w : Tensor2) :
  dim1 inputs = get_inputs_number l ->
  get_neurons_number l <= length (data2 b) ->
  dim0 w = get_inputs_number l -> dim1 w = get_neurons_number l ->
  exists c',
    (forall c, dim0 c = dim0 inputs -> dim1 c = get_neurons_number l -> wf2 c ->
               calculate_combinations l inputs b w c = Done c')
    /\ dim0 c' = dim0 inputs /\ dim1 c' = get_neurons_number l /\ wf2 c'
    /\ forall s j, s < dim0 inputs -> j < get_neurons_number l ->
         at2 c' s j
         = fadd (lin2 b j)
             (sum_n (dim1 inputs) (fun k => fmul (at2 inputs s k) (at2 w k j))).
Proof.
  intros Hin Hbiases Hw0 Hw1.
  set (filled := tabulate2 (dim0 inputs) (get_neurons_number l) (fun _ j => lin2 b j)).
  set (product :=
         tabulate2 (dim0 inputs) (get_neurons_number l)
           (fun i j => sum_n (dim1 inputs) (fun k => fmul (at2 inputs i k) (at2 w k j)))).
  destruct (add_assign_entries filled product eq_refl eq_refl)
    as [r [Hr [Hr0 [Hr1 [Hrwf Hentries]]]]].
  exists r. split.
  - intros c Hc0 Hc1 Hwf.
    rewrite (calculate_combinations_value l inputs b w c) by assumption. exact Hr.
  - split; [exact Hr0|]. split; [exact Hr1|]. split; [exact Hrwf|].
    intros s j Hs Hj. rewrite Hentries by assumption.
    unfold filled, product. rewrite !at2_tabulate2 by assumption. reflexivity.
Qed.

(** The buffer [calculate_outputs] allocates. *)
Lemma fresh_outputs_shaped (d0 d1 : nat) :
  wf2 (mkTensor2 d0 d1 (repeat indeterminate (d0 * d1))).
Proof. unfold wf2, size2; simpl. apply repeat_length. Qed.

(** The checks of a debug build pass, or are not made. *)
Lemma combinations_checks_Done (l : PerceptronLayer) (inputs w c : Tensor2) :
  OPENNN_DEBUG = false
  \/ (dim1 inputs = get_inputs_number l
      /\ dim0 w = get_inputs_number l /\ dim1 w = get_neurons_number l
      /\ dim0 c = dim0 inputs /\ dim1 c = get_neurons_number l) ->
  debug_only
    (check_columns_number inputs (get_inputs_number l) LOG ;;;
     check_dimensions w (get_inputs_number l) (get_neurons_number l) LOG ;;;
     check_dimensions c (dim0 inputs) (get_neurons_number l) LOG)%outcome
  = Done tt.
Proof.
  unfold debug_only. intros [Hdebug|[Hin [Hw0 [Hw1 [Hc0 Hc1]]]]].
  - rewrite Hdebug. reflexivity.
  - destruct OPENNN_DEBUG; [|reflexivity].
    rewrite check_columns_number_Done by exact Hin. rewrite bind_Done.
    rewrite check_dimensions_Done by assumption. rewrite bind_Done.
    apply check_dimensions_Done; assumption.
Qed.

Lemma check_dimensions_throws (m : Tensor2) (r c : nat) (log : string) :
  dim0 m <> r \/ dim1 m <> c -> throws (check_dimensions m r c log).
Proof.
  intros Hne. unfold check_dimensions.
  destruct (dim0 m =? r) eqn:H0; simpl; [|eexists; reflexivity].
  destruct (dim1 m =? c) eqn:H1; simpl; [|eexists; reflexivity].
  apply Nat.eqb_eq in H0, H1. destruct Hne; contradiction.
Qed.

(** A debug build throws when one of its checks does not hold. *)
Lemma calculate_combinations_throws (l : PerceptronLayer) (inputs b w c : Tensor2) :
  OPENNN_DEBUG = true ->
  ~ (dim1 inputs = get_inputs_number l
     /\ dim0 w = get_inputs_number l /\ dim1 w = get_neurons_number l
     /\ dim0 c = dim0 inputs /\ dim1 c = get_neurons_number l) ->
  throws (calculate_combinations l inputs b w c).
Proof.
  intros Hdebug Hbad. unfold calculate_combinations, debug_only. rewrite Hdebug.
  destruct (Nat.eq_dec (dim1 inputs) (get_inputs_number l)) as [Hin|Hin].
  - rewrite check_columns_number_Done by exact Hin. rewrite bind_Done.
    destruct (Nat.eq_dec (dim0 w) (get_inputs_number l)) as [Hw0|Hw0];
      [destruct (Nat.eq_dec (dim1 w) (get_neurons_number l)) as [Hw1|Hw1]|].
    + rewrite check_dimensions_Done by assumption. rewrite bind_Done.
      destruct (check_dimensions_throws c (dim0 inputs) (get_neurons_number l) LOG)
        as [what Hthrow].
      * destruct (Nat.eq_dec (dim0 c) (dim0 inputs)) as [Hc0|Hc0]; [|left; exact Hc0].
        destruct (Nat.eq_dec (dim1 c) (get_neurons_number l)) as [Hc1|Hc1];
          [|right; exact Hc1].
        exfalso. apply Hbad. repeat split; assumption.
      * rewrite Hthrow. eexists. reflexivity.
    + destruct (check_dimensions_throws w (get_inputs_number l) (get_neurons_number l) LOG)
        as [what Hthrow]; [right; exact Hw1|].
      rewrite Hthrow. eexists. reflexivity.
    + destruct (check_dimensions_throws w (get_inputs_number l) (get_neurons_number l) LOG)
        as [what Hthrow]; [left; exact Hw0|].
      rewrite Hthrow. eexists. reflexivity.
  - destruct (check_columns_number_throws inputs _ LOG Hin) as [what Hthrow].
    rewrite Hthrow. eexists. reflexivity.
Qed.

(** Past the checks, the call completes when the shapes of its arguments
    fit one another and the buffers are long enough; the biases fill the
    first columns and the product of the inputs and the weights is added. *)
Lemma calculate_combinations_fits (l : PerceptronLayer) (inputs b w c : Tensor2) :
  wf2 b -> wf2 c ->
  OPENNN_DEBUG = false
  \/ (dim1 inputs = get_inputs_number l
      /\ dim0 w = get_inputs_number l /\ dim1 w = get_neurons_number l
      /\ dim0 c = dim0 inputs /\ dim1 c = get_neurons_number l) ->
  dim1 inputs = dim0 w -> get_biases_number l <= size2 b ->
  get_biases_number l * dim0 inputs <= size2 c ->
  dim0 c = dim0 inputs -> dim1 c = dim1 w ->
  exists c',
    calculate_combinations l inputs b w c = Done c'
    /\ dim0 c' = dim0 inputs /\ dim1 c' = dim1 w /\ wf2 c'
    /\ forall s j, s < dim0 inputs -> j < get_biases_number l ->
         at2 c' s j
         = fadd (lin2 b j) (dot_product (dim1 inputs) (row inputs s) (column w j)).
Proof.
  intros Hb Hc Hchecks Hcontract Hbiases Hroom Hc0 Hc1.
  unfold wf2 in Hb, Hc.
  unfold calculate_combinations.
  rewrite (combinations_checks_Done l inputs w c Hchecks), bind_Done.
  set (nb := get_biases_number l) in *. set (batch := dim0 inputs) in *.
  rewrite require_true by (apply Nat.leb_le; rewrite Hb; exact Hbiases).
  rewrite bind_Done.
  rewrite require_true by (apply Nat.leb_le; rewrite Hc; exact Hroom).
  rewrite bind_Done.
  rewrite contract_A_B by exact Hcontract. rewrite bind_Done. fold batch.
  rewrite fold_fill_columns by (rewrite Hc; exact Hroom).
  set (spread := flat_map (fun j => map (fun _ => lin2 b j) (seq 0 batch)) (seq 0 nb)).
  assert (Hspread : length spread = batch * nb).
  { unfold spread. apply length_flat_map_rows. intros j.
    rewrite length_map, length_seq. reflexivity. }
  match goal with
  | |- context [add_assign ?a ?p] => set (filled := a); set (product := p)
  end.
  destruct (add_assign_entries filled product)
    as [r [Hrun [Hr0 [Hr1 [Hrwf Hentries]]]]]; [exact Hc0|exact Hc1|].
  exists r. split; [exact Hrun|]. split; [rewrite Hr0; exact Hc0|].
  split; [rewrite Hr1; exact Hc1|]. split; [exact Hrwf|].
  intros s j Hs Hj.
  assert (Hcolumn : j < dim1 w).
  { unfold size2 in Hroom. rewrite Hc0, Hc1 in Hroom. fold batch in Hroom. nia. }
  rewrite Hentries by (unfold filled; simpl; lia). f_equal.
  - unfold at2, filled. simpl data2. simpl dim0. rewrite Hc0. fold batch.
    rewrite cell_app_l by (rewrite Hspread; apply linear_index_bound; assumption).
    unfold spread, cell.
    rewrite (nth_flat_map_rows (fun j0 => map (fun _ => lin2 b j0) (seq 0 batch)) batch)
      by (try (intros; rewrite length_map, length_seq; reflexivity); assumption).
    apply (nth_map_seq (fun _ => lin2 b (0 + j))). exact Hs.
  - unfold product. rewrite at2_tabulate2 by assumption.
    apply sum_n_series.
Qed.

(** Past the checks, a call whose shapes do not fit has no defined result. *)
Lemma calculate_combinations_misfit (l : PerceptronLayer) (inputs b w c : Tensor2) :
  wf2 b -> wf2 c ->
  OPENNN_DEBUG = false
  \/ (dim1 inputs = get_inputs_number l
      /\ dim0 w = get_inputs_number l /\ dim1 w = get_neurons_number l
      /\ dim0 c = dim0 inputs /\ dim1 c = get_neurons_number l) ->
  ~ (dim1 inputs = dim0 w /\ get_biases_number l <= size2 b
     /\ get_biases_number l * dim0 inputs <= size2 c
     /\ dim0 c = dim0 inputs /\ dim1 c = dim1 w) ->
  calculate_combinations l inputs b w c = Undefined.
Proof.
  intros Hb Hc Hchecks Hbad. unfold wf2 in Hb, Hc.
  unfold calculate_combinations.
  rewrite (combinations_checks_Done l inputs w c Hchecks), bind_Done.
  rewrite Hb, Hc.
  unfold require at 1.
  destruct (get_biases_number l <=? size2 b) eqn:H1; [|reflexivity].
  rewrite bind_Done. unfold require at 1.
  destruct (get_biases_number l * dim0 inputs <=? size2 c) eqn:H2; [|reflexivity].
  rewrite bind_Done. unfold contract, A_B. simpl dimension. simpl other_axis.
  unfold require at 1.
  destruct (dim1 inputs =? dim0 w) eqn:H3; [|reflexivity].
  rewrite !bind_Done. unfold add_assign, same_shape. simpl dim0. simpl dim1.
  destruct (dim0 c =? dim0 inputs) eqn:H4; [|reflexivity].
  destruct (dim1 c =? dim1 w) eqn:H5; [|reflexivity].
  exfalso. apply Hbad.
  apply Nat.leb_le in H1, H2. apply Nat.eqb_eq in H3, H4, H5.
  repeat split; assumption.
Qed.

(** C7 (as amended).  Whatever tensors [calculate_combinations] is called
    on, the result of a call that completes has one row per sample and one
    column per column of the weights, and its entry at row [s] and column
    [j], for [j] below the number of biases of the layer, is [biases(j)]
    plus the dot product of row [s] of the inputs with column [j] of the
    weights.  A build with [OPENNN_DEBUG] throws when the column count of
    the inputs is not the input count of the layer, or when the weights or
    the combinations do not have the shape of the layer, and completes
    when those checks pass and the biases hold an entry per bias.  A build
    without it makes no check and never throws: the call completes when
    the inputs have as many columns as the weights have rows, the biases
    hold an entry per bias and the combinations have room for them, a row
    per sample and a column per column of the weights; any other call is
    outside what Eigen and the buffers define.  [calculate_outputs] calls
    it on the layer's own biases and weights and on a fresh buffer. *)
Theorem combinations_formula_and_debug_check (l : PerceptronLayer)
    (inputs biases_arg synaptic_weights_arg combinations_arg : Tensor2)
    (Hinputs : wf2 inputs) (Hbiases : wf2 biases_arg)
    (Hweights : wf2 synaptic_weights_arg) (Hcombinations : wf2 combinations_arg) :
  let run :=
    calculate_combinations l inputs biases_arg synaptic_weights_arg combinations_arg in
  let checked :=
    dim1 inputs = get_inputs_number l
    /\ dim0 synaptic_weights_arg = get_inputs_number l
    /\ dim1 synaptic_weights_arg = get_neurons_number l
    /\ dim0 combinations_arg = dim0 inputs
    /\ dim1 combinations_arg = get_neurons_number l in
  let fits :=
    dim1 inputs = dim0 synaptic_weights_arg
    /\ get_biases_number l <= size2 biases_arg
    /\ get_biases_number l * dim0 inputs <= size2 combinations_arg
    /\ dim0 combinations_arg = dim0 inputs
    /\ dim1 combinations_arg = dim1 synaptic_weights_arg in
  let fresh :=
    mkTensor2 (dim0 inputs) (get_neurons_number l)
      (repeat indeterminate (dim0 inputs * get_neurons_number l)) in
  (forall c', run = Done c' ->
     dim0 c' = dim0 inputs /\ dim1 c' = dim1 synaptic_weights_arg /\ wf2 c'
     /\ forall s j, s < dim0 inputs -> j < get_biases_number l ->
          at2 c' s j
          = fadd (lin2 biases_arg j)
              (dot_product (dim1 inputs) (row inputs s)
                 (column synaptic_weights_arg j)))
  /\ (OPENNN_DEBUG = true ->
      (dim1 inputs <> get_inputs_number l -> throws run)
      /\ (~ checked -> throws run)
      /\ (checked -> get_biases_number l <= size2 biases_arg -> exists c', run = Done c')
      /\ (checked -> size2 biases_arg < get_biases_number l -> run = Undefined))
  /\ (OPENNN_DEBUG = false ->
      ~ throws run
      /\ (fits -> exists c', run = Done c')
      /\ (~ fits -> run = Undefined))
  /\ (layer_shaped l ->
      (dim1 inputs = get_inputs_number l ->
       exists c',
         calculate_combinations l inputs (biases l) (synaptic_weights l) fresh = Done c'
         /\ calculate_outputs l inputs = calculate_activations l c' c')
      /\ (dim1 inputs <> get_inputs_number l ->
          (OPENNN_DEBUG = true -> throws (calculate_outputs l inputs))
          /\ (OPENNN_DEBUG = false -> calculate_outputs l inputs = Undefined))).
Proof.
  intros run checked fits fresh.
  assert (Hfits_dec : fits \/ ~ fits).
  { unfold fits.
    destruct (Nat.eq_dec (dim1 inputs) (dim0 synaptic_weights_arg));
      [|right; intros [? _]; contradiction].
    destruct (le_dec (get_biases_number l) (size2 biases_arg));
      [|right; intros [_ [? _]]; contradiction].
    destruct (le_dec (get_biases_number l * dim0 inputs) (size2 combinations_arg));
      [|right; intros [_ [_ [? _]]]; contradiction].
    destruct (Nat.eq_dec (dim0 combinations_arg) (dim0 inputs));
      [|right; intros [_ [_ [_ [? _]]]]; contradiction].
    destruct (Nat.eq_dec (dim1 combinations_arg) (dim1 synaptic_weights_arg));
      [|right; intros [_ [_ [_ [_ ?]]]]; contradiction].
    left. repeat split; assumption. }
  assert (Hchecked_dec : checked \/ ~ checked).
  { unfold checked.
    destruct (Nat.eq_dec (dim1 inputs) (get_inputs_number l));
      [|right; intros [? _]; contradiction].
    destruct (Nat.eq_dec (dim0 synaptic_weights_arg) (get_inputs_number l));
      [|right; intros [_ [? _]]; contradiction].
    destruct (Nat.eq_dec (dim1 synaptic_weights_arg) (get_neurons_number l));
      [|right; intros [_ [_ [? _]]]; contradiction].
    destruct (Nat.eq_dec (dim0 combinations_arg) (dim0 inputs));
      [|right; intros [_ [_ [_ [? _]]]]; contradiction].
    destruct (Nat.eq_dec (dim1 combinations_arg) (get_neurons_number l));
      [|right; intros [_ [_ [_ [_ ?]]]]; contradiction].
    left. repeat split; assumption. }
  assert (Hchecked_fits :
            checked -> get_biases_number l <= size2 biases_arg -> fits).
  { intros [Hin [Hw0 [Hw1 [Hc0 Hc1]]]] Hroom. unfold fits.
    split; [congruence|]. split; [exact Hroom|].
    split; [|split; [exact Hc0|congruence]].
    unfold size2. rewrite Hc0, Hc1. unfold get_biases_number, get_neurons_number.
    rewrite Nat.mul_comm. apply Nat.le_refl. }
  split; [|split; [|split]].
  - intros c' Hrun.
    assert (Hpassed : OPENNN_DEBUG = false \/ checked).
    { destruct OPENNN_DEBUG eqn:Hdebug; [|left; reflexivity].
      destruct Hchecked_dec as [Hchecked|Hchecked]; [right; exact Hchecked|].
      destruct (calculate_combinations_throws l inputs biases_arg synaptic_weights_arg
                  combinations_arg Hdebug Hchecked) as [what Hthrow].
      unfold run in Hrun. rewrite Hthrow in Hrun. discriminate. }
    destruct Hfits_dec as [[Hf1 [Hf2 [Hf3 [Hf4 Hf5]]]]|Hmisfit].
    + destruct (calculate_combinations_fits l inputs biases_arg synaptic_weights_arg
                  combinations_arg Hbiases Hcombinations Hpassed Hf1 Hf2 Hf3 Hf4 Hf5)
        as [r [Hr Hshape]].
      unfold run in Hrun. rewrite Hr in Hrun. injection Hrun as <-. exact Hshape.
    + unfold run in Hrun.
      rewrite (calculate_combinations_misfit l inputs biases_arg synaptic_weights_arg
                 combinations_arg Hbiases Hcombinations Hpassed Hmisfit) in Hrun.
      discriminate.
  - intros Hdebug. split; [|split; [|split]].
    + intros Hne. apply calculate_combinations_throws; [exact Hdebug|].
      intros [Hin _]. contradiction.
    + intros Hbad. apply calculate_combinations_throws; assumption.
    + intros Hchecked Hroom.
      destruct (Hchecked_fits Hchecked Hroom) as [Hf1 [Hf2 [Hf3 [Hf4 Hf5]]]].
      destruct (calculate_combinations_fits l inputs biases_arg synaptic_weights_arg
                  combinations_arg Hbiases Hcombinations (or_intror Hchecked)
                  Hf1 Hf2 Hf3 Hf4 Hf5)
        as [r [Hr _]].
      exists r. exact Hr.
    + intros Hchecked Hshort.
      apply calculate_combinations_misfit;
        [exact Hbiases|exact Hcombinations|right; exact Hchecked|].
      intros [_ [Hroom _]]. lia.
  - intros Hdebug.
    assert (Hcases : (exists c', run = Done c') \/ run = Undefined).
    { destruct Hfits_dec as [[Hf1 [Hf2 [Hf3 [Hf4 Hf5]]]]|Hmisfit].
      - left.
        destruct (calculate_combinations_fits l inputs biases_arg synaptic_weights_arg
                    combinations_arg Hbiases Hcombinations (or_introl Hdebug)
                    Hf1 Hf2 Hf3 Hf4 Hf5)
          as [r [Hr _]].
        exists r. exact Hr.
      - right. apply calculate_combinations_misfit;
          [exact Hbiases|exact Hcombinations|left; exact Hdebug|exact Hmisfit]. }
    split; [|split].
    + intros [what Hthrow]. destruct Hcases as [[r Hr]|Hr];
        rewrite Hr in Hthrow; discriminate.
    + intros [Hf1 [Hf2 [Hf3 [Hf4 Hf5]]]].
      destruct (calculate_combinations_fits l inputs biases_arg synaptic_weights_arg
                  combinations_arg Hbiases Hcombinations (or_introl Hdebug)
                  Hf1 Hf2 Hf3 Hf4 Hf5)
        as [r [Hr _]].
      exists r. exact Hr.
    + intros Hmisfit. apply calculate_combinations_misfit;
        [exact Hbiases|exact Hcombinations|left; exact Hdebug|exact Hmisfit].
  - intros [Hlb [Hlw Hcols]]. split.
    + intros Hin.
      assert (Hfresh : wf2 fresh) by apply fresh_outputs_shaped.
      destruct (calculate_combinations_fits l inputs (biases l) (synaptic_weights l)
                  fresh Hlb Hfresh)
        as [r [Hr _]].
      * right. repeat split; try reflexivity; assumption.
      * exact Hin.
      * apply Nat.le_refl.
      * unfold size2, fresh; simpl.
        unfold get_biases_number, get_neurons_number.
        rewrite Nat.mul_comm. apply Nat.le_refl.
      * reflexivity.
      * simpl. unfold get_neurons_number. symmetry. exact Hcols.
      * exists r. split; [exact Hr|].
        unfold calculate_outputs, debug_only.
        assert (Hcheck :
                  (if OPENNN_DEBUG
                   then check_columns_number inputs (get_inputs_number l) LOG
                   else Done tt) = Done tt).
        { destruct OPENNN_DEBUG; [|reflexivity].
          apply check_columns_number_Done. exact Hin. }
        rewrite Hcheck, bind_Done. fold fresh. rewrite Hr. reflexivity.
    + intros Hne. split.
      * intros Hdebug. unfold calculate_outputs, debug_only. rewrite Hdebug.
        destruct (check_columns_number_throws inputs _ LOG Hne) as [what Hthrow].
        rewrite Hthrow. simpl. eexists. reflexivity.
      * intros Hdebug. unfold calculate_outputs, debug_only.
        rewrite Hdebug, bind_Done. fold fresh.
        rewrite (calculate_combinations_misfit l inputs (biases l) (synaptic_weights l)
                   fresh Hlb (fresh_outputs_shaped _ _) (or_introl Hdebug));
          [reflexivity|].
        intros [Hcontract _]. apply Hne. exact Hcontract.
Qed.

(* ====================================================================== *)
(** * The layout of the parameter vector *)
(* ====================================================================== *)

Lemma memcpy_cells (dst : list type) (dpos : nat) (src : list type) (spos n : nat) :
  dpos + n <= length dst -> spos + n <= length src ->
  exists r,
    memcpy dst dpos src spos n = Done r
    /\ length r = length dst
    /\ (forall i, i < n -> cell r (dpos + i) = cell src (spos + i))
    /\ (forall k, k < dpos -> cell r k = cell dst k)
    /\ (forall k, dpos + n <= k -> cell r k = cell dst k).
Proof.
  intros Hd Hs. rewrite memcpy_Done by assumption. eexists. split; [reflexivity|].
  assert (Ha : length (firstn dpos dst) = dpos) by (rewrite length_firstn; lia).
  assert (Hb : length (firstn n (skipn spos src)) = n)
    by (rewrite length_firstn, length_skipn; lia).
  split; [|split; [|split]].
  - rewrite !length_app, Ha, Hb, length_skipn. lia.
  - intros i Hi. rewrite cell_app_at by exact Ha.
    rewrite cell_app_l by lia. apply cell_firstn_skipn. exact Hi.
  - intros k Hk. rewrite cell_app_l by lia. unfold cell. rewrite nth_firstn.
    rewrite (proj2 (Nat.ltb_lt _ _) Hk). reflexivity.
  - intros k Hk. replace k with (dpos + (n + (k - (dpos + n)))) at 1 by lia.
    rewrite cell_app_at by exact Ha. rewrite cell_app_at by exact Hb.
    unfold cell. rewrite nth_skipn. f_equal. lia.
Qed.


Lemma sum_n_ext (n : nat) (f g : nat -> type) :
  (forall k, k < n -> f k = g k) -> sum_n n f = sum_n n g.
Proof.
  unfold sum_n. induction n as [|n IH]; intros Hfg; [reflexivity|].
  rewrite seq_S, !fold_left_app; simpl.
  rewrite IH by (intros; apply Hfg; lia). rewrite Hfg by lia. reflexivity.
Qed.

Lemma weights_size (l : PerceptronLayer) :
  layer_shaped l ->
  size2 (synaptic_weights l) = get_inputs_number l * get_neurons_number l.
Proof.
  intros [_ [_ Hcols]]. unfold size2 at 1, get_inputs_number, get_neurons_number.
  rewrite Hcols. reflexivity.
Qed.

Lemma get_parameters_layout (l : PerceptronLayer) :
  layer_shaped l ->
  length (get_parameters l)
  = get_neurons_number l + get_inputs_number l * get_neurons_number l
  /\ (forall j, j < get_neurons_number l ->
        cell (get_parameters l) (bias_position j) = lin2 (biases l) j)
  /\ (forall i n, i < get_inputs_number l -> n < get_neurons_number l ->
        cell (get_parameters l)
          (weight_position (get_inputs_number l) (get_neurons_number l) i n)
        = at2 (synaptic_weights l) i n).
Proof.
  intros Hl. pose proof (weights_size l Hl) as Hsize.
  destruct Hl as [Hb [Hw Hcols]].
  rewrite get_parameters_flat by assumption. unfold wf2 in Hb, Hw.
  split; [|split].
  - rewrite length_app, Hb, Hw, Hsize. reflexivity.
  - intros j Hj. unfold bias_position. rewrite cell_app_l; [reflexivity|].
    rewrite Hb. exact Hj.
  - intros i n Hi Hn. unfold weight_position.
    rewrite cell_app_at by exact Hb. reflexivity.
Qed.

Lemma set_parameters_layout (l : PerceptronLayer) (p : list type) (index : nat) :
  layer_shaped l ->
  index + (get_neurons_number l + get_inputs_number l * get_neurons_number l)
    <= length p ->
  exists l',
    set_parameters p index l = Done l'
    /\ get_inputs_number l' = get_inputs_number l
    /\ get_neurons_number l' = get_neurons_number l
    /\ (forall j, j < get_neurons_number l ->
          lin2 (biases l') j = cell p (index + bias_position j))
    /\ (forall i n, i < get_inputs_number l -> n < get_neurons_number l ->
          at2 (synaptic_weights l') i n
          = cell p (index
                    + weight_position (get_inputs_number l) (get_neurons_number l) i n)).
Proof.
  intros Hl Hlen. pose proof (weights_size l Hl) as Hsize.
  destruct Hl as [Hb [Hw Hcols]]. unfold wf2 in Hb, Hw.
  unfold set_parameters, get_biases_number, get_synaptic_weights_number.
  unfold get_neurons_number in *.
  destruct (memcpy_cells (data2 (biases l)) 0 p index (size2 (biases l)))
    as [b' [Hrunb [_ [Hcellsb _]]]]; [simpl; lia|lia|].
  rewrite Hrunb, bind_Done.
  destruct (memcpy_cells (data2 (synaptic_weights l)) 0 p
              (size2 (biases l) + index) (size2 (synaptic_weights l)))
    as [w' [Hrunw [_ [Hcellsw _]]]]; [simpl; lia|lia|].
  rewrite Hrunw, bind_Done.
  eexists. split; [reflexivity|]. simpl.
  split; [reflexivity|]. split; [reflexivity|]. split.
  - intros j Hj. unfold lin2, bias_position; simpl.
    rewrite <- (Hcellsb j Hj). reflexivity.
  - intros i n Hi Hn. unfold at2, weight_position; simpl.
    rewrite <- (Nat.add_0_l (i + dim0 (synaptic_weights l) * n)) at 1.
    rewrite Hcellsw.
    + unfold get_inputs_number. f_equal. lia.
    + rewrite Hsize. unfold get_inputs_number in *.
      apply linear_index_bound; assumption.
Qed.

Lemma insert_gradient_layout (l : PerceptronLayer)
    (bp : PerceptronLayerBackPropagation) (index : nat) (gradient : list type) :
  layer_shaped l ->
  length (biases_derivatives bp) = get_neurons_number l ->
  wf2 (synaptic_weights_derivatives bp) ->
  dim0 (synaptic_weights_derivatives bp) = get_inputs_number l ->
  dim1 (synaptic_weights_derivatives bp) = get_neurons_number l ->
  index + (get_neurons_number l + get_inputs_number l * get_neurons_number l)
    <= length gradient ->
  exists g,
    insert_gradient l bp index gradient = Done g
    /\ length g = length gradient
    /\ (forall j, j < get_neurons_number l ->
          cell g (index + bias_position j) = cell (biases_derivatives bp) j)
    /\ (forall i n, i < get_inputs_number l -> n < get_neurons_number l ->
          cell g (index
                  + weight_position (get_inputs_number l) (get_neurons_number l) i n)
          = at2 (synaptic_weights_derivatives bp) i n).
Proof.
  intros Hl Hbd Hwf Hd0 Hd1 Hlen. pose proof (weights_size l Hl) as Hsize.
  unfold insert_gradient, get_biases_number, get_synaptic_weights_number.
  unfold get_neurons_number in *.
  set (nb := size2 (biases l)) in *. set (ni := get_inputs_number l) in *.
  assert (Hswd : length (data2 (synaptic_weights_derivatives bp)) = ni * nb).
  { unfold wf2, size2 in Hwf. rewrite Hwf, Hd0, Hd1. reflexivity. }
  destruct (memcpy_cells gradient index (biases_derivatives bp) 0 nb)
    as [g1 [Hrun1 [Hlen1 [Hcells1 _]]]]; [lia|lia|].
  rewrite Hrun1, bind_Done.
  destruct (memcpy_cells g1 (index + nb) (data2 (synaptic_weights_derivatives bp)) 0
              (size2 (synaptic_weights l)))
    as [g2 [Hrun2 [Hlen2 [Hcells2 [Hbelow2 _]]]]]; [lia|lia|].
  rewrite Hrun2. exists g2. split; [reflexivity|]. split; [lia|]. split.
  - intros j Hj. unfold bias_position.
    rewrite Hbelow2 by lia. rewrite Hcells1 by exact Hj. reflexivity.
  - intros i n Hi Hn. unfold weight_position, at2.
    replace (index + (nb + (i + ni * n))) with (index + nb + (i + ni * n)) by lia.
    rewrite Hcells2.
    + rewrite Hd0. reflexivity.
    + rewrite Hsize. apply linear_index_bound; assumption.
Qed.

Lemma tensor_map2_Done (buffer : list type) (offset d0 d1 : nat) :
  offset + d0 * d1 <= length buffer ->
  tensor_map2 buffer offset d0 d1
  = Done (mkTensor2 d0 d1 (firstn (d0 * d1) (skipn offset buffer))).
Proof.
  intros Hlen. unfold tensor_map2. rewrite require_true by (apply Nat.leb_le; exact Hlen).
  reflexivity.
Qed.

Lemma check_size_Done (v : list type) (n : nat) (log : string) :
  length v = n -> check_size v n log = Done tt.
Proof. intros <-. unfold check_size. rewrite Nat.eqb_refl. reflexivity. Qed.

Lemma forward_propagate_parameters_layout (l : PerceptronLayer) (inputs : Tensor2)
    (p : list type) (fp : PerceptronLayerForwardPropagation) :
  layer_shaped l ->
  dim1 inputs = get_inputs_number l ->
  length p = get_neurons_number l + get_inputs_number l * get_neurons_number l ->
  wf2 (combinations fp) -> dim0 (combinations fp) = dim0 inputs ->
  dim1 (combinations fp) = get_neurons_number l ->
  exists c,
    forward_propagate_parameters l inputs p fp
    = bind (calculate_activations_derivatives l c (activations fp)
              (activations_derivatives fp))
        (fun ad => Done (mkPerceptronLayerForwardPropagation c (fst ad) (snd ad)))
    /\ dim0 c = dim0 inputs /\ dim1 c = get_neurons_number l
    /\ forall s n, s < dim0 inputs -> n < get_neurons_number l ->
         at2 c s n
         = fadd (cell p (bias_position n))
             (sum_n (get_inputs_number l)
                (fun k =>
                   fmul (at2 inputs s k)
                     (cell p (weight_position (get_inputs_number l)
                                (get_neurons_number l) k n)))).
Proof.
  intros Hl Hin Hp Hwf Hc0 Hc1. pose proof (weights_size l Hl) as Hsize.
  unfold forward_propagate_parameters, debug_only.
  assert (Hchecks :
            (if OPENNN_DEBUG
             then (check_columns_number inputs (get_inputs_number l) LOG ;;;
                   check_size p (get_parameters_number l) LOG)%outcome
             else Done tt) = Done tt).
  { destruct OPENNN_DEBUG; [|reflexivity].
    rewrite check_columns_number_Done by exact Hin. rewrite bind_Done.
    apply check_size_Done. unfold get_parameters_number. rewrite Hsize.
    exact Hp. }
  rewrite Hchecks, bind_Done.
  set (nb := get_neurons_number l) in *. set (ni := get_inputs_number l) in *.
  rewrite tensor_map2_Done by lia. rewrite bind_Done.
  rewrite tensor_map2_Done by lia. rewrite bind_Done.
  set (pb := mkTensor2 nb 1 _). set (pw := mkTensor2 ni nb _).
  destruct (calculate_combinations_entries l inputs pb pw)
    as [c [Hrun [H0 [H1 [_ Hentries]]]]]; try assumption; try reflexivity.
  { unfold pb. simpl data2. rewrite length_firstn. simpl skipn. fold nb. lia. }
  rewrite (Hrun (combinations fp)) by assumption. rewrite bind_Done. exists c. split; [reflexivity|].
  split; [exact H0|]. split; [exact H1|].
  intros s n Hs Hn. rewrite Hentries by assumption. rewrite Hin. fold ni.
  f_equal.
  - unfold lin2, pb, bias_position.
    exact (cell_firstn_skipn p 0 (nb * 1) n ltac:(lia)).
  - apply sum_n_ext. intros k Hk. f_equal.
    unfold at2, pw, weight_position.
    exact (cell_firstn_skipn p nb (ni * nb) (k + ni * n)
             (linear_index_bound k n ni nb Hk Hn)).
Qed.

(** C2.  The flattened parameter vector of a layer holds all the biases
    first, then all the synaptic weights in column-major order, the input
    index running fastest within the column of a neuron.  That is the
    vector [get_parameters] produces, the one [set_parameters] consumes,
    the one [insert_gradient] writes, and the one [forward_propagate]
    reads when it is given candidate parameters. *)
Theorem parameter_vector_layout (l : PerceptronLayer) (Hl : layer_shaped l) :
  let inputs_number := get_inputs_number l in
  let neurons_number := get_neurons_number l in
  let parameters_number := neurons_number + inputs_number * neurons_number in
  (length (get_parameters l) = parameters_number
   /\ (forall j, j < neurons_number ->
         cell (get_parameters l) (bias_position j) = lin2 (biases l) j)
   /\ (forall i n, i < inputs_number -> n < neurons_number ->
         cell (get_parameters l) (weight_position inputs_number neurons_number i n)
         = at2 (synaptic_weights l) i n))
  /\ (forall (p : list type) (index : nat),
         index + parameters_number <= length p ->
         exists l',
           set_parameters p index l = Done l'
           /\ get_inputs_number l' = inputs_number
           /\ get_neurons_number l' = neurons_number
           /\ (forall j, j < neurons_number ->
                 lin2 (biases l') j = cell p (index + bias_position j))
           /\ (forall i n, i < inputs_number -> n < neurons_number ->
                 at2 (synaptic_weights l') i n
                 = cell p (index + weight_position inputs_number neurons_number i n)))
  /\ (forall (bp : PerceptronLayerBackPropagation) (index : nat) (gradient : list type),
         length (biases_derivatives bp) = neurons_number ->
         wf2 (synaptic_weights_derivatives bp) ->
         dim0 (synaptic_weights_derivatives bp) = inputs_number ->
         dim1 (synaptic_weights_derivatives bp) = neurons_number ->
         index + parameters_number <= length gradient ->
         exists g,
           insert_gradient l bp index gradient = Done g
           /\ length g = length gradient
           /\ (forall j, j < neurons_number ->
                 cell g (index + bias_position j) = cell (biases_derivatives bp) j)
           /\ (forall i n, i < inputs_number -> n < neurons_number ->
                 cell g (index + weight_position inputs_number neurons_number i n)
                 = at2 (synaptic_weights_derivatives bp) i n))
  /\ (forall (inputs : Tensor2) (p : list type)
             (fp : PerceptronLayerForwardPropagation),
         dim1 inputs = inputs_number ->
         length p = parameters_number ->
         wf2 (combinations fp) -> dim0 (combinations fp) = dim0 inputs ->
         dim1 (combinations fp) = neurons_number ->
         exists c,
           forward_propagate_parameters l inputs p fp
           = bind (calculate_activations_derivatives l c (activations fp)
                     (activations_derivatives fp))
               (fun ad => Done (mkPerceptronLayerForwardPropagation c (fst ad) (snd ad)))
           /\ dim0 c = dim0 inputs /\ dim1 c = neurons_number
           /\ forall s n, s < dim0 inputs -> n < neurons_number ->
                at2 c s n
                = fadd (cell p (bias_position n))
                    (sum_n inputs_number
                       (fun k =>
                          fmul (at2 inputs s k)
                            (cell p (weight_position inputs_number neurons_number k n))))).
Proof.
  intros inputs_number neurons_number parameters_number.
  split; [|split; [|split]].
  - apply get_parameters_layout. exact Hl.
  - intros p index Hlen. apply set_parameters_layout; assumption.
  - intros bp index gradient Hbd Hwf Hd0 Hd1 Hlen.
    apply insert_gradient_layout; assumption.
  - intros inputs p fp Hin Hp Hwf Hc0 Hc1.
    apply forward_propagate_parameters_layout; assumption.
Qed.


(* ====================================================================== *)
(** * The shape invariant under the sizing operations *)
(* ====================================================================== *)

Lemma resize_dim0 (t : Tensor2) (d0 d1 : nat) : dim0 (resize t d0 d1) = d0.
Proof. unfold resize. destruct (size2 t =? d0 * d1); reflexivity. Qed.

Lemma resize_dim1 (t : Tensor2) (d0 d1 : nat) : dim1 (resize t d0 d1) = d1.
Proof. unfold resize. destruct (size2 t =? d0 * d1); reflexivity. Qed.

Lemma resize_size2 (t : Tensor2) (d0 d1 : nat) : size2 (resize t d0 d1) = d0 * d1.
Proof. unfold size2. rewrite resize_dim0, resize_dim1. reflexivity. Qed.

Lemma wf2_resize (t : Tensor2) (d0 d1 : nat) : wf2 t -> wf2 (resize t d0 d1).
Proof.
  intros Hwf. unfold wf2. rewrite resize_size2. unfold resize.
  destruct (size2 t =? d0 * d1) eqn:Hsame; simpl.
  - apply Nat.eqb_eq in Hsame. rewrite <- Hsame. exact Hwf.
  - apply repeat_length.
Qed.

(** C8.  After [set] with an input and a neuron count, after
    [set_inputs_number] and after [set_neurons_number], the synaptic weight
    matrix has [inputs_number] rows and [neurons_number] columns and the
    bias container holds [neurons_number] entries, so that
    [get_inputs_number] and [get_neurons_number] return the configured
    counts: the counts given to [set]; the new input count and the neuron
    count the layer had; the input count the layer had and the new neuron
    count. *)
Theorem sizing_keeps_shape_invariant :
  (forall (l : PerceptronLayer) (new_inputs_number new_neurons_number : nat)
          (af : ActivationFunction) (calls : nat),
      let l' := fst (set l new_inputs_number new_neurons_number af calls) in
      dim0 (synaptic_weights l') = new_inputs_number
      /\ dim1 (synaptic_weights l') = new_neurons_number
      /\ size2 (biases l') = new_neurons_number
      /\ length (data2 (biases l')) = new_neurons_number
      /\ layer_shaped l'
      /\ get_inputs_number l' = new_inputs_number
      /\ get_neurons_number l' = new_neurons_number)
  /\ (forall (l : PerceptronLayer) (new_inputs_number : nat),
         let l' := set_inputs_number l new_inputs_number in
         dim0 (synaptic_weights l') = new_inputs_number
         /\ dim1 (synaptic_weights l') = get_neurons_number l
         /\ size2 (biases l') = get_neurons_number l
         /\ get_inputs_number l' = new_inputs_number
         /\ get_neurons_number l' = get_neurons_number l
         /\ (wf2 (biases l) -> wf2 (synaptic_weights l) ->
             layer_shaped l' /\ length (data2 (biases l')) = get_neurons_number l))
  /\ (forall (l : PerceptronLayer) (new_neurons_number : nat),
         let l' := set_neurons_number l new_neurons_number in
         dim0 (synaptic_weights l') = get_inputs_number l
         /\ dim1 (synaptic_weights l') = new_neurons_number
         /\ size2 (biases l') = new_neurons_number
         /\ get_inputs_number l' = get_inputs_number l
         /\ get_neurons_number l' = new_neurons_number
         /\ (wf2 (biases l) -> wf2 (synaptic_weights l) ->
             layer_shaped l' /\ length (data2 (biases l')) = new_neurons_number)).
Proof.
  split; [|split].
  - intros l ni nn af calls l'. subst l'.
    unfold set, set_parameters_random, set_default, with_parameters,
      get_inputs_number, get_neurons_number, layer_shaped, wf2, size2; simpl.
    rewrite !resize_dim0, !resize_dim1, !length_map, !length_seq.
    repeat split; lia.
  - intros l ni l'. subst l'.
    unfold set_inputs_number, with_parameters, get_inputs_number,
      get_neurons_number; simpl.
    rewrite !resize_dim0, !resize_dim1, !resize_size2.
    repeat split; try lia.
    + apply wf2_resize; assumption.
    + apply wf2_resize; assumption.
    + simpl. rewrite resize_dim1, resize_size2. lia.
    + match goal with
      | Hb : wf2 (biases l) |- _ =>
        pose proof (wf2_resize (biases l) 1 (size2 (biases l)) Hb) as Hwf
      end.
      unfold wf2 in Hwf. rewrite Hwf, resize_size2. lia.
  - intros l nn l'. subst l'.
    unfold set_neurons_number, with_parameters, get_inputs_number,
      get_neurons_number; simpl.
    rewrite !resize_dim0, !resize_dim1, !resize_size2.
    repeat split; try lia.
    + apply wf2_resize; assumption.
    + apply wf2_resize; assumption.
    + simpl. rewrite resize_dim1, resize_size2. lia.
    + match goal with
      | Hb : wf2 (biases l) |- _ =>
        pose proof (wf2_resize (biases l) 1 nn Hb) as Hwf
      end.
      unfold wf2 in Hwf. rewrite Hwf, resize_size2. lia.
Qed.


(* ====================================================================== *)
(** * Properties of the backward pass *)
(* ====================================================================== *)

Lemma cwise_mul_entries (a b : Tensor2) :
  dim0 a = dim0 b -> dim1 a = dim1 b ->
  exists r,
    cwise_mul a b = Done r
    /\ dim0 r = dim0 a /\ dim1 r = dim1 a /\ wf2 r
    /\ forall i j, i < dim0 a -> j < dim1 a ->
         at2 r i j = fmul (at2 a i j) (at2 b i j).
Proof.
  intros H0 H1. unfold cwise_mul.
  rewrite require_true by (apply same_shape_true; assumption).
  rewrite bind_Done. eexists. split; [reflexivity|].
  split; [reflexivity|]. split; [reflexivity|]. split.
  - unfold wf2; simpl. rewrite length_map, length_seq. reflexivity.
  - intros i j Hi Hj. unfold at2 at 1. simpl data2. simpl dim0. unfold cell at 1.
    rewrite nth_map_seq by (apply linear_index_bound; assumption).
    unfold lin2, at2. rewrite <- H0. reflexivity.
Qed.

Lemma assign_Done (dst value : Tensor2) :
  dim0 dst = dim0 value -> dim1 dst = dim1 value -> assign dst value = Done value.
Proof.
  intros H0 H1. unfold assign.
  rewrite require_true by (apply same_shape_true; assumption). reflexivity.
Qed.

Lemma assign1_Done (dst value : list type) :
  length dst = length value -> assign1 dst value = Done value.
Proof.
  intros Hlen. unfold assign1. rewrite Hlen, Nat.eqb_refl. reflexivity.
Qed.

(** C4.  When the next layer is a perceptron layer, [calculate_hidden_delta]
    completes, on buffers shaped for the batch, and sets this layer's delta
    to the coefficient-wise product of the next layer's delta and
    activation derivatives, contracted with the transpose of the next
    layer's synaptic weights:
    [delta = (nextDelta (.) nextActivationDerivative) . nextWeights^T],
    that is, entry [(s, i)] is the dot product of row [s] of the
    coefficient-wise product with row [i] of the weights. *)
Theorem hidden_delta_next_perceptron
    (next_fp : PerceptronLayerForwardPropagation) (next_layer : PerceptronLayer)
    (next_bp bp : PerceptronLayerBackPropagation)
    (Hd0 : dim0 (activations_derivatives next_fp) = dim0 (delta next_bp))
    (Hd1 : dim1 (activations_derivatives next_fp) = dim1 (delta next_bp))
    (Hw : dim1 (synaptic_weights next_layer) = dim1 (delta next_bp))
    (Hb0 : dim0 (delta bp) = dim0 (delta next_bp))
    (Hb1 : dim1 (delta bp) = dim0 (synaptic_weights next_layer)) :
  exists bp',
    calculate_hidden_delta (PerceptronForward next_fp)
      (PerceptronBack next_layer next_bp) bp
    = Done (PerceptronBack next_layer next_bp, bp')
    /\ dim0 (delta bp') = dim0 (delta next_bp)
    /\ dim1 (delta bp') = dim0 (synaptic_weights next_layer)
    /\ biases_derivatives bp' = biases_derivatives bp
    /\ synaptic_weights_derivatives bp' = synaptic_weights_derivatives bp
    /\ forall s i, s < dim0 (delta next_bp) -> i < dim0 (synaptic_weights next_layer) ->
         at2 (delta bp') s i
         = dot_product (dim1 (delta next_bp))
             (hadamard (delta next_bp) (activations_derivatives next_fp) s)
             (row (synaptic_weights next_layer) i).
Proof.
  unfold calculate_hidden_delta, calculate_hidden_delta_perceptron.
  destruct (cwise_mul_entries (delta next_bp) (activations_derivatives next_fp))
    as [product [Hrun [Hp0 [Hp1 [_ Hentries]]]]]; [congruence|congruence|].
  rewrite Hrun, bind_Done.
  rewrite contract_A_BT by congruence. rewrite bind_Done.
  rewrite assign_Done by (simpl; congruence). rewrite !bind_Done.
  eexists. split; [reflexivity|]. simpl.
  split; [exact Hp0|]. split; [reflexivity|]. split; [reflexivity|].
  split; [reflexivity|].
  intros s i Hs Hi. rewrite at2_tabulate2 by (try rewrite Hp0; assumption).
  rewrite Hp1.
  rewrite (sum_n_ext _ _
             (fun j =>
                fmul (hadamard (delta next_bp) (activations_derivatives next_fp) s j)
                  (row (synaptic_weights next_layer) i j))).
  - apply sum_n_series.
  - intros j Hj. rewrite Hentries by assumption. reflexivity.
Qed.

(** C5.  On a batch of inputs whose delta and activation-derivative buffers
    match, [calculate_error_gradient] completes; the bias gradient is the
    sum over the samples of [delta (.) activationDerivative], column by
    column, and the weight gradient is
    [inputs^T . (delta (.) activationDerivative)]: entry [(i, j)] is the
    dot product of column [i] of the inputs with column [j] of the
    coefficient-wise product. *)
Theorem error_gradient_formulas (inputs : Tensor2)
    (fp : PerceptronLayerForwardPropagation) (bp : PerceptronLayerBackPropagation)
    (Hd0 : dim0 (activations_derivatives fp) = dim0 (delta bp))
    (Hd1 : dim1 (activations_derivatives fp) = dim1 (delta bp))
    (Hin : dim0 inputs = dim0 (delta bp))
    (Hbd : length (biases_derivatives bp) = dim1 (delta bp))
    (Hw0 : dim0 (synaptic_weights_derivatives bp) = dim1 inputs)
    (Hw1 : dim1 (synaptic_weights_derivatives bp) = dim1 (delta bp)) :
  exists bp',
    calculate_error_gradient inputs fp bp = Done bp'
    /\ delta bp' = delta bp
    /\ length (biases_derivatives bp') = dim1 (delta bp)
    /\ (forall j, j < dim1 (delta bp) ->
          cell (biases_derivatives bp') j
          = series (dim0 (delta bp))
              (fun s => hadamard (delta bp) (activations_derivatives fp) s j))
    /\ dim0 (synaptic_weights_derivatives bp') = dim1 inputs
    /\ dim1 (synaptic_weights_derivatives bp') = dim1 (delta bp)
    /\ (forall i j, i < dim1 inputs -> j < dim1 (delta bp) ->
          at2 (synaptic_weights_derivatives bp') i j
          = dot_product (dim0 (delta bp)) (column inputs i)
              (fun s => hadamard (delta bp) (activations_derivatives fp) s j)).
Proof.
  unfold calculate_error_gradient.
  destruct (cwise_mul_entries (delta bp) (activations_derivatives fp))
    as [product [Hrun [Hp0 [Hp1 [_ Hentries]]]]]; [congruence|congruence|].
  rewrite Hrun, bind_Done.
  rewrite assign1_Done
    by (unfold sum_axis0; rewrite length_map, length_seq; congruence).
  rewrite bind_Done.
  rewrite contract_AT_B by congruence. rewrite bind_Done.
  rewrite assign_Done by (simpl; congruence). rewrite bind_Done.
  eexists. split; [reflexivity|]. simpl.
  split; [reflexivity|]. split; [|split; [|split; [|split]]].
  - unfold sum_axis0. rewrite length_map, length_seq. exact Hp1.
  - intros j Hj. unfold sum_axis0, cell.
    rewrite nth_map_seq by (rewrite Hp1; exact Hj).
    rewrite Hp0.
    rewrite (sum_n_ext _ _
               (fun s => hadamard (delta bp) (activations_derivatives fp) s j)).
    + apply sum_n_series.
    + intros s Hs. apply Hentries; assumption.
  - reflexivity.
  - exact Hp1.
  - intros i j Hi Hj. rewrite at2_tabulate2 by (try rewrite Hp1; assumption).
    rewrite Hin.
    rewrite (sum_n_ext _ _
               (fun s =>
                  fmul (column inputs i s)
                    (hadamard (delta bp) (activations_derivatives fp) s j))).
    + apply sum_n_series.
    + intros s Hs. rewrite Hentries by assumption. reflexivity.
Qed.


Lemma for_loop_S {S : Type} (n : nat) (body : nat -> S -> outcome S) (s : S) :
  for_loop (Datatypes.S n) body s = bind (for_loop n body s) (body n).
Proof. unfold for_loop. rewrite seq_S, fold_left_app. reflexivity. Qed.

(** One turn of the softmax loop: row [i] of the error combinations
    derivatives becomes row [i] of the delta times the Jacobian block of
    sample [i]; the other rows and the delta are left as they were. *)
Lemma softmax_sample_step_row
    (fp : ProbabilisticLayerForwardPropagation) (n i : nat)
    (next : ProbabilisticLayerBackPropagation) :
  let D := probabilistic_delta next in
  let E := error_combinations_derivatives next in
  let buffer := data3 (probabilistic_activations_derivatives fp) in
  dim1 D = n -> i < dim0 D -> i * (n * n) + n * n <= length buffer ->
  dim0 E = dim0 D -> dim1 E = n ->
  exists next',
    softmax_sample_step fp n (n * n) i next = Done next'
    /\ probabilistic_delta next' = D
    /\ dim0 (error_combinations_derivatives next') = dim0 E
    /\ dim1 (error_combinations_derivatives next') = dim1 E
    /\ (forall k, k < n ->
          at2 (error_combinations_derivatives next') i k
          = sum_n n (fun j => fmul (at2 D i j) (cell buffer (i * (n * n) + (j + n * k)))))
    /\ (forall r k, r < dim0 E -> r <> i -> k < n ->
          at2 (error_combinations_derivatives next') r k = at2 E r k).
Proof.
  intros D E buffer HD1 Hi Hlen HE0 HE1.
  unfold softmax_sample_step. fold D E buffer.
  unfold chip0. rewrite require_true by (apply Nat.ltb_lt; exact Hi).
  rewrite !bind_Done.
  rewrite tensor_map2_Done by exact Hlen. rewrite bind_Done.
  set (row := map (fun j => at2 D i j) (seq 0 (dim1 D))).
  set (J := mkTensor2 n n (firstn (n * n) (skipn (i * (n * n)) buffer))).
  assert (Hrow : length row = n)
    by (unfold row; rewrite length_map, length_seq; exact HD1).
  unfold contract1, AT_B. simpl dimension. simpl other_axis. simpl dimension.
  rewrite require_true by (apply Nat.eqb_eq; exact Hrow).
  rewrite !bind_Done.
  set (combination := map _ (seq 0 n)).
  assert (Hcombination : length combination = n)
    by (unfold combination; rewrite length_map, length_seq; reflexivity).
  unfold chip0_assign.
  rewrite require_true
    by (apply andb_true_iff; split;
        [apply Nat.ltb_lt; lia|apply Nat.eqb_eq; lia]).
  rewrite !bind_Done. eexists. split; [reflexivity|]. simpl.
  split; [reflexivity|]. split; [reflexivity|]. split; [reflexivity|]. split.
  - intros k Hk. rewrite at2_tabulate2 by lia. rewrite Nat.eqb_refl.
    unfold combination, cell at 1. rewrite nth_map_seq by exact Hk.
    rewrite Hrow. apply sum_n_ext. intros j Hj. f_equal.
    + unfold row, cell. apply nth_map_seq. lia.
    + unfold along, at2, J. simpl data2. simpl dim0.
      apply cell_firstn_skipn. apply linear_index_bound; assumption.
  - intros r k Hr Hne Hk. rewrite at2_tabulate2 by lia.
    rewrite (proj2 (Nat.eqb_neq _ _) Hne). reflexivity.
Qed.

(** The loop over the samples, after [m] turns. *)
Lemma softmax_loop_rows
    (fp : ProbabilisticLayerForwardPropagation) (n : nat)
    (next : ProbabilisticLayerBackPropagation) :
  let D := probabilistic_delta next in
  let E := error_combinations_derivatives next in
  let buffer := data3 (probabilistic_activations_derivatives fp) in
  dim1 D = n -> dim0 D * (n * n) <= length buffer ->
  dim0 E = dim0 D -> dim1 E = n ->
  forall m, m <= dim0 D ->
  exists next',
    for_loop m (softmax_sample_step fp n (n * n)) next = Done next'
    /\ probabilistic_delta next' = D
    /\ dim0 (error_combinations_derivatives next') = dim0 E
    /\ dim1 (error_combinations_derivatives next') = dim1 E
    /\ (forall s k, s < m -> k < n ->
          at2 (error_combinations_derivatives next') s k
          = sum_n n (fun j => fmul (at2 D s j) (cell buffer (s * (n * n) + (j + n * k))))).
Proof.
  intros D E buffer HD1 Hlen HE0 HE1 m.
  induction m as [|m IH]; intros Hm.
  - exists next. split; [reflexivity|]. split; [reflexivity|].
    split; [reflexivity|]. split; [reflexivity|]. intros s k Hs. lia.
  - destruct IH as [mid [Hrun [HmidD [Hmid0 [Hmid1 Hrows]]]]]; [lia|].
    rewrite for_loop_S, Hrun, bind_Done.
    destruct (softmax_sample_step_row fp n m mid)
      as [next' [Hstep [HD' [H0' [H1' [Hrow Hother]]]]]].
    + rewrite HmidD. exact HD1.
    + rewrite HmidD. lia.
    + fold buffer. nia.
    + rewrite Hmid0, HmidD. exact HE0.
    + rewrite Hmid1. exact HE1.
    + exists next'. split; [exact Hstep|]. split; [congruence|].
      split; [congruence|]. split; [congruence|].
      intros s k Hs Hk. destruct (Nat.eq_dec s m) as [->|Hne].
      * rewrite Hrow by exact Hk. rewrite HmidD. reflexivity.
      * rewrite Hother by (try rewrite Hmid0, HE0; lia).
        apply Hrows; [lia|exact Hk].
Qed.


(** C3.  Next layer: probabilistic, more than one neuron, softmax.  If the
    column count of its delta, or the second or the third dimension of its
    activations-derivatives tensor, differs from its neuron count,
    [calculate_hidden_delta] throws.  If the three agree with it then, on
    buffers shaped for the batch, the call completes; for each sample [s]
    row [s] of the error combinations derivatives is row [s] of the next
    delta times the Jacobian matrix of sample [s] (the [s]-th block of
    [neurons x neurons] cells of the derivatives, column-major), and this
    layer's delta is the error combinations derivatives contracted with the
    transpose of the next layer's weights. *)
Theorem hidden_delta_next_softmax
    (next_fp : ProbabilisticLayerForwardPropagation) (pl : ProbabilisticLayer)
    (next_bp : ProbabilisticLayerBackPropagation)
    (bp : PerceptronLayerBackPropagation)
    (Hsoftmax : probabilistic_activation_function pl = Softmax)
    (Hmulti : probabilistic_neurons_number pl <> 1) :
  let n := probabilistic_neurons_number pl in
  let D := probabilistic_delta next_bp in
  let E := error_combinations_derivatives next_bp in
  let AD := probabilistic_activations_derivatives next_fp in
  let W := probabilistic_synaptic_weights pl in
  let jacobian s j k := cell (data3 AD) (s * (n * n) + (j + n * k)) in
  (dim1 D <> n \/ dim3_1 AD <> n \/ dim3_2 AD <> n ->
   throws (calculate_hidden_delta (ProbabilisticForward next_fp)
             (ProbabilisticBack pl next_bp) bp))
  /\ (dim1 D = n -> dim3_1 AD = n -> dim3_2 AD = n ->
      wf3 AD -> dim3_0 AD = dim0 D ->
      dim0 E = dim0 D -> dim1 E = n ->
      dim1 W = n -> dim0 (delta bp) = dim0 D -> dim1 (delta bp) = dim0 W ->
      exists next_bp' bp',
        calculate_hidden_delta (ProbabilisticForward next_fp)
          (ProbabilisticBack pl next_bp) bp
        = Done (ProbabilisticBack pl next_bp', bp')
        /\ probabilistic_delta next_bp' = D
        /\ (forall s k, s < dim0 D -> k < n ->
              at2 (error_combinations_derivatives next_bp') s k
              = dot_product n (row D s) (fun j => jacobian s j k))
        /\ dim0 (delta bp') = dim0 D /\ dim1 (delta bp') = dim0 W
        /\ (forall s i, s < dim0 D -> i < dim0 W ->
              at2 (delta bp') s i
              = dot_product n (row (error_combinations_derivatives next_bp') s)
                  (row W i))).
Proof.
  intros n D E AD W jacobian.
  unfold calculate_hidden_delta, calculate_hidden_delta_probabilistic.
  fold n D AD W. rewrite (proj2 (Nat.eqb_neq n 1) Hmulti), Hsoftmax.
  split.
  - intros Hbad.
    destruct (dim1 D =? n) eqn:H1; simpl; [|eexists; reflexivity].
    destruct (dim3_1 AD =? n) eqn:H2; simpl; [|eexists; reflexivity].
    destruct (dim3_2 AD =? n) eqn:H3; simpl; [|eexists; reflexivity].
    apply Nat.eqb_eq in H1, H2, H3. destruct Hbad as [Hbad|[Hbad|Hbad]]; contradiction.
  - intros H1 H2 H3 Hwf H0 HE0 HE1 HW Hb0 Hb1.
    rewrite H1, H2, H3, Nat.eqb_refl. simpl negb. cbv iota.
    destruct (softmax_loop_rows next_fp n next_bp) with (m := dim0 D)
      as [next' [Hloop [HD' [HE0' [HE1' Hrows]]]]]; try assumption.
    + fold AD D. unfold wf3, size3 in Hwf. rewrite Hwf, H0, H2, H3.
      rewrite Nat.mul_assoc. apply Nat.le_refl.
    + apply Nat.le_refl.
    + fold D n in Hloop. rewrite Hloop, bind_Done.
      rewrite contract_A_BT by (fold W; fold E in HE1'; congruence).
      rewrite bind_Done.
      rewrite assign_Done by (simpl; fold E in HE0'; congruence).
      rewrite !bind_Done. exists next'. eexists. split; [reflexivity|]. simpl.
      fold E in HE0', HE1'.
      split; [exact HD'|]. split.
      { intros s k Hs Hk. rewrite Hrows by assumption. apply sum_n_series. }
      split; [congruence|]. split; [reflexivity|].
      intros s i Hs Hi. rewrite at2_tabulate2 by (try rewrite HE0', HE0; assumption).
      rewrite HE1', HE1. apply sum_n_series.
Qed.


(* ====================================================================== *)
(** * Loops that write cells *)
(* ====================================================================== *)

Lemma bind_assoc {A B C : Type} (m : outcome A) (f : A -> outcome B)
    (g : B -> outcome C) :
  bind (bind m f) g = bind m (fun a => bind (f a) g).
Proof. destruct m; reflexivity. Qed.

Lemma bind_ext {A B : Type} (m : outcome A) (f g : A -> outcome B) :
  (forall a, f a = g a) -> bind m f = bind m g.
Proof. intros Hfg. destruct m; simpl; auto. Qed.

Lemma fold_bind_start {X S : Type} (xs : list X) (body : X -> S -> outcome S)
    (m : outcome S) :
  fold_left (fun acc x => bind acc (body x)) xs m = bind m (for_each xs body).
Proof.
  revert m. induction xs as [|x xs IH]; intros m.
  - destruct m; reflexivity.
  - simpl. rewrite IH. destruct m; simpl; try reflexivity.
    unfold for_each. simpl. rewrite IH. reflexivity.
Qed.

Lemma for_each_cons {X S : Type} (x : X) (xs : list X) (body : X -> S -> outcome S)
    (s : S) :
  for_each (x :: xs) body s = bind (body x s) (for_each xs body).
Proof. unfold for_each at 1. simpl. apply fold_bind_start. Qed.

Lemma for_each_app {X S : Type} (xs ys : list X) (body : X -> S -> outcome S) (s : S) :
  for_each (xs ++ ys) body s = bind (for_each xs body s) (for_each ys body).
Proof.
  unfold for_each at 1. rewrite fold_left_app. fold (for_each xs body s).
  apply fold_bind_start.
Qed.

Lemma for_each_ext {X S : Type} (xs : list X) (f g : X -> S -> outcome S) (s : S) :
  (forall x s', In x xs -> f x s' = g x s') -> for_each xs f s = for_each xs g s.
Proof.
  revert s. induction xs as [|x xs IH]; intros s Hfg; [reflexivity|].
  rewrite !for_each_cons. rewrite Hfg by (left; reflexivity).
  apply bind_ext. intros a. apply IH. intros y s' Hy. apply Hfg. right. exact Hy.
Qed.

Lemma for_each_map {X Y S : Type} (h : X -> Y) (xs : list X)
    (body : Y -> S -> outcome S) (s : S) :
  for_each (map h xs) body s = for_each xs (fun x => body (h x)) s.
Proof.
  revert s. induction xs as [|x xs IH]; intros s; [reflexivity|].
  simpl map. rewrite !for_each_cons. apply bind_ext. exact IH.
Qed.

Lemma for_loop_for_each {S : Type} (n : nat) (body : nat -> S -> outcome S) (s : S) :
  for_loop n body s = for_each (seq 0 n) body s.
Proof. reflexivity. Qed.

(** Two nested loops visit the pairs of indices in lexicographic order. *)
Lemma nested_for_each {X Y S : Type} (xs : list X) (ys : list Y)
    (body : X -> Y -> S -> outcome S) (s : S) :
  for_each xs (fun x s' => for_each ys (body x) s') s
  = for_each (list_prod xs ys) (fun p => body (fst p) (snd p)) s.
Proof.
  revert s. induction xs as [|x xs IH]; intros s; [reflexivity|].
  simpl list_prod. rewrite for_each_cons, for_each_app, for_each_map. simpl.
  apply bind_ext. exact IH.
Qed.

Lemma NoDup_list_prod {X Y : Type} (xs : list X) (ys : list Y) :
  NoDup xs -> NoDup ys -> NoDup (list_prod xs ys).
Proof.
  intros Hxs Hys. induction Hxs as [|x xs Hx _ IH]; [constructor|].
  simpl. apply NoDup_app.
  - apply NoDup_map_NoDup_ForallPairs; [|exact Hys].
    intros a b _ _ Hab. injection Hab. auto.
  - exact IH.
  - intros [a b] Hin Hin'. apply in_map_iff in Hin. destruct Hin as [y [Hy _]].
    injection Hy as <- _. apply in_prod_iff in Hin'. destruct Hin' as [Hin' _].
    contradiction.
Qed.

Lemma load_Done (buf : list type) (i : nat) :
  i < length buf -> load buf i = Done (cell buf i).
Proof.
  intros Hi. unfold load. rewrite require_true by (apply Nat.ltb_lt; exact Hi).
  reflexivity.
Qed.

Lemma store_Done (buf : list type) (i : nat) (v : type) :
  i < length buf -> store buf i v = Done (fill_n buf i 1 v).
Proof.
  intros Hi. unfold store. rewrite require_true by (apply Nat.ltb_lt; exact Hi).
  reflexivity.
Qed.

Lemma length_fill_1 (buf : list type) (i : nat) (v : type) :
  i < length buf -> length (fill_n buf i 1 v) = length buf.
Proof.
  intros Hi. unfold fill_n. rewrite !length_app, length_firstn, length_skipn. simpl. lia.
Qed.

Lemma cell_fill_1_same (buf : list type) (i : nat) (v : type) :
  i < length buf -> cell (fill_n buf i 1 v) i = v.
Proof.
  intros Hi. unfold fill_n. rewrite <- (Nat.add_0_r i) at 3.
  rewrite cell_app_at by (rewrite length_firstn; lia). reflexivity.
Qed.

Lemma cell_fill_1_other (buf : list type) (i k : nat) (v : type) :
  i < length buf -> k <> i -> cell (fill_n buf i 1 v) k = cell buf k.
Proof.
  intros Hi Hk. unfold fill_n.
  assert (Ha : length (firstn i buf) = i) by (rewrite length_firstn; lia).
  destruct (Nat.lt_ge_cases k i) as [Hlt|Hge].
  - rewrite cell_app_l by lia. unfold cell. rewrite nth_firstn.
    rewrite (proj2 (Nat.ltb_lt _ _) Hlt). reflexivity.
  - replace k with (i + (1 + (k - (i + 1)))) at 1 by lia.
    rewrite cell_app_at by exact Ha. simpl repeat.
    rewrite (cell_app_at [v]) by reflexivity.
    unfold cell. rewrite nth_skipn. f_equal. lia.
Qed.

(** A loop whose steps each rewrite one cell, no cell twice: every visited
    cell ends up with its update, every other cell is left as it was. *)
Lemma for_each_updates {X S : Type} (wrap : list type -> S) (xs : list X)
    (pos : X -> nat) (upd : X -> type -> type) (step : X -> S -> outcome S)
    (size : nat) :
  NoDup (map pos xs) ->
  (forall x, In x xs -> pos x < size) ->
  (forall x d, In x xs -> length d = size ->
     step x (wrap d) = Done (wrap (fill_n d (pos x) 1 (upd x (cell d (pos x)))))) ->
  forall d0, length d0 = size ->
  exists d',
    for_each xs step (wrap d0) = Done (wrap d')
    /\ length d' = size
    /\ (forall x, In x xs -> cell d' (pos x) = upd x (cell d0 (pos x)))
    /\ (forall k, ~ In k (map pos xs) -> cell d' k = cell d0 k).
Proof.
  induction xs as [|x xs IH]; intros Hnodup Hpos Hstep d0 Hd0.
  - exists d0. split; [reflexivity|]. split; [exact Hd0|]. split; [intros x []|auto].
  - simpl in Hnodup. apply NoDup_cons_iff in Hnodup. destruct Hnodup as [Hfresh Hnodup].
    rewrite for_each_cons, Hstep by (try (left; reflexivity); exact Hd0).
    rewrite bind_Done.
    set (d1 := fill_n d0 (pos x) 1 (upd x (cell d0 (pos x)))).
    assert (Hx : pos x < length d0) by (rewrite Hd0; apply Hpos; left; reflexivity).
    assert (Hd1 : length d1 = size) by (unfold d1; rewrite length_fill_1; assumption).
    destruct (IH Hnodup) with (d0 := d1) as [d' [Hrun [Hlen [Hcells Hframe]]]].
    + intros y Hy. apply Hpos. right. exact Hy.
    + intros y d Hy Hd. apply Hstep; [right; exact Hy|exact Hd].
    + exact Hd1.
    + exists d'. split; [exact Hrun|]. split; [exact Hlen|]. split.
      * intros y [<-|Hy].
        -- rewrite Hframe by exact Hfresh. unfold d1. apply cell_fill_1_same. exact Hx.
        -- rewrite Hcells by exact Hy. f_equal. unfold d1.
           apply cell_fill_1_other; [exact Hx|].
           intros Heq. apply Hfresh. rewrite <- Heq. apply in_map. exact Hy.
      * intros k Hk. rewrite Hframe by (intros Hin; apply Hk; right; exact Hin).
        unfold d1. apply cell_fill_1_other; [exact Hx|].
        intros Heq. apply Hk. left. symmetry. exact Heq.
Qed.

(** Column-major positions of distinct in-range index pairs are distinct. *)
Lemma column_major_injective (d0 i j i' j' : nat) :
  i < d0 -> i' < d0 -> i + d0 * j = i' + d0 * j' -> i = i' /\ j = j'.
Proof.
  intros Hi Hi' Heq.
  assert (Hj : j = j').
  { destruct (Nat.lt_trichotomy j j') as [Hlt|[Heqj|Hgt]]; [exfalso|exact Heqj|exfalso].
    - assert (d0 * j + d0 <= d0 * j') by nia. lia.
    - assert (d0 * j' + d0 <= d0 * j) by nia. lia. }
  subst j'. split; [lia|reflexivity].
Qed.

Lemma NoDup_row_major_walk (d0 d1 : nat) :
  NoDup (map (fun p => fst p + d0 * snd p) (list_prod (seq 0 d0) (seq 0 d1))).
Proof.
  apply NoDup_map_NoDup_ForallPairs.
  - intros [i j] [i' j'] Hp Hp' Heq. simpl in Heq.
    apply in_prod_iff in Hp, Hp'. rewrite !in_seq in Hp, Hp'.
    destruct (column_major_injective d0 i j i' j') as [-> ->]; [lia|lia|exact Heq|].
    reflexivity.
  - apply NoDup_list_prod; apply seq_NoDup.
Qed.

Lemma NoDup_column_major_walk (d0 d1 : nat) :
  NoDup (map (fun p => snd p + d0 * fst p) (list_prod (seq 0 d1) (seq 0 d0))).
Proof.
  apply NoDup_map_NoDup_ForallPairs.
  - intros [j i] [j' i'] Hp Hp' Heq. simpl in Heq.
    apply in_prod_iff in Hp, Hp'. rewrite !in_seq in Hp, Hp'.
    destruct (column_major_injective d0 i j i' j') as [-> ->]; [lia|lia|exact Heq|].
    reflexivity.
  - apply NoDup_list_prod; apply seq_NoDup.
Qed.


(* ====================================================================== *)
(** * Properties of the other tensor utilities *)
(* ====================================================================== *)

Lemma in_pairs (n m i j : nat) :
  In (i, j) (list_prod (seq 0 n) (seq 0 m)) <-> i < n /\ j < m.
Proof. rewrite in_prod_iff, !in_seq. lia. Qed.

(** X1.  [multiply_rows] completes on a vector with at least as many entries
    as the matrix has columns; it keeps the shape and multiplies the entry
    at row [i] and column [j] by [vector(j)]: each column is scaled by its
    own entry of the vector. *)
Theorem multiply_rows_scales_columns (matrix : Tensor2) (vector : list type)
    (Hwf : wf2 matrix) (Hvector : dim1 matrix <= length vector) :
  exists m',
    multiply_rows matrix vector = Done m'
    /\ dim0 m' = dim0 matrix /\ dim1 m' = dim1 matrix /\ wf2 m'
    /\ forall i j, i < dim0 matrix -> j < dim1 matrix ->
         at2 m' i j = fmul (at2 matrix i j) (cell vector j).
Proof.
  destruct matrix as [r c d]. unfold wf2, size2 in Hwf. simpl in *.
  unfold multiply_rows. simpl dim0. simpl dim1.
  rewrite for_loop_for_each.
  rewrite (for_each_ext _ _
             (fun i m =>
                for_each (seq 0 c)
                  (fun j m0 =>
                     (x <- load2 m0 i j ;; v <- load vector j ;;
                      store2 m0 i j (fmul x v))%outcome) m))
    by reflexivity.
  rewrite nested_for_each.
  destruct (for_each_updates (mkTensor2 r c) (list_prod (seq 0 r) (seq 0 c))
              (fun p => fst p + r * snd p)
              (fun p x => fmul x (cell vector (snd p)))
              (fun p m0 =>
                 (x <- load2 m0 (fst p) (snd p) ;; v <- load vector (snd p) ;;
                  store2 m0 (fst p) (snd p) (fmul x v))%outcome)
              (r * c) (NoDup_row_major_walk r c))
    with (d0 := d) as [d' [Hrun [Hlen [Hcells _]]]].
  - intros [i j] Hp. apply in_pairs in Hp. simpl. apply linear_index_bound; lia.
  - intros [i j] d1 Hp Hd1. apply in_pairs in Hp. simpl.
    assert (Hidx : i + r * j < length d1)
      by (rewrite Hd1; apply linear_index_bound; lia).
    unfold load2, store2. simpl.
    rewrite load_Done by exact Hidx. rewrite bind_Done.
    rewrite load_Done by lia. rewrite bind_Done.
    rewrite store_Done by exact Hidx. reflexivity.
  - exact Hwf.
  - exists (mkTensor2 r c d'). split; [exact Hrun|]. simpl.
    split; [reflexivity|]. split; [reflexivity|]. split; [exact Hlen|].
    intros i j Hi Hj. unfold at2; simpl.
    apply (Hcells (i, j)). apply in_pairs. lia.
Qed.

(** X2.  [divide_columns] completes on a vector with at least as many
    entries as the matrix has rows; it keeps the shape and divides the entry
    at row [i] and column [j] by [vector(i)], or by one where [vector(i)]
    compares equal to zero: each row is divided by its own entry of the
    vector, and no entry is divided by a zero of the vector. *)
Theorem divide_columns_divides_rows (matrix : Tensor2) (vector : list type)
    (Hwf : wf2 matrix) (Hvector : dim0 matrix <= length vector) :
  exists m',
    divide_columns matrix vector = Done m'
    /\ dim0 m' = dim0 matrix /\ dim1 m' = dim1 matrix /\ wf2 m'
    /\ (forall i j, i < dim0 matrix -> j < dim1 matrix ->
          at2 m' i j
          = fdiv (at2 matrix i j)
              (if feqb (cell vector i) fzero then fone else cell vector i))
    /\ (forall i j, i < dim0 matrix -> j < dim1 matrix ->
          feqb (cell vector i) fzero = true ->
          at2 m' i j = fdiv (at2 matrix i j) fone).
Proof.
  destruct matrix as [r c d]. unfold wf2, size2 in Hwf. simpl in *.
  unfold divide_columns. simpl dim0. simpl dim1.
  rewrite for_loop_for_each.
  rewrite (for_each_ext _ _
             (fun j m =>
                for_each (seq 0 r)
                  (fun i m0 =>
                     (x <- load2 m0 i j ;; v <- load vector i ;;
                      store2 m0 i j (fdiv x (if feqb v fzero then fone else v)))%outcome) m))
    by reflexivity.
  rewrite nested_for_each.
  destruct (for_each_updates (mkTensor2 r c) (list_prod (seq 0 c) (seq 0 r))
              (fun p => snd p + r * fst p)
              (fun p x =>
                 fdiv x (if feqb (cell vector (snd p)) fzero
                         then fone else cell vector (snd p)))
              (fun p m0 =>
                 (x <- load2 m0 (snd p) (fst p) ;; v <- load vector (snd p) ;;
                  store2 m0 (snd p) (fst p)
                    (fdiv x (if feqb v fzero then fone else v)))%outcome)
              (r * c) (NoDup_column_major_walk r c))
    with (d0 := d) as [d' [Hrun [Hlen [Hcells _]]]].
  - intros [j i] Hp. apply in_pairs in Hp. simpl. apply linear_index_bound; lia.
  - intros [j i] d1 Hp Hd1. apply in_pairs in Hp. simpl.
    assert (Hidx : i + r * j < length d1)
      by (rewrite Hd1; apply linear_index_bound; lia).
    unfold load2, store2. simpl.
    rewrite load_Done by exact Hidx. rewrite bind_Done.
    rewrite load_Done by lia. rewrite bind_Done.
    rewrite store_Done by exact Hidx. reflexivity.
  - exact Hwf.
  - assert (Hentries : forall i j, i < r -> j < c ->
              at2 (mkTensor2 r c d') i j
              = fdiv (at2 (mkTensor2 r c d) i j)
                  (if feqb (cell vector i) fzero then fone else cell vector i)).
    { intros i j Hi Hj. unfold at2; simpl.
      apply (Hcells (j, i)). apply in_pairs. lia. }
    exists (mkTensor2 r c d'). split; [exact Hrun|]. simpl.
    split; [reflexivity|]. split; [reflexivity|]. split; [exact Hlen|].
    split; [exact Hentries|].
    intros i j Hi Hj Hzero. rewrite Hentries by assumption. rewrite Hzero. reflexivity.
Qed.

Lemma NoDup_diagonal_walk (r : nat) : NoDup (map (fun i => i + r * i) (seq 0 r)).
Proof.
  apply NoDup_map_NoDup_ForallPairs; [|apply seq_NoDup].
  intros i i' Hi Hi' Heq. apply in_seq in Hi, Hi'.
  apply (column_major_injective r i i i' i'); [lia|lia|exact Heq].
Qed.

(** X3.  On a matrix with at least as many columns as rows, [sum_diagonal]
    completes, keeps the shape, adds the value to every entry of the main
    diagonal and leaves every other entry as it was. *)
Theorem sum_diagonal_adds_to_diagonal_only (matrix : Tensor2) (value : type)
    (Hwf : wf2 matrix) (Hwide : dim0 matrix <= dim1 matrix) :
  exists m',
    sum_diagonal matrix value = Done m'
    /\ dim0 m' = dim0 matrix /\ dim1 m' = dim1 matrix /\ wf2 m'
    /\ forall i j, i < dim0 matrix -> j < dim1 matrix ->
         at2 m' i j = if i =? j then fadd (at2 matrix i j) value else at2 matrix i j.
Proof.
  destruct matrix as [r c d]. unfold wf2, size2 in Hwf. simpl in *.
  unfold sum_diagonal. simpl dim0. rewrite for_loop_for_each.
  destruct (for_each_updates (mkTensor2 r c) (seq 0 r)
              (fun i => i + r * i) (fun _ x => fadd x value)
              (fun i m0 => (x <- load2 m0 i i ;; store2 m0 i i (fadd x value))%outcome)
              (r * c) (NoDup_diagonal_walk r))
    with (d0 := d) as [d' [Hrun [Hlen [Hcells Hframe]]]].
  - intros i Hi. apply in_seq in Hi. apply linear_index_bound; lia.
  - intros i d1 Hi Hd1. apply in_seq in Hi.
    assert (Hidx : i + r * i < length d1)
      by (rewrite Hd1; apply linear_index_bound; lia).
    unfold load2, store2. simpl.
    rewrite load_Done by exact Hidx. rewrite bind_Done.
    rewrite store_Done by exact Hidx. reflexivity.
  - exact Hwf.
  - exists (mkTensor2 r c d'). split; [exact Hrun|]. simpl.
    split; [reflexivity|]. split; [reflexivity|]. split; [exact Hlen|].
    intros i j Hi Hj. unfold at2; simpl.
    destruct (Nat.eqb_spec i j) as [<-|Hne].
    + apply (Hcells i). apply in_seq. lia.
    + apply Hframe. intros Hin. apply in_map_iff in Hin.
      destruct Hin as [k [Heq Hk]]. apply in_seq in Hk.
      destruct (column_major_injective r k k i j) as [-> ->]; [lia|lia|exact Heq|].
      apply Hne. reflexivity.
Qed.

(** X4.  [fill_submatrix] completes when the row and column indices lie
    inside the matrix and the destination has room for the submatrix; cell
    [(i, j)] of the submatrix, in column-major order, receives the entry of
    the matrix at row [rows_indices[i]] and column [columns_indices[j]], and
    the cells of the destination past the submatrix are left as they
    were. *)
Theorem fill_submatrix_selects_entries (matrix : Tensor2)
    (rows_indices columns_indices : list nat) (submatrix : list type)
    (Hwf : wf2 matrix)
    (Hrows : forall i, i < length rows_indices -> nth i rows_indices 0 < dim0 matrix)
    (Hcolumns : forall j, j < length columns_indices ->
                          nth j columns_indices 0 < dim1 matrix)
    (Hroom : length rows_indices * length columns_indices <= length submatrix) :
  exists sub',
    fill_submatrix matrix rows_indices columns_indices submatrix = Done sub'
    /\ length sub' = length submatrix
    /\ (forall i j, i < length rows_indices -> j < length columns_indices ->
          cell sub' (i + length rows_indices * j)
          = at2 matrix (nth i rows_indices 0) (nth j columns_indices 0))
    /\ (forall k, length rows_indices * length columns_indices <= k ->
          cell sub' k = cell submatrix k).
Proof.
  unfold fill_submatrix.
  set (rows := length rows_indices) in *. set (columns := length columns_indices) in *.
  rewrite for_loop_for_each.
  rewrite (for_each_ext _ _
             (fun j sub =>
                for_each (seq 0 rows)
                  (fun i sub0 =>
                     (x <- load (data2 matrix)
                            (dim0 matrix * nth j columns_indices 0 + nth i rows_indices 0) ;;
                      store sub0 (rows * j + i) x)%outcome) sub))
    by reflexivity.
  rewrite nested_for_each.
  destruct (for_each_updates (fun d => d) (list_prod (seq 0 columns) (seq 0 rows))
              (fun p => snd p + rows * fst p)
              (fun p _ =>
                 at2 matrix (nth (snd p) rows_indices 0) (nth (fst p) columns_indices 0))
              (fun p sub0 =>
                 (x <- load (data2 matrix)
                        (dim0 matrix * nth (fst p) columns_indices 0
                         + nth (snd p) rows_indices 0) ;;
                  store sub0 (rows * fst p + snd p) x)%outcome)
              (length submatrix) (NoDup_column_major_walk rows columns))
    with (d0 := submatrix) as [d' [Hrun [Hlen [Hcells Hframe]]]].
  - intros [j i] Hp. apply in_pairs in Hp. simpl.
    apply Nat.lt_le_trans with (rows * columns); [|exact Hroom].
    apply linear_index_bound; lia.
  - intros [j i] d1 Hp Hd1. apply in_pairs in Hp. simpl.
    assert (Hsrc : dim0 matrix * nth j columns_indices 0 + nth i rows_indices 0
                   < length (data2 matrix)).
    { unfold wf2, size2 in Hwf. rewrite Hwf, Nat.add_comm.
      apply linear_index_bound; [apply Hrows|apply Hcolumns]; lia. }
    rewrite load_Done by exact Hsrc. rewrite bind_Done.
    assert (Hdst : rows * j + i < length d1).
    { rewrite Hd1, Nat.add_comm.
      apply Nat.lt_le_trans with (rows * columns); [|exact Hroom].
      apply linear_index_bound; lia. }
    rewrite store_Done by exact Hdst.
    rewrite (Nat.add_comm (rows * j) i). unfold at2.
    rewrite (Nat.add_comm (dim0 matrix * _) _). reflexivity.
  - reflexivity.
  - exists d'. split; [exact Hrun|]. split; [exact Hlen|]. split.
    + intros i j Hi Hj. apply (Hcells (j, i)). apply in_pairs. lia.
    + intros k Hk. apply Hframe. intros Hin. apply in_map_iff in Hin.
      destruct Hin as [[j i] [Heq Hp]]. apply in_pairs in Hp. simpl in Heq.
      assert (i + rows * j < rows * columns) by (apply linear_index_bound; lia).
      lia.
Qed.


Lemma for_each_seq_shift_from {S : Type} (m a b : nat) (body : nat -> S -> outcome S)
    (s : S) :
  for_each (seq (a + b) m) body s = for_each (seq b m) (fun j => body (a + j)) s.
Proof.
  revert s b. induction m as [|m IH]; intros s b; [reflexivity|].
  simpl seq. rewrite !for_each_cons. apply bind_ext. intros s'.
  replace (Datatypes.S (a + b)) with (a + Datatypes.S b) by lia. apply IH.
Qed.

Lemma for_each_seq_shift {S : Type} (m a : nat) (body : nat -> S -> outcome S) (s : S) :
  for_each (seq a m) body s = for_each (seq 0 m) (fun j => body (a + j)) s.
Proof.
  rewrite <- (for_each_seq_shift_from m a 0). rewrite Nat.add_0_r. reflexivity.
Qed.

Lemma for_each_seq_split {S : Type} (n m : nat) (body : nat -> S -> outcome S) (s : S) :
  for_each (seq 0 (n + m)) body s
  = bind (for_each (seq 0 n) body s) (for_each (seq 0 m) (fun j => body (n + j))).
Proof.
  rewrite seq_app, for_each_app. apply bind_ext. intros s'.
  apply for_each_seq_shift.
Qed.

Lemma bind_Done_inv {A B : Type} (m : outcome A) (k : A -> outcome B) (b : B) :
  bind m k = Done b -> exists a, m = Done a /\ k a = Done b.
Proof. destruct m as [a| |]; simpl; intros Hk; try discriminate. exists a. auto. Qed.

(** A loop that completes has completed every one of its turns. *)
Lemma for_each_Done_turn {X S : Type} (xs : list X) (body : X -> S -> outcome S)
    (s s' : S) (x : X) :
  for_each xs body s = Done s' -> In x xs -> exists s1 s2, body x s1 = Done s2.
Proof.
  revert s. induction xs as [|y xs IH]; intros s Hrun Hin; [destruct Hin|].
  rewrite for_each_cons in Hrun. apply bind_Done_inv in Hrun.
  destruct Hrun as [s1 [Hstep Hrest]]. destruct Hin as [->|Hin].
  - exists s, s1. exact Hstep.
  - apply (IH s1); assumption.
Qed.

Lemma load_Done_inv (buf : list type) (i : nat) (v : type) :
  load buf i = Done v -> i < length buf.
Proof.
  unfold load, require. destruct (i <? length buf) eqn:Hi; simpl; [|discriminate].
  intros _. apply Nat.ltb_lt. exact Hi.
Qed.

(** X5.  [assemble_matrix_matrix(x, y)] completes when [y] has at least the
    rows of [x]; the result has the rows of [x] and the columns of both, its
    left block is [x] and its right block is the top rows of [y]. *)
Theorem assemble_matrix_matrix_blocks (x y : Tensor2)
    (Hx : wf2 x) (Hy : wf2 y) (Hrows : dim0 x <= dim0 y) :
  exists data,
    assemble_matrix_matrix x y = Done data
    /\ dim0 data = dim0 x /\ dim1 data = dim1 x + dim1 y /\ wf2 data
    /\ (forall i j, i < dim0 x -> j < dim1 x -> at2 data i j = at2 x i j)
    /\ (forall i j, i < dim0 x -> j < dim1 y -> at2 data i (dim1 x + j) = at2 y i j).
Proof.
  unfold assemble_matrix_matrix, fresh2.
  set (rows := dim0 x). set (cx := dim1 x). set (cy := dim1 y).
  set (combined := fun (i c : nat) (data : Tensor2) =>
         if c <? cx
         then (a <- load2 x i c ;; store2 data i c a)%outcome
         else (b <- load2 y i (c - cx) ;; store2 data i c b)%outcome).
  rewrite for_loop_for_each.
  rewrite (for_each_ext _ _ (fun i data => for_each (seq 0 (cx + cy)) (combined i) data)).
  2:{ intros i data _. rewrite for_each_seq_split. unfold for_loop.
      fold (for_each (seq 0 cx)
              (fun j data0 => (a <- load2 x i j ;; store2 data0 i j a)%outcome) data).
      rewrite (for_each_ext (seq 0 cx) _ (combined i)).
      - apply bind_ext. intros data1.
        fold (for_each (seq 0 cy)
                (fun j data0 => (b <- load2 y i j ;; store2 data0 i (cx + j) b)%outcome)
                data1).
        apply for_each_ext. intros j data2 _. unfold combined.
        rewrite (proj2 (Nat.ltb_ge _ _)) by lia.
        replace (cx + j - cx) with j by lia. reflexivity.
      - intros j data1 Hj. apply in_seq in Hj. unfold combined.
        rewrite (proj2 (Nat.ltb_lt _ _)) by lia. reflexivity. }
  rewrite nested_for_each.
  destruct (for_each_updates (mkTensor2 rows (cx + cy))
              (list_prod (seq 0 rows) (seq 0 (cx + cy)))
              (fun p => fst p + rows * snd p)
              (fun p _ => if snd p <? cx
                          then at2 x (fst p) (snd p)
                          else at2 y (fst p) (snd p - cx))
              (fun p data => combined (fst p) (snd p) data)
              (rows * (cx + cy)) (NoDup_row_major_walk rows (cx + cy)))
    with (d0 := repeat indeterminate (rows * (cx + cy)))
    as [d' [Hrun [Hlen [Hcells _]]]].
  - intros [i c] Hp. apply in_pairs in Hp. simpl. apply linear_index_bound; lia.
  - intros [i c] d1 Hp Hd1. apply in_pairs in Hp. simpl. unfold combined.
    assert (Hidx : i + rows * c < length d1)
      by (rewrite Hd1; apply linear_index_bound; lia).
    unfold wf2, size2 in Hx, Hy. fold rows cx in Hx. fold cy in Hy.
    destruct (c <? cx) eqn:Hc.
    + apply Nat.ltb_lt in Hc. unfold load2, store2. simpl. fold rows.
      rewrite load_Done by (rewrite Hx; apply linear_index_bound; lia).
      rewrite bind_Done. rewrite store_Done by exact Hidx. reflexivity.
    + apply Nat.ltb_ge in Hc. unfold load2, store2. simpl.
      rewrite load_Done by (rewrite Hy; apply linear_index_bound; lia).
      rewrite bind_Done. rewrite store_Done by exact Hidx. reflexivity.
  - apply repeat_length.
  - exists (mkTensor2 rows (cx + cy) d'). split; [exact Hrun|]. simpl.
    split; [reflexivity|]. split; [reflexivity|]. split; [exact Hlen|]. split.
    + intros i j Hi Hj. unfold at2 at 1; simpl.
      etransitivity; [apply (Hcells (i, j)); apply in_pairs; lia|]. simpl.
      rewrite (proj2 (Nat.ltb_lt _ _)) by exact Hj. reflexivity.
    + intros i j Hi Hj. unfold at2 at 1; simpl.
      etransitivity; [apply (Hcells (i, cx + j)); apply in_pairs; lia|]. simpl.
      rewrite (proj2 (Nat.ltb_ge _ _)) by lia.
      replace (cx + j - cx) with j by lia. reflexivity.
Qed.

(** X6.  [assemble_matrix_vector(x, y)] takes its row count from [x.size()].
    For a matrix [x] of one column and a vector [y] with at least as many
    entries as [x] has rows, it completes and returns [x] with [y] as a
    second column.  For a matrix with two columns or more, and a row at
    least, it does not complete: the last turn of its loops reads [x]
    outside its storage. *)
Theorem assemble_matrix_vector_single_column_only (x : Tensor2) (y : list type)
    (Hx : wf2 x) :
  (dim1 x = 1 -> dim0 x <= length y ->
   exists data,
     assemble_matrix_vector x y = Done data
     /\ dim0 data = dim0 x /\ dim1 data = 2 /\ wf2 data
     /\ forall i, i < dim0 x ->
          at2 data i 0 = at2 x i 0 /\ at2 data i 1 = cell y i)
  /\ (2 <= dim1 x -> 1 <= dim0 x ->
      forall data, assemble_matrix_vector x y <> Done data).
Proof.
  split.
  - intros Hone Hy. unfold assemble_matrix_vector, fresh2.
    assert (Hsize : size2 x = dim0 x) by (unfold size2; rewrite Hone; lia).
    rewrite Hsize, Hone. set (rows := dim0 x). simpl Nat.add. simpl Nat.sub.
    set (combined := fun (i c : nat) (data : Tensor2) =>
           if c <? 1
           then (a <- load2 x i c ;; store2 data i c a)%outcome
           else (b <- load y i ;; store2 data i 1 b)%outcome).
    rewrite for_loop_for_each.
    rewrite (for_each_ext _ _ (fun i data => for_each (seq 0 2) (combined i) data))
      by reflexivity.
    rewrite nested_for_each.
    destruct (for_each_updates (mkTensor2 rows 2)
                (list_prod (seq 0 rows) (seq 0 2))
                (fun p => fst p + rows * snd p)
                (fun p _ => if snd p <? 1 then at2 x (fst p) (snd p) else cell y (fst p))
                (fun p data => combined (fst p) (snd p) data)
                (rows * 2) (NoDup_row_major_walk rows 2))
      with (d0 := repeat indeterminate (rows * 2))
      as [d' [Hrun [Hlen [Hcells _]]]].
    + intros [i c] Hp. apply in_pairs in Hp. simpl. apply linear_index_bound; lia.
    + intros [i c] d1 Hp Hd1. apply in_pairs in Hp. simpl. unfold combined.
      assert (Hidx : i + rows * c < length d1)
        by (rewrite Hd1; apply linear_index_bound; lia).
      unfold wf2 in Hx. rewrite Hsize in Hx. fold rows in Hx.
      destruct c as [|[|c]]; [| |lia]; simpl.
      * unfold load2, store2. simpl. fold rows.
        rewrite load_Done by (rewrite Hx; lia).
        rewrite bind_Done. rewrite store_Done by exact Hidx. reflexivity.
      * unfold store2. simpl. rewrite load_Done by lia.
        rewrite bind_Done. rewrite store_Done by exact Hidx. reflexivity.
    + apply repeat_length.
    + exists (mkTensor2 rows 2 d'). split; [exact Hrun|]. simpl.
      split; [reflexivity|]. split; [reflexivity|]. split; [exact Hlen|].
      intros i Hi. split; unfold at2 at 1; simpl.
      * apply (Hcells (i, 0)). apply in_pairs. lia.
      * apply (Hcells (i, 1)). apply in_pairs. lia.
  - intros Hcolumns Hrows data Hrun. unfold assemble_matrix_vector in Hrun.
    rewrite for_loop_for_each in Hrun.
    assert (Hpositive : 2 <= size2 x) by (unfold size2; nia).
    destruct (for_each_Done_turn _ _ _ _ (size2 x - 1) Hrun) as [s1 [s2 Hturn]];
      [apply in_seq; lia|].
    apply bind_Done_inv in Hturn. destruct Hturn as [s3 [Hinner _]].
    rewrite for_loop_for_each in Hinner.
    destruct (for_each_Done_turn _ _ _ _ (dim1 x - 1) Hinner) as [s4 [s5 Hread]];
      [apply in_seq; lia|].
    apply bind_Done_inv in Hread. destruct Hread as [a [Hload _]].
    apply load_Done_inv in Hload. unfold wf2 in Hx. rewrite Hx in Hload.
    unfold size2 in *. nia.
Qed.


Lemma forallb_agree {A : Type} (f g : A -> bool) (l : list A) :
  (forall x, In x l -> f x = g x) -> forallb f l = forallb g l.
Proof.
  induction l as [|x l IH]; intros Hfg; [reflexivity|]. simpl.
  rewrite Hfg by (left; reflexivity). f_equal. apply IH.
  intros y Hy. apply Hfg. right. exact Hy.
Qed.

Lemma are_equal_loop_in_range (positions : list nat) (a b : list type) (tolerance : type) :
  (forall i, In i positions -> i < length a /\ i < length b) ->
  are_equal_loop positions a b tolerance
  = Done (forallb (fun i => negb (fgtb (fabs (fsub (cell a i) (cell b i))) tolerance))
            positions).
Proof.
  induction positions as [|i rest IH]; intros Hrange; [reflexivity|].
  destruct (Hrange i (or_introl eq_refl)) as [Ha Hb].
  simpl. rewrite !load_Done by assumption. rewrite !bind_Done.
  destruct (fgtb (fabs (fsub (cell a i) (cell b i))) tolerance); simpl; [reflexivity|].
  apply IH. intros k Hk. apply Hrange. right. exact Hk.
Qed.

(** X7.  [are_equal] compares the second operand at the positions of the
    first only.  When the second vector is at least as long as the first,
    the call completes and returns true exactly when no position of the
    first vector differs by more than the tolerance; what the second vector
    holds past the length of the first is not looked at, and an empty first
    vector compares equal to any vector.  The matrix variant compares the
    storages in the same way and never the shapes. *)
Theorem are_equal_compares_prefix (vector_1 vector_2 : list type) (tolerance : type)
    (Hlength : length vector_1 <= length vector_2) :
  are_equal vector_1 vector_2 tolerance
  = Done (forallb
            (fun i => negb (fgtb (fabs (fsub (cell vector_1 i) (cell vector_2 i)))
                              tolerance))
            (seq 0 (length vector_1)))
  /\ (forall rest,
         are_equal vector_1 (vector_2 ++ rest) tolerance
         = are_equal vector_1 vector_2 tolerance)
  /\ (forall v, are_equal [] v tolerance = Done true)
  /\ (forall matrix_1 matrix_2 : Tensor2,
         wf2 matrix_1 ->
         are_equal_matrices matrix_1 matrix_2 tolerance
         = are_equal (data2 matrix_1) (data2 matrix_2) tolerance).
Proof.
  assert (Hrun : forall b, length vector_1 <= length b ->
             are_equal vector_1 b tolerance
             = Done (forallb
                       (fun i => negb (fgtb (fabs (fsub (cell vector_1 i) (cell b i)))
                                         tolerance))
                       (seq 0 (length vector_1)))).
  { intros b Hb. unfold are_equal. apply are_equal_loop_in_range.
    intros i Hi. apply in_seq in Hi. lia. }
  split; [apply Hrun; exact Hlength|]. split; [|split].
  - intros rest. rewrite !Hrun by (try rewrite length_app; lia). f_equal.
    apply forallb_agree. intros i Hi. apply in_seq in Hi.
    rewrite cell_app_l by lia. reflexivity.
  - reflexivity.
  - intros matrix_1 matrix_2 Hwf. unfold are_equal_matrices, are_equal.
    unfold wf2 in Hwf. rewrite Hwf. reflexivity.
Qed.

Lemma fold_left_map_arg {A B C : Type} (f : A -> C -> A) (h : B -> C) (l : list B)
    (a : A) :
  fold_left (fun acc x => f acc (h x)) l a = fold_left f (map h l) a.
Proof. revert a. induction l as [|x l IH]; intros a; simpl; auto. Qed.

Lemma count_from (x : list type) (n : nat) :
  fold_left (fun acc y => if fisnan y then S acc else acc) x n
  = n + length (filter fisnan x).
Proof.
  revert n. induction x as [|y x IH]; intros n; simpl; [lia|].
  rewrite IH. destruct (fisnan y); simpl; lia.
Qed.

Lemma count_NAN_filter (x : list type) : count_NAN x = length (filter fisnan x).
Proof.
  unfold count_NAN.
  rewrite (fold_left_map_arg (fun acc y => if fisnan y then S acc else acc) (cell x)).
  rewrite map_cell_seq by reflexivity. apply count_from.
Qed.

(** X8.  [scrub_missing_values] keeps the shape of the matrix, leaves every
    cell that is not NaN as it was and puts the value in every cell that is
    NaN; scrubbing twice is scrubbing once.  When the value is not NaN
    itself, [count_NAN] finds no NaN in the scrubbed storage.  [count_NAN]
    never exceeds the size of its vector and is zero exactly when no entry
    is NaN. *)
Theorem scrub_missing_values_removes_nan (matrix : Tensor2) (value : type) :
  let scrubbed := scrub_missing_values matrix value in
  dim0 scrubbed = dim0 matrix /\ dim1 scrubbed = dim1 matrix
  /\ length (data2 scrubbed) = length (data2 matrix)
  /\ (forall i, i < length (data2 matrix) ->
        lin2 scrubbed i = if fisnan (lin2 matrix i) then value else lin2 matrix i)
  /\ scrub_missing_values scrubbed value = scrubbed
  /\ (fisnan value = false -> count_NAN (data2 scrubbed) = 0)
  /\ (forall x : list type,
        count_NAN x <= length x
        /\ (count_NAN x = 0 <-> forall i, i < length x -> fisnan (cell x i) = false)).
Proof.
  intros scrubbed. subst scrubbed. unfold scrub_missing_values; simpl.
  split; [reflexivity|]. split; [reflexivity|]. split; [apply length_map|].
  split; [|split; [|split]].
  - intros i Hi. unfold lin2, cell; simpl.
    rewrite (nth_indep _ fzero (if fisnan fzero then value else fzero))
      by (rewrite length_map; exact Hi).
    apply (map_nth (fun x => if fisnan x then value else x)).
  - f_equal. rewrite map_map. apply map_ext. intros x.
    destruct (fisnan x) eqn:Hx; [|rewrite Hx; reflexivity].
    destruct (fisnan value); reflexivity.
  - intros Hvalue. rewrite count_NAN_filter.
    induction (data2 matrix) as [|x l IH]; [reflexivity|]. simpl.
    destruct (fisnan x) eqn:Hx; [rewrite Hvalue|rewrite Hx]; exact IH.
  - intros x. rewrite count_NAN_filter. split; [apply filter_length_le|].
    split.
    + intros Hzero i Hi. apply length_zero_iff_nil in Hzero.
      destruct (fisnan (cell x i)) eqn:Hnan; [|reflexivity].
      assert (Hin : In (cell x i) (filter fisnan x))
        by (apply filter_In; split; [apply nth_In; exact Hi|exact Hnan]).
      rewrite Hzero in Hin. destruct Hin.
    + intros Hnone. apply length_zero_iff_nil.
      destruct (filter fisnan x) as [|y l] eqn:Hfilter; [reflexivity|].
      assert (Hin : In y (filter fisnan x)) by (rewrite Hfilter; left; reflexivity).
      apply filter_In in Hin. destruct Hin as [Hin Hnan].
      destruct (In_nth x y fzero Hin) as [i [Hi Hy]].
      specialize (Hnone i Hi). unfold cell in Hnone. rewrite Hy in Hnone. congruence.
Qed.

(** X9.  When the L2 norm is not below [NUMERIC_LIMITS_MIN] (a NaN norm
    included), [l2_norm_gradient] needs a gradient of the size of the vector
    and [l2_norm_hessian] a square Hessian of that order: they then complete
    with [gradient(i) = vector(i)/norm] and
    [hessian(i,j) = vector(i)*vector(j)/norm^3]; on a buffer of another
    size the assignment is outside what Eigen defines. *)
Theorem l2_norm_derivatives_regular (vector gradient : list type) (hessian : Tensor2)
    (Hnorm : fltb (l2_norm vector) NUMERIC_LIMITS_MIN = false) :
  let n := length vector in
  let norm := l2_norm vector in
  (length gradient = n ->
   exists g, l2_norm_gradient vector gradient = Done g
     /\ length g = n
     /\ forall i, i < n -> cell g i = fdiv (cell vector i) norm)
  /\ (length gradient <> n -> l2_norm_gradient vector gradient = Undefined)
  /\ (dim0 hessian = n -> dim1 hessian = n ->
      exists h, l2_norm_hessian vector hessian = Done h
        /\ dim0 h = n /\ dim1 h = n
        /\ forall i j, i < n -> j < n ->
             at2 h i j
             = fdiv (fmul (cell vector i) (cell vector j)) (fmul (fmul norm norm) norm))
  /\ (dim0 hessian <> n \/ dim1 hessian <> n ->
      l2_norm_hessian vector hessian = Undefined).
Proof.
  intros n norm. unfold l2_norm_gradient, l2_norm_hessian. rewrite Hnorm. fold norm.
  split; [|split; [|split]].
  - intros Hg. rewrite assign1_Done by (rewrite length_map; exact Hg).
    eexists. split; [reflexivity|]. split; [apply length_map|].
    intros i Hi. unfold cell.
    rewrite (nth_indep _ fzero (fdiv fzero norm)) by (rewrite length_map; exact Hi).
    apply (map_nth (fun x => fdiv x norm)).
  - intros Hg. unfold assign1. rewrite length_map.
    rewrite (proj2 (Nat.eqb_neq (length gradient) (length vector)) Hg). reflexivity.
  - intros H0 H1. rewrite assign_Done by (simpl; assumption).
    eexists. split; [reflexivity|]. simpl. split; [reflexivity|]. split; [reflexivity|].
    intros i j Hi Hj. unfold at2 at 1, cwise_div_scalar; simpl. fold n. unfold cell at 1.
    rewrite (nth_indep _ fzero (fdiv fzero (fmul (fmul norm norm) norm))).
    + rewrite (map_nth (fun x => fdiv x (fmul (fmul norm norm) norm))). f_equal.
      apply (at2_tabulate2 n n (fun i j => fmul (cell vector i) (cell vector j)));
        assumption.
    + rewrite length_map.
      pose proof (wf2_tabulate2 n n (fun i j => fmul (cell vector i) (cell vector j)))
        as Hwf.
      unfold wf2, size2 in Hwf. simpl in Hwf. rewrite Hwf.
      apply linear_index_bound; assumption.
  - intros Hbad. unfold assign, same_shape; simpl. fold n.
    assert (Hshape : (dim0 hessian =? n) && (dim1 hessian =? n) = false).
    { apply andb_false_iff.
      destruct Hbad as [Hbad|Hbad]; [left|right]; apply Nat.eqb_neq; exact Hbad. }
    rewrite Hshape. reflexivity.
Qed.

(** X10.  Whatever [l2_norm_hessian] returns on a square Hessian buffer is a
    symmetric matrix, on scalars whose multiplication is commutative: the
    zero matrix of the guarded case, or [vector (x) vector / norm^3]. *)
Theorem l2_norm_hessian_symmetric
    (Hcomm : forall a b : type, fmul a b = fmul b a)
    (vector : list type) (hessian h : Tensor2)
    (Hsquare : dim0 hessian = dim1 hessian)
    (Hrun : l2_norm_hessian vector hessian = Done h) :
  dim0 h = dim1 h
  /\ forall i j, i < dim0 h -> j < dim0 h -> at2 h i j = at2 h j i.
Proof.
  destruct (fltb (l2_norm vector) NUMERIC_LIMITS_MIN) eqn:Hnorm.
  - unfold l2_norm_hessian in Hrun. rewrite Hnorm in Hrun. injection Hrun as <-.
    split; [exact Hsquare|]. intros i j _ _. rewrite !at2_setZero. reflexivity.
  - assert (Hshape : dim0 hessian = length vector /\ dim1 hessian = length vector).
    { destruct (Nat.eq_dec (dim0 hessian) (length vector)) as [H0|H0];
        [split; [exact H0|congruence]|].
      destruct (l2_norm_derivatives_regular vector [] hessian Hnorm)
        as [_ [_ [_ Hbad]]].
      rewrite Hbad in Hrun by (left; exact H0). discriminate. }
    destruct Hshape as [H0 H1].
    destruct (l2_norm_derivatives_regular vector [] hessian Hnorm)
      as [_ [_ [Hgood _]]].
    destruct (Hgood H0 H1) as [h' [Hrun' [Hh0 [Hh1 Hentries]]]].
    rewrite Hrun' in Hrun. injection Hrun as <-.
    split; [congruence|]. intros i j Hi Hj. rewrite Hh0 in Hi, Hj.
    rewrite !Hentries by assumption. rewrite (Hcomm (cell vector i)). reflexivity.
Qed.


(* ====================================================================== *)
(** * Properties of the other members of the layer *)
(* ====================================================================== *)

Lemma slice_Done (v : list type) (start n : nat) :
  start + n <= length v -> slice v start n = Done (firstn n (skipn start v)).
Proof.
  intros Hlen. unfold slice. rewrite require_true by (apply Nat.leb_le; exact Hlen).
  reflexivity.
Qed.

Lemma reshape2_Done (buffer : list type) (d0 d1 : nat) :
  length buffer = d0 * d1 -> reshape2 buffer d0 d1 = Done (mkTensor2 d0 d1 buffer).
Proof.
  intros Hlen. unfold reshape2. rewrite require_true by (apply Nat.eqb_eq; exact Hlen).
  reflexivity.
Qed.

(** X11.  On a shaped layer whose biases are one row, [get_biases] and
    [get_synaptic_weights] applied to the vector of [get_parameters] give
    back the biases and the synaptic weights of the layer.  On any vector
    long enough, [get_synaptic_weights] reads the last
    [synaptic_weights_number] entries: the weight from input [i] to neuron
    [n] is the entry [i + inputs*n] of that tail. *)
Theorem parameter_slices_round_trip (l : PerceptronLayer) (Hl : layer_shaped l) :
  (dim0 (biases l) = 1 ->
   get_biases l (get_parameters l) = Done (biases l)
   /\ get_synaptic_weights l (get_parameters l) = Done (synaptic_weights l))
  /\ (forall parameters,
         get_synaptic_weights_number l <= length parameters ->
         exists w,
           get_synaptic_weights l parameters = Done w
           /\ dim0 w = get_inputs_number l /\ dim1 w = get_neurons_number l
           /\ forall i n, i < get_inputs_number l -> n < get_neurons_number l ->
                at2 w i n
                = cell parameters
                    (length parameters - get_synaptic_weights_number l
                     + (i + get_inputs_number l * n))).
Proof.
  pose proof (weights_size l Hl) as Hsize. destruct Hl as [Hb [Hw Hcols]].
  unfold wf2 in Hb, Hw. split.
  - intros Hrow. rewrite get_parameters_flat by assumption. split.
    + unfold get_biases. rewrite slice_Done by (rewrite length_app; lia).
      rewrite bind_Done. simpl skipn. rewrite firstn_exact by exact Hb.
      rewrite reshape2_Done by (rewrite Hb; unfold size2; rewrite Hrow; reflexivity).
      destruct (biases l) as [b0 b1 bd]. simpl in *. subst b0. reflexivity.
    + unfold get_synaptic_weights, get_synaptic_weights_number.
      rewrite length_app.
      rewrite require_true by (apply Nat.leb_le; lia). rewrite bind_Done.
      replace (length (data2 (biases l)) + length (data2 (synaptic_weights l))
               - size2 (synaptic_weights l))
        with (length (data2 (biases l))) by lia.
      rewrite slice_Done by (rewrite length_app; lia). rewrite bind_Done.
      rewrite skipn_exact by reflexivity. rewrite <- Hw, firstn_all.
      rewrite reshape2_Done by (rewrite Hw; exact Hsize).
      unfold get_inputs_number, get_neurons_number. rewrite <- Hcols.
      destruct (synaptic_weights l) as [w0 w1 wd]. reflexivity.
  - intros parameters Hlen. unfold get_synaptic_weights.
    rewrite require_true by (apply Nat.leb_le; exact Hlen). rewrite bind_Done.
    rewrite slice_Done by lia. rewrite bind_Done.
    rewrite reshape2_Done
      by (rewrite length_firstn, length_skipn; unfold get_synaptic_weights_number in *;
          rewrite <- Hsize; lia).
    eexists. split; [reflexivity|]. simpl. split; [reflexivity|]. split; [reflexivity|].
    intros i n Hi Hn. unfold at2; simpl.
    apply cell_firstn_skipn. unfold get_synaptic_weights_number. rewrite Hsize.
    apply linear_index_bound; assumption.
Qed.

Lemma firstn_sum {A : Type} (a b : nat) (v : list A) :
  firstn (a + b) v = firstn a v ++ firstn b (skipn a v).
Proof.
  revert v. induction a as [|a IH]; intros v; [reflexivity|].
  destruct v as [|x v]; simpl.
  - rewrite firstn_nil. reflexivity.
  - rewrite IH. reflexivity.
Qed.

(** X12.  [set_parameters] followed by [get_parameters] returns the part of
    the vector that was read: the [parameters_number] entries from [index]
    on.  With [index] zero and a vector of exactly that length, it returns
    the vector. *)
Theorem set_then_get_parameters_round_trip (l : PerceptronLayer)
    (parameters : list type) (index : nat)
    (Hb : wf2 (biases l)) (Hw : wf2 (synaptic_weights l))
    (Hlen : index + get_parameters_number l <= length parameters) :
  exists l',
    set_parameters parameters index l = Done l'
    /\ get_parameters l' = firstn (get_parameters_number l) (skipn index parameters)
    /\ (index = 0 -> length parameters = get_parameters_number l ->
        get_parameters l' = parameters).
Proof.
  unfold get_parameters_number in *. unfold wf2 in Hb, Hw.
  unfold set_parameters, get_biases_number, get_synaptic_weights_number.
  rewrite <- Hb, <- Hw in *.
  rewrite memcpy_whole by lia. rewrite bind_Done.
  rewrite memcpy_whole by lia. rewrite bind_Done.
  eexists. split; [reflexivity|].
  assert (Hget : get_parameters
                   (with_parameters l
                      (mkTensor2 (dim0 (biases l)) (dim1 (biases l))
                         (firstn (length (data2 (biases l))) (skipn index parameters)))
                      (mkTensor2 (dim0 (synaptic_weights l)) (dim1 (synaptic_weights l))
                         (firstn (length (data2 (synaptic_weights l)))
                            (skipn (length (data2 (biases l)) + index) parameters))))
                 = firstn (length (data2 (biases l)) + length (data2 (synaptic_weights l)))
                     (skipn index parameters)).
  { rewrite get_parameters_flat.
    - simpl. rewrite firstn_sum, skipn_skipn. reflexivity.
    - unfold wf2, size2; simpl. rewrite length_firstn, length_skipn.
      fold (size2 (biases l)). lia.
    - unfold wf2, size2; simpl. rewrite length_firstn, length_skipn.
      fold (size2 (synaptic_weights l)). lia. }
  split; [exact Hget|].
  intros -> Hexact. rewrite Hget. simpl skipn. rewrite <- Hexact. apply firstn_all.
Qed.

(** X13.  [insert_gradient] writes the [parameters_number] cells of the
    gradient that start at [index] and no other, and keeps its length.
    What it writes is what [set_parameters] reads at the same index: a
    layer set from the gradient at that index holds the bias derivatives as
    biases and the weight derivatives as synaptic weights. *)
Theorem insert_gradient_window (l : PerceptronLayer)
    (bp : PerceptronLayerBackPropagation) (index : nat) (gradient : list type)
    (Hl : layer_shaped l)
    (Hbd : length (biases_derivatives bp) = get_neurons_number l)
    (Hwd : length (data2 (synaptic_weights_derivatives bp))
           = get_synaptic_weights_number l)
    (Hlen : index + get_parameters_number l <= length gradient) :
  exists g l',
    insert_gradient l bp index gradient = Done g
    /\ length g = length gradient
    /\ (forall k, k < index \/ index + get_parameters_number l <= k ->
                  cell g k = cell gradient k)
    /\ set_parameters g index l = Done l'
    /\ data2 (biases l') = biases_derivatives bp
    /\ data2 (synaptic_weights l') = data2 (synaptic_weights_derivatives bp)
    /\ dim0 (synaptic_weights l') = get_inputs_number l
    /\ dim1 (synaptic_weights l') = dim1 (synaptic_weights l).
Proof.
  destruct Hl as [Hb [Hw Hcols]]. unfold wf2 in Hb, Hw.
  unfold get_parameters_number, get_neurons_number, get_synaptic_weights_number in *.
  set (nb := size2 (biases l)) in *. set (nw := size2 (synaptic_weights l)) in *.
  unfold insert_gradient, get_biases_number, get_synaptic_weights_number.
  fold nb nw.
  destruct (memcpy_cells gradient index (biases_derivatives bp) 0 nb)
    as [g1 [Hrun1 [Hlen1 [Hcells1 [Hbelow1 Habove1]]]]]; [lia|lia|].
  rewrite Hrun1, bind_Done.
  destruct (memcpy_cells g1 (index + nb) (data2 (synaptic_weights_derivatives bp)) 0 nw)
    as [g2 [Hrun2 [Hlen2 [Hcells2 [Hbelow2 Habove2]]]]]; [lia|lia|].
  rewrite Hrun2. exists g2.
  unfold set_parameters, get_biases_number, get_synaptic_weights_number. fold nb nw.
  destruct (memcpy_cells (data2 (biases l)) 0 g2 index nb)
    as [b' [Hrunb [Hlenb [Hcellsb _]]]]; [simpl; lia|lia|].
  rewrite Hrunb, bind_Done.
  destruct (memcpy_cells (data2 (synaptic_weights l)) 0 g2 (nb + index) nw)
    as [w' [Hrunw [Hlenw [Hcellsw _]]]]; [simpl; lia|lia|].
  rewrite Hrunw, bind_Done.
  eexists. split; [reflexivity|]. split; [lia|]. split; [|split; [reflexivity|]].
  - intros k [Hk|Hk].
    + rewrite Hbelow2 by lia. apply Hbelow1. exact Hk.
    + rewrite Habove2 by lia. apply Habove1. lia.
  - simpl. split; [|split; [|split; reflexivity]].
    + apply (nth_ext _ _ fzero fzero); [lia|]. intros j Hj.
      change (cell b' j = cell (biases_derivatives bp) j).
      rewrite <- (Nat.add_0_l j) at 1. rewrite Hcellsb by lia.
      rewrite Hbelow2 by lia. rewrite Hcells1 by lia. reflexivity.
    + apply (nth_ext _ _ fzero fzero); [lia|]. intros k Hk.
      change (cell w' k = cell (data2 (synaptic_weights_derivatives bp)) k).
      rewrite <- (Nat.add_0_l k) at 1. rewrite Hcellsw by lia.
      replace (nb + index + k) with (index + nb + k) by lia.
      rewrite Hcells2 by lia. reflexivity.
Qed.

Lemma map_const_length {A B : Type} (v : B) (l : list A) :
  map (fun _ => v) l = repeat v (length l).
Proof. induction l as [|x l IH]; simpl; [reflexivity|]. rewrite IH. reflexivity. Qed.

(** X14.  After [set_parameters_constant] every entry of the parameter
    vector is the value; [set_biases_constant] changes the biases' part of
    the vector only and [set_synaptic_weights_constant] the weights' part
    only; none of the three changes a shape. *)
Theorem constant_parameters (l : PerceptronLayer) (value : type)
    (Hb : wf2 (biases l)) (Hw : wf2 (synaptic_weights l)) :
  get_parameters (set_parameters_constant l value)
  = repeat value (get_parameters_number l)
  /\ get_parameters (set_biases_constant l value)
     = repeat value (get_biases_number l) ++ data2 (synaptic_weights l)
  /\ get_parameters (set_synaptic_weights_constant l value)
     = data2 (biases l) ++ repeat value (get_synaptic_weights_number l)
  /\ get_inputs_number (set_parameters_constant l value) = get_inputs_number l
  /\ get_neurons_number (set_parameters_constant l value) = get_neurons_number l
  /\ set_biases_constant (set_synaptic_weights_constant l value) value
     = set_parameters_constant l value.
Proof.
  unfold wf2 in Hb, Hw.
  assert (Hcb : wf2 (setConstant (biases l) value))
    by (unfold wf2, setConstant, size2; simpl; rewrite length_map; exact Hb).
  assert (Hcw : wf2 (setConstant (synaptic_weights l) value))
    by (unfold wf2, setConstant, size2; simpl; rewrite length_map; exact Hw).
  unfold get_parameters_number, get_biases_number, get_synaptic_weights_number.
  split; [|split; [|split; [|split; [reflexivity|split; reflexivity]]]].
  - rewrite get_parameters_flat by assumption. simpl.
    rewrite !map_const_length, Hb, Hw. symmetry. apply repeat_app.
  - rewrite get_parameters_flat by assumption. simpl.
    rewrite map_const_length, Hb. reflexivity.
  - rewrite get_parameters_flat by assumption. simpl.
    rewrite map_const_length, Hw. reflexivity.
Qed.

(** X15.  The name [write_activation_function] returns selects, through
    [set_activation_function(const string&)], the activation function it
    was written from, so that writing and reading the name of a function
    gives the function back; any other string throws and no function is
    set. *)
Theorem activation_function_name_round_trip (l target : PerceptronLayer) :
  set_activation_function_name (write_activation_function l) target
  = Done (set_activation_function (activation_function l) target)
  /\ (forall l', set_activation_function_name (write_activation_function l) target
                 = Done l' ->
                 write_activation_function l' = write_activation_function l
                 /\ biases l' = biases target
                 /\ synaptic_weights l' = synaptic_weights target)
  /\ (forall name,
         (forall known, name <> write_activation_function known) ->
         throws (set_activation_function_name name target)).
Proof.
  assert (Hround : set_activation_function_name (write_activation_function l) target
                   = Done (set_activation_function (activation_function l) target)).
  { unfold write_activation_function. destruct (activation_function l); reflexivity. }
  split; [exact Hround|]. split.
  - intros l' Hl'. rewrite Hround in Hl'. injection Hl' as <-.
    split; [|split]; reflexivity.
  - intros name Hunknown.
    assert (Hne : forall f, (name =? write_activation_function
                                       (set_activation_function f target))%string = false).
    { intros f. apply String.eqb_neq. apply Hunknown. }
    unfold set_activation_function_name.
    pose proof (Hne Logistic) as H1. pose proof (Hne HyperbolicTangent) as H2.
    pose proof (Hne Threshold) as H3. pose proof (Hne SymmetricThreshold) as H4.
    pose proof (Hne Linear) as H5. pose proof (Hne RectifiedLinear) as H6.
    pose proof (Hne ScaledExponentialLinear) as H7. pose proof (Hne SoftPlus) as H8.
    pose proof (Hne SoftSign) as H9. pose proof (Hne HardSigmoid) as H10.
    pose proof (Hne ExponentialLinear) as H11.
    unfold write_activation_function, set_activation_function in *.
    simpl activation_function in *.
    rewrite H1, H2, H3, H4, H5, H6, H7, H8, H9, H10, H11.
    eexists. reflexivity.
Qed.


Lemma flat_map_agree {A B : Type} (f g : A -> list B) (l : list A) :
  (forall x, In x l -> f x = g x) -> flat_map f l = flat_map g l.
Proof.
  induction l as [|x l IH]; intros Hfg; [reflexivity|]. simpl.
  rewrite Hfg by (left; reflexivity). f_equal. apply IH.
  intros y Hy. apply Hfg. right. exact Hy.
Qed.

Lemma tabulate2_ext (d0 d1 : nat) (f g : nat -> nat -> type) :
  (forall i j, i < d0 -> j < d1 -> f i j = g i j) ->
  tabulate2 d0 d1 f = tabulate2 d0 d1 g.
Proof.
  intros Hfg. unfold tabulate2. f_equal. apply flat_map_agree. intros j Hj.
  apply in_seq in Hj. apply map_ext_in. intros i Hi. apply in_seq in Hi.
  apply Hfg; lia.
Qed.

(** X16.  A forward pass on candidate parameters that are the layer's own
    ([get_parameters]) is the forward pass on the layer's parameters: the
    same combinations are handed to the same activation, and the two calls
    have the same outcome. *)
Theorem forward_propagate_own_parameters (l : PerceptronLayer) (inputs : Tensor2)
    (fp : PerceptronLayerForwardPropagation)
    (Hl : layer_shaped l)
    (Hin : dim1 inputs = get_inputs_number l)
    (Hwf : wf2 (combinations fp))
    (Hc0 : dim0 (combinations fp) = dim0 inputs)
    (Hc1 : dim1 (combinations fp) = get_neurons_number l) :
  forward_propagate_parameters l inputs (get_parameters l) fp
  = forward_propagate l inputs fp.
Proof.
  pose proof (weights_size l Hl) as Hsize.
  destruct (get_parameters_layout l Hl) as [Hlen _].
  rewrite get_parameters_flat in * by apply Hl.
  destruct Hl as [Hb [Hw Hcols]]. unfold wf2 in Hb, Hw.
  unfold forward_propagate_parameters, forward_propagate, debug_only.
  assert (Hchecks :
            (if OPENNN_DEBUG
             then (check_columns_number inputs (get_inputs_number l) LOG ;;;
                   check_size (data2 (biases l) ++ data2 (synaptic_weights l))
                     (get_parameters_number l) LOG)%outcome
             else Done tt) = Done tt).
  { destruct OPENNN_DEBUG; [|reflexivity].
    rewrite check_columns_number_Done by exact Hin. rewrite bind_Done.
    apply check_size_Done. unfold get_parameters_number. rewrite Hsize. exact Hlen. }
  assert (Hcheck :
            (if OPENNN_DEBUG
             then check_columns_number inputs (get_inputs_number l) LOG
             else Done tt) = Done tt).
  { destruct OPENNN_DEBUG; [|reflexivity].
    apply check_columns_number_Done. exact Hin. }
  rewrite Hchecks, Hcheck, !bind_Done.
  set (nb := get_neurons_number l) in *. set (ni := get_inputs_number l) in *.
  rewrite tensor_map2_Done by lia. rewrite bind_Done.
  rewrite tensor_map2_Done by lia. rewrite bind_Done.
  rewrite !calculate_combinations_value; try assumption; try reflexivity.
  2:{ rewrite Hb. apply Nat.le_refl. }
  2:{ simpl data2. rewrite length_firstn. simpl skipn. lia. }
  f_equal. f_equal.
  - apply tabulate2_ext. intros _ j _ Hj. unfold lin2. simpl data2.
    etransitivity;
      [exact (cell_firstn_skipn (data2 (biases l) ++ data2 (synaptic_weights l))
                0 (nb * 1) j ltac:(lia))|].
    apply cell_app_l. rewrite Hb. exact Hj.
  - apply tabulate2_ext. intros i j Hi Hj. apply sum_n_ext. intros k Hk. f_equal.
    unfold at2. simpl data2. simpl dim0. rewrite Hin in Hk.
    etransitivity;
      [exact (cell_firstn_skipn (data2 (biases l) ++ data2 (synaptic_weights l))
                nb (ni * nb) (k + ni * j) (linear_index_bound k j ni nb Hk Hj))|].
    apply cell_app_at. exact Hb.
Qed.

(** X17.  [set_inputs_number] and [set_neurons_number] with the count the
    layer already has leave a shaped layer with one row of biases as it is,
    parameters included.  With another input count (and a neuron at least)
    [set_inputs_number] keeps the biases and leaves every synaptic weight
    uninitialised; with another neuron count [set_neurons_number] leaves
    every bias uninitialised.  Neither draws from [rand()]. *)
Theorem resizing_keeps_or_drops_parameters (l : PerceptronLayer)
    (Hl : layer_shaped l) (Hrow : dim0 (biases l) = 1) :
  set_inputs_number l (get_inputs_number l) = l
  /\ set_neurons_number l (get_neurons_number l) = l
  /\ (forall n, n <> get_inputs_number l -> 1 <= get_neurons_number l ->
        biases (set_inputs_number l n) = biases l
        /\ data2 (synaptic_weights (set_inputs_number l n))
           = repeat indeterminate (n * get_neurons_number l))
  /\ (forall n, n <> get_neurons_number l ->
        data2 (biases (set_neurons_number l n)) = repeat indeterminate (1 * n)).
Proof.
  pose proof (weights_size l Hl) as Hsize. destruct Hl as [Hb [Hw Hcols]].
  assert (Hnb : size2 (biases l) = dim1 (biases l))
    by (unfold size2; rewrite Hrow; lia).
  assert (Hkeep_b : resize (biases l) 1 (size2 (biases l)) = biases l).
  { unfold resize. rewrite (proj2 (Nat.eqb_eq _ _)) by lia.
    rewrite Hnb. destruct (biases l) as [b0 b1 bd]. simpl in *. subst b0. reflexivity. }
  assert (Hkeep_w : resize (synaptic_weights l) (dim0 (synaptic_weights l))
                      (size2 (biases l)) = synaptic_weights l).
  { unfold resize. rewrite <- Hcols. fold (size2 (synaptic_weights l)).
    rewrite Nat.eqb_refl. destruct (synaptic_weights l). reflexivity. }
  unfold set_inputs_number, set_neurons_number, get_inputs_number, get_neurons_number,
    with_parameters in *.
  split; [|split; [|split]].
  - rewrite Hkeep_b, Hkeep_w. destruct l. reflexivity.
  - rewrite Hkeep_b, Hkeep_w. destruct l. reflexivity.
  - intros n Hn Hneuron. simpl. split; [exact Hkeep_b|].
    unfold resize.
    assert (Hdiffer : (size2 (synaptic_weights l) =? n * size2 (biases l)) = false).
    { apply Nat.eqb_neq. rewrite Hsize. nia. }
    rewrite Hdiffer. reflexivity.
  - intros n Hn. simpl. unfold resize.
    assert (Hdiffer : (size2 (biases l) =? 1 * n) = false)
      by (apply Nat.eqb_neq; lia).
    rewrite Hdiffer. reflexivity.
Qed.

Lemma sum_n_one (f : nat -> type) : sum_n 1 f = fadd fzero (f 0).
Proof. reflexivity. Qed.

(** X18.  Next layer: probabilistic with one neuron, whatever its
    activation function (the test on the neuron count comes first).  On
    buffers shaped for the batch [calculate_hidden_delta] completes and
    [delta(s, i) = (nextDelta(s, 0) * derivative(s)) * nextWeights(i, 0)],
    the derivative of sample [s] being cell [s] of the activations
    derivatives; the next layer's data are left as they were. *)
Theorem hidden_delta_next_binary
    (next_fp : ProbabilisticLayerForwardPropagation) (pl : ProbabilisticLayer)
    (next_bp : ProbabilisticLayerBackPropagation)
    (bp : PerceptronLayerBackPropagation)
    (Hbinary : probabilistic_neurons_number pl = 1)
    (Hbiases : probabilistic_biases_number pl = 1)
    (HD0 : dim0 (probabilistic_delta next_bp) = batch_samples_number bp)
    (HD1 : dim1 (probabilistic_delta next_bp) = 1)
    (Hlen : batch_samples_number bp
            <= length (data3 (probabilistic_activations_derivatives next_fp)))
    (HW : dim1 (probabilistic_synaptic_weights pl) = 1)
    (Hb0 : dim0 (delta bp) = batch_samples_number bp)
    (Hb1 : dim1 (delta bp) = dim0 (probabilistic_synaptic_weights pl)) :
  exists bp',
    calculate_hidden_delta (ProbabilisticForward next_fp)
      (ProbabilisticBack pl next_bp) bp
    = Done (ProbabilisticBack pl next_bp, bp')
    /\ dim0 (delta bp') = batch_samples_number bp
    /\ dim1 (delta bp') = dim0 (probabilistic_synaptic_weights pl)
    /\ forall s i, s < batch_samples_number bp ->
                   i < dim0 (probabilistic_synaptic_weights pl) ->
         at2 (delta bp') s i
         = fadd fzero
             (fmul (fmul (at2 (probabilistic_delta next_bp) s 0)
                      (cell (data3 (probabilistic_activations_derivatives next_fp)) s))
                (at2 (probabilistic_synaptic_weights pl) i 0)).
Proof.
  unfold calculate_hidden_delta, calculate_hidden_delta_probabilistic.
  rewrite Hbinary, Hbiases. simpl Nat.eqb. cbv iota.
  set (batch := batch_samples_number bp) in *.
  rewrite tensor_map2_Done by lia. rewrite bind_Done. simpl dim0. simpl data2.
  rewrite reshape2_Done by (rewrite length_firstn; simpl; lia).
  rewrite bind_Done.
  set (reshaped := mkTensor2 batch 1 _).
  destruct (cwise_mul_entries (probabilistic_delta next_bp) reshaped)
    as [product [Hrun [Hp0 [Hp1 [_ Hentries]]]]]; [exact HD0|exact HD1|].
  rewrite Hrun, bind_Done.
  rewrite contract_A_BT by congruence. rewrite bind_Done.
  rewrite assign_Done by (simpl; congruence). rewrite !bind_Done.
  eexists. split; [reflexivity|]. simpl.
  split; [congruence|]. split; [reflexivity|].
  intros s i Hs Hi. rewrite at2_tabulate2 by (try rewrite Hp0, HD0; assumption).
  rewrite Hp1, HD1, sum_n_one. f_equal. f_equal.
  rewrite Hentries by (try rewrite HD0; try rewrite HD1; lia). f_equal.
  unfold at2, reshaped; simpl. rewrite Nat.mul_0_r, Nat.add_0_r.
  exact (cell_firstn_skipn _ 0 (batch * 1) s ltac:(lia)).
Qed.


(* ====================================================================== *)
(** * Properties of the Levenberg-Marquardt Jacobian *)
(* ====================================================================== *)

Lemma for_each_single {X S : Type} (x : X) (body : X -> S -> outcome S) (s : S) :
  for_each [x] body s = body x s.
Proof. reflexivity. Qed.

(** A loop that threads a counter advancing by [k] at every turn is the
    loop that computes the counter from the index. *)
Lemma for_each_counter {A : Type} (n k : nat) (f : nat -> nat -> A -> outcome A)
    (body : nat -> A * nat -> outcome (A * nat)) (a : A) (c0 : nat) :
  (forall i st, body i st
                = bind (f (snd st) i (fst st)) (fun a' => Done (a', snd st + k))) ->
  for_each (seq 0 n) body (a, c0)
  = bind (for_each (seq 0 n) (fun i a' => f (c0 + i * k) i a') a)
      (fun a' => Done (a', c0 + n * k)).
Proof.
  intros Hbody. induction n as [|n IH].
  - simpl. rewrite Nat.add_0_r. reflexivity.
  - rewrite seq_S, !for_each_app, IH, !bind_assoc. apply bind_ext. intros a'.
    rewrite bind_Done, !for_each_single, Hbody. simpl fst. simpl snd.
    apply bind_ext. intros a''. f_equal. f_equal. simpl. lia.
Qed.

(** What a loop does to the first component of its state, when its turns
    read that component only. *)
Lemma for_each_first {X A C B : Type} (xs : list X) (h : X -> A -> outcome A)
    (body : X -> A * C -> outcome (A * C)) (next : X -> A * C -> C)
    (k : A -> outcome B) (st : A * C) :
  (forall x st', body x st'
                 = bind (h x (fst st')) (fun a' => Done (a', next x st'))) ->
  bind (for_each xs body st) (fun r => k (fst r))
  = bind (for_each xs h (fst st)) k.
Proof.
  intros Hbody. revert st. induction xs as [|x xs IH]; intros st; [reflexivity|].
  rewrite !for_each_cons, Hbody, !bind_assoc. apply bind_ext. intros a'.
  rewrite bind_Done. apply (IH (a', next x st)).
Qed.

Lemma NoDup_triple_walk (ns nn nc : nat) :
  NoDup (list_prod (seq 0 ns) (list_prod (seq 0 nn) (seq 0 nc))).
Proof. repeat apply NoDup_list_prod; apply seq_NoDup. Qed.

Lemma in_triples (ns nn nc s n c : nat) :
  In (s, (n, c)) (list_prod (seq 0 ns) (list_prod (seq 0 nn) (seq 0 nc)))
  <-> s < ns /\ n < nn /\ c < nc.
Proof. rewrite in_prod_iff, in_pairs, in_seq. lia. Qed.


(** The column of the Jacobian written at weight turn [c < inputs_number]
    of neuron [n], and at the bias turn that follows the weight turns. *)
Lemma jacobian_columns_injective (I N n c n' c' : nat) :
  n < N -> c < I + 1 -> n' < N -> c' < I + 1 ->
  (if c <? I then N + (0 + n * I + c * 1) else n)
  = (if c' <? I then N + (0 + n' * I + c' * 1) else n') ->
  n = n' /\ c = c'.
Proof.
  intros Hn Hc Hn' Hc' Heq.
  destruct (Nat.ltb_spec c I) as [Hci|Hci]; destruct (Nat.ltb_spec c' I) as [Hci'|Hci'].
  - destruct (column_major_injective I c n c' n' Hci Hci') as [-> ->]; [lia|auto].
  - lia.
  - lia.
  - split; lia.
Qed.

(** X19.  [calculate_squared_errors_Jacobian_lm] completes on buffers shaped
    for the batch and leaves [delta] as it was.  Row [s] of the Jacobian then
    holds, in the column of bias [n] of the parameter vector, the product
    [delta(s,n) * activations_derivatives(s,n)], and in the column of the
    weight from input [i] to neuron [n] that product times [inputs(s,i)]: the
    columns of the Jacobian follow the layout of [get_parameters]. *)
Theorem squared_errors_Jacobian_follows_parameter_layout (l : PerceptronLayer)
    (inputs : Tensor2) (forward_propagation : PerceptronLayerForwardPropagation)
    (back_propagation : PerceptronLayerBackPropagationLM)
    (Hl : layer_shaped l)
    (Hinputs : wf2 inputs) (Hin : dim1 inputs = get_inputs_number l)
    (Hd : wf2 (delta_lm back_propagation))
    (Hd0 : dim0 (delta_lm back_propagation) = dim0 inputs)
    (Hd1 : dim1 (delta_lm back_propagation) = get_neurons_number l)
    (Ha : wf2 (activations_derivatives forward_propagation))
    (Ha0 : dim0 (activations_derivatives forward_propagation) = dim0 inputs)
    (Ha1 : dim1 (activations_derivatives forward_propagation) = get_neurons_number l)
    (HJ : wf2 (squared_errors_Jacobian back_propagation))
    (HJ0 : dim0 (squared_errors_Jacobian back_propagation) = dim0 inputs)
    (HJ1 : dim1 (squared_errors_Jacobian back_propagation) = get_parameters_number l) :
  exists back_propagation',
    calculate_squared_errors_Jacobian_lm l inputs forward_propagation back_propagation
    = Done back_propagation'
    /\ delta_lm back_propagation' = delta_lm back_propagation
    /\ dim0 (squared_errors_Jacobian back_propagation') = dim0 inputs
    /\ dim1 (squared_errors_Jacobian back_propagation') = get_parameters_number l
    /\ wf2 (squared_errors_Jacobian back_propagation')
    /\ forall s n, s < dim0 inputs -> n < get_neurons_number l ->
         at2 (squared_errors_Jacobian back_propagation') s (bias_position n)
         = fmul (at2 (delta_lm back_propagation) s n)
             (at2 (activations_derivatives forward_propagation) s n)
         /\ forall i, i < get_inputs_number l ->
              at2 (squared_errors_Jacobian back_propagation') s
                (weight_position (get_inputs_number l) (get_neurons_number l) i n)
              = fmul (fmul (at2 (delta_lm back_propagation) s n)
                        (at2 (activations_derivatives forward_propagation) s n))
                  (at2 inputs s i).
Proof.
  pose proof (weights_size l Hl) as Hw.
  unfold get_parameters_number in *. rewrite Hw in *. clear Hw.
  fold (get_neurons_number l) in *.
  unfold calculate_squared_errors_Jacobian_lm.
  destruct back_propagation as [d [J0 J1 Jd]].
  set (ad := activations_derivatives forward_propagation) in *.
  set (I := get_inputs_number l) in *. set (N := get_neurons_number l) in *.
  set (batch := dim0 inputs) in *.
  unfold wf2, size2 in Hinputs, Hd, Ha, HJ.
  simpl in Hd, Hd0, Hd1, HJ, HJ0, HJ1 |- *. subst J0 J1.
  fold batch in Hinputs. rewrite Hin in Hinputs. rewrite Hd0, Hd1 in Hd.
  rewrite Ha0, Ha1 in Ha.
  set (weight_turn := fun (s n c i : nat) (J : Tensor2) =>
         (a <- load2 d s n ;; b <- load2 ad s n ;; x <- load2 inputs s i ;;
          store2 J s (N + c) (fmul (fmul a b) x))%outcome).
  set (bias_turn := fun (s n : nat) (J : Tensor2) =>
         (a <- load2 d s n ;; b <- load2 ad s n ;; store2 J s n (fmul a b))%outcome).
  set (neuron_turn := fun (s c n : nat) (J : Tensor2) =>
         bind (for_each (seq 0 I) (fun i J' => weight_turn s n (c + i * 1) i J') J)
           (bias_turn s n)).
  set (sample_turn := fun (s : nat) (J : Tensor2) =>
         for_each (seq 0 N) (fun n J' => neuron_turn s (0 + n * I) n J') J).
  set (turn := fun (s n c : nat) (J : Tensor2) =>
         if c <? I then weight_turn s n (0 + n * I + c * 1) c J else bias_turn s n J).
  rewrite for_loop_for_each.
  rewrite (for_each_first (seq 0 batch) sample_turn _ (fun _ _ => 0 + N * I)
             (fun J' => Done (mkPerceptronLayerBackPropagationLM d J'))
             (mkTensor2 batch (N + I * N) Jd, 0)).
  2:{ intros s st. rewrite for_loop_for_each.
      apply (for_each_counter N I (fun c n J => neuron_turn s c n J)).
      intros n [J c]. simpl fst. simpl snd. rewrite for_loop_for_each.
      rewrite (for_each_counter I 1 (fun c' i J' => weight_turn s n c' i J')).
      - unfold neuron_turn. rewrite !bind_assoc. apply bind_ext. intros J'.
        rewrite bind_Done. unfold bias_turn. simpl fst. simpl snd.
        destruct (load2 d s n); simpl; try reflexivity.
        destruct (load2 ad s n); simpl; try reflexivity.
        destruct (store2 J' s n _); simpl; try reflexivity.
        rewrite Nat.mul_1_r. reflexivity.
      - intros i [J' c']. unfold weight_turn. simpl fst. simpl snd.
        destruct (load2 d s n); simpl; try reflexivity.
        destruct (load2 ad s n); simpl; try reflexivity.
        destruct (load2 inputs s i); simpl; try reflexivity.
        destruct (store2 J' s _ _); simpl; try reflexivity.
        rewrite Nat.add_1_r. reflexivity. }
  simpl fst.
  rewrite (for_each_ext _ sample_turn
             (fun s J => for_each (list_prod (seq 0 N) (seq 0 (I + 1)))
                           (fun q => turn s (fst q) (snd q)) J)).
  2:{ intros s J _. unfold sample_turn.
      rewrite (for_each_ext _ _ (fun n J' => for_each (seq 0 (I + 1)) (turn s n) J')).
      - apply nested_for_each.
      - intros n J' _. rewrite for_each_seq_split. unfold neuron_turn.
        rewrite (for_each_ext (seq 0 I) _ (turn s n)).
        + apply bind_ext. intros J''. simpl seq. rewrite for_each_single.
          unfold turn. rewrite (proj2 (Nat.ltb_ge _ _)) by lia. reflexivity.
        + intros i J'' Hi. apply in_seq in Hi. unfold turn.
          rewrite (proj2 (Nat.ltb_lt _ _)) by lia. reflexivity. }
  rewrite nested_for_each.
  set (col := fun n c : nat => if c <? I then N + (0 + n * I + c * 1) else n).
  assert (Hcol : forall n c, n < N -> c < I + 1 -> col n c < N + I * N).
  { intros n c Hn Hc. unfold col. destruct (c <? I) eqn:Hci; [|lia].
    apply Nat.ltb_lt in Hci.
    pose proof (linear_index_bound c n I N Hci Hn). lia. }
  destruct (for_each_updates (mkTensor2 batch (N + I * N))
              (list_prod (seq 0 batch) (list_prod (seq 0 N) (seq 0 (I + 1))))
              (fun p => fst p + batch * col (fst (snd p)) (snd (snd p)))
              (fun p _ =>
                 let s := fst p in let n := fst (snd p) in let c := snd (snd p) in
                 if c <? I
                 then fmul (fmul (at2 d s n) (at2 ad s n)) (at2 inputs s c)
                 else fmul (at2 d s n) (at2 ad s n))
              (fun p => turn (fst p) (fst (snd p)) (snd (snd p)))
              (batch * (N + I * N)))
    with (d0 := Jd)
    as [d' [Hrun [Hlen [Hcells _]]]].
  - apply NoDup_map_NoDup_ForallPairs; [|apply NoDup_triple_walk].
    intros [s [n c]] [s' [n' c']] Hp Hp' Heq.
    apply in_triples in Hp, Hp'. simpl in Heq.
    destruct (column_major_injective batch s _ s' _ ltac:(lia) ltac:(lia) Heq)
      as [-> Hcols].
    destruct (jacobian_columns_injective I N n c n' c'
                ltac:(lia) ltac:(lia) ltac:(lia) ltac:(lia) Hcols) as [-> ->].
    reflexivity.
  - intros [s [n c]] Hp. apply in_triples in Hp. simpl.
    apply linear_index_bound; [lia|]. apply Hcol; lia.
  - intros [s [n c]] d1 Hp Hd1'. apply in_triples in Hp. simpl.
    destruct Hp as [Hs [Hn Hc]].
    assert (Hidx : s + batch * col n c < length d1)
      by (rewrite Hd1'; apply linear_index_bound; [lia|apply Hcol; lia]).
    assert (Hdn : s + batch * n < length (data2 d))
      by (rewrite Hd; apply linear_index_bound; lia).
    assert (Han : s + batch * n < length (data2 ad))
      by (rewrite Ha; apply linear_index_bound; lia).
    unfold turn, col in *. destruct (c <? I) eqn:Hci.
    + apply Nat.ltb_lt in Hci. unfold weight_turn, load2, store2, at2.
      cbn [dim0 dim1 data2]. rewrite Hd0, Ha0. fold batch.
      rewrite (load_Done (data2 d)) by exact Hdn.
      rewrite (load_Done (data2 ad)) by exact Han.
      rewrite (load_Done (data2 inputs))
        by (rewrite Hinputs; apply linear_index_bound; lia).
      rewrite !bind_Done. rewrite store_Done by exact Hidx. reflexivity.
    + unfold bias_turn, load2, store2, at2.
      cbn [dim0 dim1 data2]. rewrite Hd0, Ha0. fold batch.
      rewrite (load_Done (data2 d)) by exact Hdn.
      rewrite (load_Done (data2 ad)) by exact Han.
      rewrite !bind_Done. rewrite store_Done by exact Hidx. reflexivity.
  - exact HJ.
  - exists (mkPerceptronLayerBackPropagationLM d (mkTensor2 batch (N + I * N) d')).
    rewrite Hrun. simpl.
    split; [reflexivity|]. split; [reflexivity|]. split; [reflexivity|].
    split; [reflexivity|]. split; [exact Hlen|].
    intros s n Hs Hn. split.
    + pose proof (Hcells (s, (n, I)) ltac:(apply in_triples; lia)) as Hcell.
      cbn [fst snd] in Hcell. unfold col in Hcell.
      rewrite Nat.ltb_irrefl in Hcell.
      unfold at2 at 1, bias_position. cbn [dim0 data2]. exact Hcell.
    + intros i Hi.
      pose proof (Hcells (s, (n, i)) ltac:(apply in_triples; lia)) as Hcell.
      cbn [fst snd] in Hcell. unfold col in Hcell.
      rewrite (proj2 (Nat.ltb_lt _ _) Hi) in Hcell.
      unfold at2 at 1, weight_position. cbn [dim0 data2].
      replace (N + (i + I * n)) with (N + (0 + n * I + i * 1)) by lia.
      exact Hcell.
Qed.


(** X20.  [insert_squared_errors_Jacobian_lm] called with the index
    [batch * first] copies the Jacobian of the layer into the columns
    [first], ..., [first + get_parameters_number() - 1] of the Jacobian of the
    network, row by row, and leaves every other column as it was. *)
Theorem insert_squared_errors_Jacobian_columns (l : PerceptronLayer)
    (back_propagation : PerceptronLayerBackPropagationLM) (first : nat)
    (squared_errors_Jacobian_arg : Tensor2)
    (Hlayer : wf2 (squared_errors_Jacobian back_propagation))
    (Hcolumns : dim1 (squared_errors_Jacobian back_propagation)
                = get_parameters_number l)
    (Hnetwork : wf2 squared_errors_Jacobian_arg)
    (Hrows : dim0 squared_errors_Jacobian_arg
             = dim0 (squared_errors_Jacobian back_propagation))
    (Hroom : first + get_parameters_number l <= dim1 squared_errors_Jacobian_arg) :
  exists J',
    insert_squared_errors_Jacobian_lm l back_propagation
      (dim0 squared_errors_Jacobian_arg * first) squared_errors_Jacobian_arg
    = Done J'
    /\ dim0 J' = dim0 squared_errors_Jacobian_arg
    /\ dim1 J' = dim1 squared_errors_Jacobian_arg
    /\ wf2 J'
    /\ (forall s p, s < dim0 squared_errors_Jacobian_arg ->
          p < get_parameters_number l ->
          at2 J' s (first + p) = at2 (squared_errors_Jacobian back_propagation) s p)
    /\ (forall s c, s < dim0 squared_errors_Jacobian_arg ->
          c < first \/ first + get_parameters_number l <= c ->
          at2 J' s c = at2 squared_errors_Jacobian_arg s c).
Proof.
  unfold insert_squared_errors_Jacobian_lm.
  set (layer_J := squared_errors_Jacobian back_propagation) in *.
  set (P := get_parameters_number l) in *.
  set (batch := dim0 squared_errors_Jacobian_arg) in *.
  unfold wf2, size2 in Hlayer, Hnetwork. fold batch in Hnetwork.
  rewrite <- Hrows, Hcolumns in Hlayer. rewrite <- Hrows.
  destruct (memcpy_cells (data2 squared_errors_Jacobian_arg) (batch * first)
              (data2 layer_J) 0 (P * batch))
    as [r [Hrun [Hlen [Hin [Hbefore Hafter]]]]].
  - rewrite Hnetwork. nia.
  - rewrite Hlayer. lia.
  - rewrite Hrun, bind_Done. eexists. split; [reflexivity|]. simpl.
    split; [reflexivity|]. split; [reflexivity|].
    split; [unfold wf2, size2; simpl; rewrite Hlen; exact Hnetwork|]. split.
    + intros s p Hs Hp. unfold at2. cbn [dim0 data2]. rewrite <- Hrows.
      replace (s + batch * (first + p)) with (batch * first + (s + batch * p)) by lia.
      rewrite Hin; [reflexivity|].
      rewrite (Nat.mul_comm P batch). apply linear_index_bound; assumption.
    + intros s c Hs [Hc|Hc]; unfold at2; cbn [dim0 data2].
      * apply Hbefore. nia.
      * apply Hafter. nia.
Qed.


(** X21.  [calculate_hidden_delta_perceptron_lm] reshapes the activations
    derivatives of the next layer to one column.  With a next layer of one
    neuron and buffers shaped for the batch it completes, leaves the Jacobian
    as it was and gives
    [delta(s, i) = (nextDelta(s, 0) * nextDerivative(s, 0)) * nextWeights(i, 0)].
    With any other neuron count (and a sample at least) the reshape changes
    the number of entries, which is outside what Eigen defines. *)
Theorem hidden_delta_lm_next_perceptron
    (next_fp : PerceptronLayerForwardPropagation) (next_layer : PerceptronLayer)
    (next_bp bp : PerceptronLayerBackPropagationLM)
    (Hwf : wf2 (activations_derivatives next_fp)) :
  (dim1 (activations_derivatives next_fp) = 1 ->
   dim0 (delta_lm next_bp) = dim0 (activations_derivatives next_fp) ->
   dim1 (delta_lm next_bp) = 1 ->
   dim1 (synaptic_weights next_layer) = 1 ->
   dim0 (delta_lm bp) = dim0 (activations_derivatives next_fp) ->
   dim1 (delta_lm bp) = dim0 (synaptic_weights next_layer) ->
   exists bp',
     calculate_hidden_delta_perceptron_lm next_fp next_layer next_bp bp = Done bp'
     /\ squared_errors_Jacobian bp' = squared_errors_Jacobian bp
     /\ dim0 (delta_lm bp') = dim0 (delta_lm bp)
     /\ dim1 (delta_lm bp') = dim1 (delta_lm bp)
     /\ forall s i, s < dim0 (delta_lm bp) -> i < dim1 (delta_lm bp) ->
          at2 (delta_lm bp') s i
          = fadd fzero
              (fmul (fmul (at2 (delta_lm next_bp) s 0)
                       (at2 (activations_derivatives next_fp) s 0))
                 (at2 (synaptic_weights next_layer) i 0)))
  /\ (dim1 (activations_derivatives next_fp) <> 1 ->
      1 <= dim0 (activations_derivatives next_fp) ->
      calculate_hidden_delta_perceptron_lm next_fp next_layer next_bp bp = Undefined).
Proof.
  unfold calculate_hidden_delta_perceptron_lm.
  set (ad := activations_derivatives next_fp) in *.
  unfold wf2, size2 in Hwf. split.
  - intros Hone HD0 HD1 HW Hb0 Hb1.
    rewrite reshape2_Done by (rewrite Hwf, Hone; reflexivity).
    rewrite bind_Done.
    set (reshaped := mkTensor2 (dim0 ad) 1 (data2 ad)).
    destruct (cwise_mul_entries (delta_lm next_bp) reshaped)
      as [product [Hrun [Hp0 [Hp1 [_ Hentries]]]]]; [exact HD0|exact HD1|].
    rewrite Hrun, bind_Done.
    rewrite contract_A_BT by congruence. rewrite bind_Done.
    rewrite assign_Done by (simpl; congruence). rewrite !bind_Done.
    eexists. split; [reflexivity|]. simpl.
    split; [reflexivity|]. split; [congruence|]. split; [congruence|].
    intros s i Hs Hi.
    rewrite at2_tabulate2 by (try rewrite Hp0, HD0, <- Hb0; try rewrite <- Hb1; assumption).
    rewrite Hp1, HD1, sum_n_one. f_equal. f_equal.
    rewrite Hentries by (try rewrite HD0, <- Hb0; try rewrite HD1; lia).
    reflexivity.
  - intros Hmany Hbatch. unfold reshape2.
    assert (Hsize : (length (data2 ad) =? dim0 ad * 1) = false).
    { apply Nat.eqb_neq. rewrite Hwf. nia. }
    rewrite Hsize. reflexivity.
Qed.


End OpenNN.

(* ====================================================================== *)
(** * Evaluations on IEEE-754 binary32 *)
(* ====================================================================== *)

#[local] Existing Instance IEEE32.binary32.

Lemma get_then_set_parameters_round_trip_witness :
  wf2 (biases sample_layer) /\ wf2 (synaptic_weights sample_layer)
  /\ set_parameters (get_parameters IEEE32.nan sample_layer) 0 sample_layer
     = Done sample_layer.
Proof.
  split; [reflexivity|split; [reflexivity|]].
  apply (proj1 (get_then_set_parameters_round_trip IEEE32.nan sample_layer
                  eq_refl eq_refl)).
Defined.

Lemma sample_layer_shaped : layer_shaped sample_layer.
Proof. repeat split. Defined.

Lemma parameter_vector_layout_witness :
  layer_shaped sample_layer
  /\ cell (get_parameters IEEE32.nan sample_layer) (weight_position 3 2 1 1)
     = at2 (synaptic_weights sample_layer) 1 1.
Proof.
  split; [exact sample_layer_shaped|].
  apply (proj2 (proj2 (proj1
           (parameter_vector_layout IEEE32.nan false EmptyString sample_layer_base
              sample_layer sample_layer_shaped)))); repeat constructor.
Defined.

Lemma hidden_delta_next_softmax_witness :
  probabilistic_activation_function softmax_layer = Softmax
  /\ probabilistic_neurons_number softmax_layer <> 1
  /\ exists next_bp' bp',
       calculate_hidden_delta (ProbabilisticForward softmax_forward)
         (ProbabilisticBack softmax_layer softmax_back) previous_back
       = Done (ProbabilisticBack softmax_layer next_bp', bp')
       /\ at2 (error_combinations_derivatives next_bp') 1 1 = num 8
       /\ at2 (delta bp') 1 2 = num 60.
Proof.
  assert (Hmulti : probabilistic_neurons_number softmax_layer <> 1) by discriminate.
  split; [reflexivity|split; [exact Hmulti|]].
  destruct (proj2 (hidden_delta_next_softmax softmax_forward softmax_layer softmax_back
                     previous_back eq_refl Hmulti)
              eq_refl eq_refl eq_refl eq_refl eq_refl eq_refl eq_refl eq_refl
              eq_refl eq_refl)
    as [next_bp' [bp' [Hrun [_ [Hrows [_ [_ Hcells]]]]]]].
  exists next_bp', bp'. split; [exact Hrun|].
  pose proof (Hrows 1 1 ltac:(vm_compute; lia) ltac:(vm_compute; lia)) as Hrow.
  pose proof (Hcells 1 2 ltac:(vm_compute; lia) ltac:(vm_compute; lia)) as Hcell.
  assert (Hrow0 : at2 (error_combinations_derivatives next_bp') 1 0 = num 4)
    by (rewrite (Hrows 1 0 ltac:(vm_compute; lia) ltac:(vm_compute; lia));
        vm_compute; reflexivity).
  assert (Hrow1 : at2 (error_combinations_derivatives next_bp') 1 1 = num 8)
    by (rewrite Hrow; vm_compute; reflexivity).
  split; [exact Hrow1|].
  rewrite Hcell. unfold dot_product, row. simpl series.
  rewrite Hrow0, Hrow1. vm_compute. reflexivity.
Defined.

Lemma hidden_delta_next_perceptron_witness :
  dim1 (synaptic_weights sample_layer) = dim1 (delta sample_back)
  /\ exists bp',
       calculate_hidden_delta (PerceptronForward sample_forward)
         (PerceptronBack sample_layer sample_back) previous_back
       = Done (PerceptronBack sample_layer sample_back, bp')
       /\ at2 (delta bp') 0 0 = num 13
       /\ at2 (delta bp') 1 2 = num 30.
Proof.
  split; [reflexivity|].
  destruct (hidden_delta_next_perceptron sample_forward sample_layer sample_back
              previous_back eq_refl eq_refl eq_refl eq_refl eq_refl)
    as [bp' [Hrun [_ [_ [_ [_ Hcells]]]]]].
  exists bp'. split; [exact Hrun|]. split.
  - rewrite (Hcells 0 0 ltac:(vm_compute; lia) ltac:(vm_compute; lia)).
    vm_compute. reflexivity.
  - rewrite (Hcells 1 2 ltac:(vm_compute; lia) ltac:(vm_compute; lia)).
    vm_compute. reflexivity.
Defined.

Lemma error_gradient_formulas_witness :
  dim0 sample_inputs = dim0 (delta sample_back)
  /\ length (biases_derivatives sample_back) = dim1 (delta sample_back)
  /\ exists bp',
       calculate_error_gradient sample_inputs sample_forward sample_back = Done bp'
       /\ cell (biases_derivatives bp') 1 = num 7
       /\ at2 (synaptic_weights_derivatives bp') 2 1 = num 14.
Proof.
  split; [reflexivity|split; [reflexivity|]].
  destruct (error_gradient_formulas sample_inputs sample_forward sample_back
              eq_refl eq_refl eq_refl eq_refl eq_refl eq_refl)
    as [bp' [Hrun [_ [_ [Hbiases [_ [_ Hweights]]]]]]].
  exists bp'. split; [exact Hrun|]. split.
  - rewrite (Hbiases 1 ltac:(vm_compute; lia)). vm_compute. reflexivity.
  - rewrite (Hweights 2 1 ltac:(vm_compute; lia) ltac:(vm_compute; lia)).
    vm_compute. reflexivity.
Defined.

Lemma degenerate_update_resets_to_identity_witness :
  fisnan fzero = false /\ fisnan fone = false
  /\ fltb NUMERIC_LIMITS_MIN (fabs fzero) = false
  /\ is_zero (parameters_difference degenerate_data) = true
  /\ inverse_hessian (calculate_inverse_hessian_approximation BFGS degenerate_data)
     = identity 2.
Proof.
  split; [reflexivity|split; [reflexivity|split; [reflexivity|split; [reflexivity|]]]].
  apply (proj1 (degenerate_update_resets_to_identity (H := IEEE32.binary32)
                  eq_refl eq_refl eq_refl
                  BFGS degenerate_data ltac:(right; left; reflexivity))).
Defined.

Lemma combinations_formula_and_debug_check_witness :
  wf2 sample_inputs /\ wf2 narrow_inputs
  /\ wf2 (biases sample_layer) /\ wf2 (synaptic_weights sample_layer)
  /\ wf2 sample_combinations
  /\ dim1 narrow_inputs <> get_inputs_number sample_layer
  /\ (exists c',
        calculate_combinations true EmptyString sample_layer sample_inputs
          (biases sample_layer) (synaptic_weights sample_layer) sample_combinations
        = Done c'
        /\ at2 c' 0 0 = num 14 /\ at2 c' 1 1 = num 25)
  /\ throws (calculate_combinations true EmptyString sample_layer narrow_inputs
               (biases sample_layer) (synaptic_weights sample_layer)
               sample_combinations)
  /\ calculate_combinations false EmptyString sample_layer sample_inputs
       (mkTensor2 1 1 [num 7]) (synaptic_weights sample_layer) sample_combinations
     = Undefined.
Proof.
  assert (Hne : dim1 narrow_inputs <> get_inputs_number sample_layer) by discriminate.
  do 5 (split; [reflexivity|]). split; [exact Hne|]. split; [|split].
  - destruct (combinations_formula_and_debug_check IEEE32.nan true EmptyString
                sample_layer_base sample_layer sample_inputs (biases sample_layer)
                (synaptic_weights sample_layer) sample_combinations
                eq_refl eq_refl eq_refl eq_refl)
      as [Hformula [Hdebug _]].
    destruct (proj1 (proj2 (proj2 (Hdebug eq_refl)))
                ltac:(repeat split) ltac:(vm_compute; lia))
      as [c' Hrun].
    exists c'. split; [exact Hrun|].
    destruct (Hformula c' Hrun) as [_ [_ [_ Hcells]]]. split.
    + rewrite (Hcells 0 0 ltac:(vm_compute; lia) ltac:(vm_compute; lia)).
      vm_compute. reflexivity.
    + rewrite (Hcells 1 1 ltac:(vm_compute; lia) ltac:(vm_compute; lia)).
      vm_compute. reflexivity.
  - exact (proj1 (proj1 (proj2 (combinations_formula_and_debug_check IEEE32.nan true
                                  EmptyString sample_layer_base sample_layer
                                  narrow_inputs (biases sample_layer)
                                  (synaptic_weights sample_layer) sample_combinations
                                  eq_refl eq_refl eq_refl eq_refl))
                    eq_refl)
             Hne).
  - apply (proj2 (proj2 (proj1 (proj2 (proj2
             (combinations_formula_and_debug_check IEEE32.nan false EmptyString
                sample_layer_base sample_layer sample_inputs (mkTensor2 1 1 [num 7])
                (synaptic_weights sample_layer) sample_combinations
                eq_refl eq_refl eq_refl eq_refl))) eq_refl))).
    intros [_ [Hroom _]]. vm_compute in Hroom. lia.
Defined.

(** C7, as the design document states it, fails on a build without
    [OPENNN_DEBUG]: the batch has two columns, the layer three inputs, and
    the call does not throw. *)
Lemma combinations_without_debug_counterexample :
  dim1 narrow_inputs <> get_inputs_number sample_layer
  /\ calculate_combinations false EmptyString sample_layer narrow_inputs
       (biases sample_layer) (synaptic_weights sample_layer) sample_combinations
     = Undefined
  /\ ~ throws (calculate_combinations false EmptyString sample_layer narrow_inputs
                 (biases sample_layer) (synaptic_weights sample_layer)
                 sample_combinations).
Proof.
  split; [discriminate|split; [reflexivity|]].
  intros [what Hthrow]. discriminate Hthrow.
Qed.

Lemma sizing_keeps_shape_invariant_witness :
  wf2 (biases sample_layer) /\ wf2 (synaptic_weights sample_layer)
  /\ layer_shaped (set_inputs_number IEEE32.nan sample_layer 5)
  /\ get_inputs_number (set_inputs_number IEEE32.nan sample_layer 5) = 5
  /\ get_neurons_number (set_neurons_number IEEE32.nan sample_layer 4) = 4.
Proof.
  split; [reflexivity|split; [reflexivity|]].
  pose proof (sizing_keeps_shape_invariant IEEE32.nan (fun _ => fzero)) as [_ [Hi Hn]].
  specialize (Hi sample_layer 5). specialize (Hn sample_layer 4).
  simpl in Hi, Hn.
  destruct Hi as [_ [_ [_ [Hgi [_ Hshaped]]]]]. destruct Hn as [_ [_ [_ [_ [Hgn _]]]]].
  split; [exact (proj1 (Hshaped eq_refl eq_refl))|]. split; [exact Hgi|exact Hgn].
Defined.

Lemma l2_norm_derivatives_guard_witness :
  fmul fzero fzero = fzero /\ fadd fzero fzero = fzero /\ fsqrt fzero = fzero
  /\ fltb fzero NUMERIC_LIMITS_MIN = true
  /\ l2_norm_gradient [fzero; fzero; fzero] [num 1; num 2; num 3]
     = Done [fzero; fzero; fzero]
  /\ l2_norm_hessian [fzero; fzero] (mkTensor2 2 2 [num 1; num 2; num 3; num 4])
     = Done (mkTensor2 2 2 [fzero; fzero; fzero; fzero]).
Proof.
  split; [reflexivity|split; [reflexivity|split; [reflexivity|split; [reflexivity|]]]].
  pose proof (proj1 (proj2 (l2_norm_derivatives_guard (H := IEEE32.binary32)
                              eq_refl eq_refl eq_refl eq_refl)))
    as Hzero.
  split.
  - apply (proj1 (Hzero 3 [num 1; num 2; num 3] (mkTensor2 0 0 []))).
  - apply (proj2 (Hzero 2 [] (mkTensor2 2 2 [num 1; num 2; num 3; num 4]))).
Defined.

Lemma is_constant_exact_differences_witness :
  is_constant [num 3; num 3; num 3] = true.
Proof.
  apply (proj1 is_constant_exact_differences [num 3; num 3; num 3]).
  intros i j Hi Hj.
  destruct i as [|[|[|i]]]; [| | |simpl in Hi; lia];
    (destruct j as [|[|[|j]]]; [| | |simpl in Hj; lia]); reflexivity.
Defined.

(** C10, as stated, fails on a vector of length one whose element is an
    infinity: the element equals itself, yet its difference with itself is
    NaN, which [!=] tells apart from zero.  A vector that holds one NaN
    gives false as well. *)
Lemma is_constant_singleton_infinity_counterexample :
  length [IEEE32.infinity] = 1
  /\ feqb IEEE32.infinity IEEE32.infinity = true
  /\ fsub IEEE32.infinity IEEE32.infinity = IEEE32.nan
  /\ is_constant [IEEE32.infinity] = false
  /\ is_constant [IEEE32.nan] = false.
Proof. repeat split. Qed.

(** The sample layer on the sample batch: [7 + 1*1 + 0*2 + 2*3 = 14] and so
    on, column by column. *)
Example sample_combinations_value :
  calculate_combinations false EmptyString sample_layer sample_inputs
    (biases sample_layer) (synaptic_weights sample_layer) sample_combinations
  = Done (mkTensor2 2 2 [num 14; num 15; num 24; num 25]).
Proof. vm_compute. reflexivity. Qed.

Example sample_parameters_value :
  get_parameters IEEE32.nan sample_layer
  = [num 7; num 8; num 1; num 2; num 3; num 4; num 5; num 6].
Proof. vm_compute. reflexivity. Qed.

(** The softmax sample: the Jacobian blocks are [I] and [2 I], so the error
    combinations derivatives are the rows [(1, 3)] and [(4, 8)]. *)
Example softmax_hidden_delta_value :
  calculate_hidden_delta (ProbabilisticForward softmax_forward)
    (ProbabilisticBack softmax_layer softmax_back) previous_back
  = Done
      (ProbabilisticBack softmax_layer
         (mkProbabilisticLayerBackPropagation
            (probabilistic_delta softmax_back) [num 2; num 4]
            (mkTensor2 2 2 [num 1; num 4; num 3; num 8])),
       with_delta previous_back
         (mkTensor2 2 3 [num 13; num 36; num 17; num 48; num 21; num 60])).
Proof. vm_compute. reflexivity. Qed.

(* ====================================================================== *)
(** * Evaluations of the other utilities and members *)
(* ====================================================================== *)

Lemma multiply_rows_scales_columns_witness :
  wf2 sample_inputs
  /\ dim1 sample_inputs <= length (data2 (synaptic_weights sample_layer))
  /\ exists m',
       multiply_rows sample_inputs (data2 (synaptic_weights sample_layer)) = Done m'
       /\ at2 m' 1 2
          = fmul (at2 sample_inputs 1 2) (cell (data2 (synaptic_weights sample_layer)) 2).
Proof.
  assert (Hv : dim1 sample_inputs <= length (data2 (synaptic_weights sample_layer)))
    by (vm_compute; lia).
  split; [reflexivity|split; [exact Hv|]].
  destruct (multiply_rows_scales_columns sample_inputs
              (data2 (synaptic_weights sample_layer)) eq_refl Hv)
    as [m' [Hrun [_ [_ [_ Hcells]]]]].
  exists m'. split; [exact Hrun|]. apply Hcells; simpl; lia.
Defined.

Lemma divide_columns_divides_rows_witness :
  wf2 sample_inputs
  /\ dim0 sample_inputs <= length (data2 (biases sample_layer))
  /\ exists m',
       divide_columns sample_inputs (data2 (biases sample_layer)) = Done m'
       /\ at2 m' 1 2 = fdiv (at2 sample_inputs 1 2) (num 8).
Proof.
  assert (Hv : dim0 sample_inputs <= length (data2 (biases sample_layer)))
    by (vm_compute; lia).
  split; [reflexivity|split; [exact Hv|]].
  destruct (divide_columns_divides_rows sample_inputs (data2 (biases sample_layer))
              eq_refl Hv)
    as [m' [Hrun [_ [_ [_ [Hcells _]]]]]].
  exists m'. split; [exact Hrun|].
  exact (Hcells 1 2 ltac:(vm_compute; lia) ltac:(vm_compute; lia)).
Defined.

Lemma sum_diagonal_adds_to_diagonal_only_witness :
  wf2 sample_inputs /\ dim0 sample_inputs <= dim1 sample_inputs
  /\ exists m',
       sum_diagonal sample_inputs fone = Done m'
       /\ at2 m' 1 1 = fadd (at2 sample_inputs 1 1) fone
       /\ at2 m' 1 2 = at2 sample_inputs 1 2.
Proof.
  assert (Hwide : dim0 sample_inputs <= dim1 sample_inputs) by (vm_compute; lia).
  split; [reflexivity|split; [exact Hwide|]].
  destruct (sum_diagonal_adds_to_diagonal_only sample_inputs fone eq_refl Hwide)
    as [m' [Hrun [_ [_ [_ Hcells]]]]].
  exists m'. split; [exact Hrun|]. split.
  - exact (Hcells 1 1 ltac:(vm_compute; lia) ltac:(vm_compute; lia)).
  - exact (Hcells 1 2 ltac:(vm_compute; lia) ltac:(vm_compute; lia)).
Defined.

Lemma fill_submatrix_selects_entries_witness :
  wf2 sample_inputs
  /\ (forall i, i < length [1; 0] -> nth i [1; 0] 0 < dim0 sample_inputs)
  /\ (forall j, j < length [2; 0] -> nth j [2; 0] 0 < dim1 sample_inputs)
  /\ length [1; 0] * length [2; 0] <= length (data2 sample_combinations)
  /\ exists sub',
       fill_submatrix sample_inputs [1; 0] [2; 0] (data2 sample_combinations)
       = Done sub'
       /\ cell sub' (0 + 2 * 1) = at2 sample_inputs 1 0.
Proof.
  assert (Hrows : forall i, i < length [1; 0] -> nth i [1; 0] 0 < dim0 sample_inputs).
  { intros [|[|i]] Hi; simpl in *; lia. }
  assert (Hcolumns : forall j, j < length [2; 0] -> nth j [2; 0] 0 < dim1 sample_inputs).
  { intros [|[|j]] Hj; simpl in *; lia. }
  assert (Hroom : length [1; 0] * length [2; 0] <= length (data2 sample_combinations))
    by (vm_compute; lia).
  split; [reflexivity|split; [exact Hrows|split; [exact Hcolumns|split; [exact Hroom|]]]].
  destruct (fill_submatrix_selects_entries sample_inputs [1; 0] [2; 0]
              (data2 sample_combinations) eq_refl Hrows Hcolumns Hroom)
    as [sub' [Hrun [_ [Hcells _]]]].
  exists sub'. split; [exact Hrun|].
  exact (Hcells 0 1 ltac:(vm_compute; lia) ltac:(vm_compute; lia)).
Defined.

Lemma assemble_matrix_matrix_blocks_witness :
  wf2 narrow_inputs /\ wf2 sample_inputs /\ dim0 narrow_inputs <= dim0 sample_inputs
  /\ exists data,
       assemble_matrix_matrix IEEE32.nan narrow_inputs sample_inputs = Done data
       /\ dim1 data = 5
       /\ at2 data 1 (2 + 1) = at2 sample_inputs 1 1.
Proof.
  assert (Hrows : dim0 narrow_inputs <= dim0 sample_inputs) by (vm_compute; lia).
  split; [reflexivity|split; [reflexivity|split; [exact Hrows|]]].
  destruct (assemble_matrix_matrix_blocks IEEE32.nan narrow_inputs sample_inputs
              eq_refl eq_refl Hrows)
    as [data [Hrun [_ [Hcolumns [_ [_ Hright]]]]]].
  exists data. split; [exact Hrun|]. split; [exact Hcolumns|].
  exact (Hright 1 1 ltac:(vm_compute; lia) ltac:(vm_compute; lia)).
Defined.

Lemma assemble_matrix_vector_single_column_only_witness :
  wf2 single_column /\ dim1 single_column = 1
  /\ dim0 single_column <= length (data2 (biases sample_layer))
  /\ (exists data,
        assemble_matrix_vector IEEE32.nan single_column (data2 (biases sample_layer))
        = Done data
        /\ at2 data 1 1 = num 8)
  /\ wf2 sample_inputs /\ 2 <= dim1 sample_inputs /\ 1 <= dim0 sample_inputs
  /\ forall data,
       assemble_matrix_vector IEEE32.nan sample_inputs (data2 (biases sample_layer))
       <> Done data.
Proof.
  assert (Hy : dim0 single_column <= length (data2 (biases sample_layer)))
    by (vm_compute; lia).
  assert (Hwide : 2 <= dim1 sample_inputs) by (vm_compute; lia).
  assert (Hrow : 1 <= dim0 sample_inputs) by (vm_compute; lia).
  split; [reflexivity|split; [reflexivity|split; [exact Hy|split]]].
  - destruct (proj1 (assemble_matrix_vector_single_column_only IEEE32.nan single_column
                       (data2 (biases sample_layer)) eq_refl) eq_refl Hy)
      as [data [Hrun [_ [_ [_ Hcells]]]]].
    exists data. split; [exact Hrun|].
    exact (proj2 (Hcells 1 ltac:(vm_compute; lia))).
  - split; [reflexivity|split; [exact Hwide|split; [exact Hrow|]]].
    exact (proj2 (assemble_matrix_vector_single_column_only IEEE32.nan sample_inputs
                    (data2 (biases sample_layer)) eq_refl) Hwide Hrow).
Defined.

Lemma are_equal_compares_prefix_witness :
  length (data2 (biases sample_layer)) <= length (data2 (synaptic_weights sample_layer))
  /\ are_equal (data2 (biases sample_layer))
       (data2 (synaptic_weights sample_layer) ++ [IEEE32.nan]) fone
     = are_equal (data2 (biases sample_layer)) (data2 (synaptic_weights sample_layer))
         fone.
Proof.
  assert (Hlength : length (data2 (biases sample_layer))
                    <= length (data2 (synaptic_weights sample_layer)))
    by (vm_compute; lia).
  split; [exact Hlength|].
  exact (proj1 (proj2 (are_equal_compares_prefix (data2 (biases sample_layer))
                         (data2 (synaptic_weights sample_layer)) fone Hlength))
           [IEEE32.nan]).
Defined.

Lemma scrub_missing_values_removes_nan_witness :
  fisnan (fzero : SpecFloat.spec_float) = false
  /\ count_NAN (data2 (scrub_missing_values sample_inputs fzero)) = 0.
Proof.
  split; [reflexivity|].
  exact (proj1 (proj2 (proj2 (proj2 (proj2 (proj2
           (scrub_missing_values_removes_nan sample_inputs fzero)))))) eq_refl).
Defined.

Lemma l2_norm_derivatives_regular_witness :
  fltb (l2_norm (data2 (biases sample_layer))) NUMERIC_LIMITS_MIN = false
  /\ exists g,
       l2_norm_gradient (data2 (biases sample_layer)) [fzero; fzero] = Done g
       /\ cell g 1 = fdiv (num 8) (l2_norm (data2 (biases sample_layer))).
Proof.
  assert (Hnorm : fltb (l2_norm (data2 (biases sample_layer))) NUMERIC_LIMITS_MIN
                  = false)
    by (vm_compute; reflexivity).
  split; [exact Hnorm|].
  destruct (proj1 (l2_norm_derivatives_regular (data2 (biases sample_layer))
                     [fzero; fzero] sample_combinations Hnorm) eq_refl)
    as [g [Hrun [_ Hcells]]].
  exists g. split; [exact Hrun|]. exact (Hcells 1 ltac:(vm_compute; lia)).
Defined.

(** Multiplication of binary32 numbers is commutative. *)
Lemma binary32_mul_comm (a b : SpecFloat.spec_float) : fmul a b = fmul b a.
Proof.
  destruct a as [sa|sa| |sa ma ea]; destruct b as [sb|sb| |sb mb eb];
    try reflexivity; simpl; unfold SpecFloat.SFmul;
    rewrite ?(xorb_comm sa sb), ?(Pos.mul_comm ma mb), ?(Z.add_comm ea eb);
    reflexivity.
Qed.

Lemma l2_norm_hessian_symmetric_witness :
  dim0 sample_combinations = dim1 sample_combinations
  /\ exists h,
       l2_norm_hessian (data2 (biases sample_layer)) sample_combinations = Done h
       /\ at2 h 0 1 = at2 h 1 0.
Proof.
  split; [reflexivity|].
  pose (h := match l2_norm_hessian (data2 (biases sample_layer)) sample_combinations
             with Done h' => h' | _ => sample_combinations end).
  assert (Hrun : l2_norm_hessian (data2 (biases sample_layer)) sample_combinations
                 = Done h)
    by (vm_compute; reflexivity).
  exists h. split; [exact Hrun|].
  apply (proj2 (l2_norm_hessian_symmetric binary32_mul_comm
                  (data2 (biases sample_layer)) sample_combinations h eq_refl Hrun));
    vm_compute; lia.
Defined.

Lemma parameter_slices_round_trip_witness :
  layer_shaped sample_layer /\ dim0 (biases sample_layer) = 1
  /\ get_biases sample_layer (get_parameters IEEE32.nan sample_layer)
     = Done (biases sample_layer)
  /\ get_synaptic_weights sample_layer (get_parameters IEEE32.nan sample_layer)
     = Done (synaptic_weights sample_layer).
Proof.
  split; [exact sample_layer_shaped|split; [reflexivity|]].
  exact (proj1 (parameter_slices_round_trip IEEE32.nan sample_layer sample_layer_shaped)
           eq_refl).
Defined.

Lemma set_then_get_parameters_round_trip_witness :
  wf2 (biases sample_layer) /\ wf2 (synaptic_weights sample_layer)
  /\ 1 + get_parameters_number sample_layer <= length (repeat fone 10)
  /\ exists l',
       set_parameters (repeat fone 10) 1 sample_layer = Done l'
       /\ get_parameters IEEE32.nan l'
          = firstn (get_parameters_number sample_layer) (skipn 1 (repeat fone 10)).
Proof.
  assert (Hlen : 1 + get_parameters_number sample_layer <= length (repeat fone 10))
    by (vm_compute; lia).
  split; [reflexivity|split; [reflexivity|split; [exact Hlen|]]].
  destruct (set_then_get_parameters_round_trip IEEE32.nan sample_layer (repeat fone 10) 1
              eq_refl eq_refl Hlen)
    as [l' [Hrun [Hget _]]].
  exists l'. split; [exact Hrun|exact Hget].
Defined.

Lemma insert_gradient_window_witness :
  layer_shaped sample_layer
  /\ length (biases_derivatives sample_back) = get_neurons_number sample_layer
  /\ length (data2 (synaptic_weights_derivatives sample_back))
     = get_synaptic_weights_number sample_layer
  /\ 1 + get_parameters_number sample_layer <= length (repeat fone 10)
  /\ exists g,
       insert_gradient sample_layer sample_back 1 (repeat fone 10) = Done g
       /\ cell g 0 = fone /\ cell g 9 = fone.
Proof.
  assert (Hlen : 1 + get_parameters_number sample_layer <= length (repeat fone 10))
    by (vm_compute; lia).
  split; [exact sample_layer_shaped|].
  split; [reflexivity|split; [reflexivity|split; [exact Hlen|]]].
  destruct (insert_gradient_window sample_layer sample_back 1 (repeat fone 10)
              sample_layer_shaped eq_refl eq_refl Hlen)
    as [g [l' [Hrun [_ [Hkept _]]]]].
  exists g. split; [exact Hrun|]. split.
  - exact (Hkept 0 ltac:(left; vm_compute; lia)).
  - exact (Hkept 9 ltac:(right; vm_compute; lia)).
Defined.

Lemma constant_parameters_witness :
  wf2 (biases sample_layer) /\ wf2 (synaptic_weights sample_layer)
  /\ get_parameters IEEE32.nan (set_parameters_constant sample_layer fone)
     = repeat fone (get_parameters_number sample_layer).
Proof.
  split; [reflexivity|split; [reflexivity|]].
  exact (proj1 (constant_parameters IEEE32.nan sample_layer fone eq_refl eq_refl)).
Defined.

Lemma activation_function_name_round_trip_witness :
  set_activation_function_name (write_activation_function sample_layer) sample_layer
  = Done (set_activation_function (activation_function sample_layer) sample_layer).
Proof.
  exact (proj1 (activation_function_name_round_trip sample_layer sample_layer)).
Defined.

Lemma forward_propagate_own_parameters_witness :
  layer_shaped sample_layer
  /\ dim1 sample_inputs = get_inputs_number sample_layer
  /\ wf2 (combinations sample_forward)
  /\ dim0 (combinations sample_forward) = dim0 sample_inputs
  /\ dim1 (combinations sample_forward) = get_neurons_number sample_layer
  /\ forward_propagate_parameters false EmptyString sample_layer_base sample_layer
       sample_inputs (get_parameters IEEE32.nan sample_layer) sample_forward
     = forward_propagate false EmptyString sample_layer_base sample_layer
         sample_inputs sample_forward.
Proof.
  split; [exact sample_layer_shaped|].
  split; [reflexivity|split; [reflexivity|split; [reflexivity|split; [reflexivity|]]]].
  exact (forward_propagate_own_parameters IEEE32.nan false EmptyString sample_layer_base
           sample_layer sample_inputs sample_forward sample_layer_shaped
           eq_refl eq_refl eq_refl eq_refl).
Defined.

Lemma resizing_keeps_or_drops_parameters_witness :
  layer_shaped sample_layer /\ dim0 (biases sample_layer) = 1
  /\ set_inputs_number IEEE32.nan sample_layer (get_inputs_number sample_layer)
     = sample_layer
  /\ data2 (synaptic_weights (set_inputs_number IEEE32.nan sample_layer 5))
     = repeat IEEE32.nan (5 * get_neurons_number sample_layer).
Proof.
  split; [exact sample_layer_shaped|split; [reflexivity|]].
  pose proof (resizing_keeps_or_drops_parameters IEEE32.nan sample_layer
                sample_layer_shaped eq_refl) as [Hsame [_ [Hother _]]].
  split; [exact Hsame|].
  exact (proj2 (Hother 5 ltac:(vm_compute; lia) ltac:(vm_compute; lia))).
Defined.

Lemma hidden_delta_next_binary_witness :
  probabilistic_neurons_number binary_layer = 1
  /\ probabilistic_biases_number binary_layer = 1
  /\ dim0 (probabilistic_delta binary_back) = batch_samples_number previous_back
  /\ dim1 (probabilistic_delta binary_back) = 1
  /\ batch_samples_number previous_back
     <= length (data3 (probabilistic_activations_derivatives binary_forward))
  /\ dim1 (probabilistic_synaptic_weights binary_layer) = 1
  /\ dim0 (delta previous_back) = batch_samples_number previous_back
  /\ dim1 (delta previous_back) = dim0 (probabilistic_synaptic_weights binary_layer)
  /\ exists bp',
       calculate_hidden_delta (ProbabilisticForward binary_forward)
         (ProbabilisticBack binary_layer binary_back) previous_back
       = Done (ProbabilisticBack binary_layer binary_back, bp').
Proof.
  assert (Hlen : batch_samples_number previous_back
                 <= length (data3 (probabilistic_activations_derivatives binary_forward)))
    by (vm_compute; lia).
  do 4 (split; [reflexivity|]). split; [exact Hlen|].
  do 3 (split; [reflexivity|]).
  destruct (hidden_delta_next_binary binary_forward binary_layer binary_back
              previous_back eq_refl eq_refl eq_refl eq_refl Hlen eq_refl eq_refl eq_refl)
    as [bp' [Hrun _]].
  exists bp'. exact Hrun.
Defined.

Lemma squared_errors_Jacobian_follows_parameter_layout_witness :
  layer_shaped sample_layer
  /\ wf2 sample_inputs /\ dim1 sample_inputs = get_inputs_number sample_layer
  /\ wf2 (delta_lm sample_back_lm)
  /\ dim0 (delta_lm sample_back_lm) = dim0 sample_inputs
  /\ dim1 (delta_lm sample_back_lm) = get_neurons_number sample_layer
  /\ wf2 (activations_derivatives sample_forward)
  /\ dim0 (activations_derivatives sample_forward) = dim0 sample_inputs
  /\ dim1 (activations_derivatives sample_forward) = get_neurons_number sample_layer
  /\ wf2 (squared_errors_Jacobian sample_back_lm)
  /\ dim0 (squared_errors_Jacobian sample_back_lm) = dim0 sample_inputs
  /\ dim1 (squared_errors_Jacobian sample_back_lm) = get_parameters_number sample_layer
  /\ exists back_propagation',
       calculate_squared_errors_Jacobian_lm sample_layer sample_inputs sample_forward
         sample_back_lm
       = Done back_propagation'
       /\ at2 (squared_errors_Jacobian back_propagation') 1 (weight_position 3 2 2 1)
          = fmul (fmul (at2 (delta_lm sample_back_lm) 1 1)
                    (at2 (activations_derivatives sample_forward) 1 1))
              (at2 sample_inputs 1 2).
Proof.
  split; [exact sample_layer_shaped|].
  do 11 (split; [reflexivity|]).
  destruct (squared_errors_Jacobian_follows_parameter_layout sample_layer sample_inputs
              sample_forward sample_back_lm sample_layer_shaped
              eq_refl eq_refl eq_refl eq_refl eq_refl eq_refl eq_refl eq_refl
              eq_refl eq_refl eq_refl)
    as [back_propagation' [Hrun [_ [_ [_ [_ Hcells]]]]]].
  exists back_propagation'. split; [exact Hrun|].
  exact (proj2 (Hcells 1 1 ltac:(vm_compute; lia) ltac:(vm_compute; lia)) 2 ltac:(vm_compute; lia)).
Defined.

Lemma insert_squared_errors_Jacobian_columns_witness :
  wf2 (squared_errors_Jacobian sample_back_lm)
  /\ dim1 (squared_errors_Jacobian sample_back_lm) = get_parameters_number sample_layer
  /\ wf2 network_Jacobian
  /\ dim0 network_Jacobian = dim0 (squared_errors_Jacobian sample_back_lm)
  /\ 1 + get_parameters_number sample_layer <= dim1 network_Jacobian
  /\ exists J',
       insert_squared_errors_Jacobian_lm sample_layer sample_back_lm
         (dim0 network_Jacobian * 1) network_Jacobian
       = Done J'
       /\ at2 J' 1 (1 + 7) = at2 (squared_errors_Jacobian sample_back_lm) 1 7.
Proof.
  assert (Hroom : 1 + get_parameters_number sample_layer <= dim1 network_Jacobian)
    by (vm_compute; lia).
  do 4 (split; [reflexivity|]). split; [exact Hroom|].
  destruct (insert_squared_errors_Jacobian_columns sample_layer sample_back_lm 1
              network_Jacobian eq_refl eq_refl eq_refl eq_refl Hroom)
    as [J' [Hrun [_ [_ [_ [Hcells _]]]]]].
  exists J'. split; [exact Hrun|].
  exact (Hcells 1 7 ltac:(vm_compute; lia) ltac:(vm_compute; lia)).
Defined.

Lemma hidden_delta_lm_next_perceptron_witness :
  wf2 (activations_derivatives single_neuron_forward)
  /\ dim1 (activations_derivatives single_neuron_forward) = 1
  /\ (exists bp',
        calculate_hidden_delta_perceptron_lm single_neuron_forward single_neuron_layer
          single_neuron_back_lm previous_back_lm
        = Done bp')
  /\ wf2 (activations_derivatives sample_forward)
  /\ dim1 (activations_derivatives sample_forward) <> 1
  /\ 1 <= dim0 (activations_derivatives sample_forward)
  /\ calculate_hidden_delta_perceptron_lm sample_forward sample_layer sample_back_lm
       previous_back_lm
     = Undefined.
Proof.
  assert (Hmany : dim1 (activations_derivatives sample_forward) <> 1) by discriminate.
  assert (Hbatch : 1 <= dim0 (activations_derivatives sample_forward))
    by (vm_compute; lia).
  split; [reflexivity|split; [reflexivity|split]].
  - destruct (proj1 (hidden_delta_lm_next_perceptron single_neuron_forward
                       single_neuron_layer single_neuron_back_lm previous_back_lm
                       eq_refl)
                eq_refl eq_refl eq_refl eq_refl eq_refl eq_refl)
      as [bp' [Hrun _]].
    exists bp'. exact Hrun.
  - split; [reflexivity|split; [exact Hmany|split; [exact Hbatch|]]].
    exact (proj2 (hidden_delta_lm_next_perceptron sample_forward sample_layer
                    sample_back_lm previous_back_lm eq_refl) Hmany Hbatch).
Defined.
